(** * mntpp: topology discovery, path planning and flow synthesis

    A shallow embedding of [backend/topology_graph.py] (class
    [TopologyGraph]) and [backend/path_to_flow.py] (class [PathToFlow]),
    together with the properties stated about them.

    Conventions of the embedding:
    - Python [str] is Rocq [string]; the text handled is ASCII.
    - A Python [dict] is insertion ordered: it is an association list with
      unique keys ([Dict]), except for the active-flow registry, which is
      only ever looked up, assigned and deleted by key and is a [gmap].
    - A dynamically typed value (port number or [None], node attribute) is
      a [pyval].
    - A [try: ... except Exception] block is [try_except] over the
      exception monad [result]. *)

From Stdlib Require Import ZArith QArith String Ascii DecimalString.
From stdpp Require Import gmap strings list.

Local Open Scope string_scope.
Local Open Scope list_scope.
Local Open Scope Z_scope.

(** ** Python strings *)

Module PyStr.

(** [str.isspace] on ASCII: TAB..CR, FS..US and the blank. *)
Definition isspace (c : ascii) : bool :=
  let n := N_of_ascii c in
  ((9 <=? n) && (n <=? 13) || (28 <=? n) && (n <=? 32))%N.

Definition isdigit (c : ascii) : bool :=
  let n := N_of_ascii c in ((48 <=? n) && (n <=? 57))%N.

(** The class [\w] on ASCII: letters, digits and the underscore. *)
Definition isword (c : ascii) : bool :=
  let n := N_of_ascii c in
  (isdigit c || (65 <=? n) && (n <=? 90) || (97 <=? n) && (n <=? 122)
   || (n =? 95))%N.

Fixpoint lstrip (s : string) : string :=
  match s with
  | EmptyString => EmptyString
  | String c s' => if isspace c then lstrip s' else s
  end.

Fixpoint rstrip (s : string) : string :=
  match s with
  | EmptyString => EmptyString
  | String c s' =>
      match rstrip s' with
      | EmptyString => if isspace c then EmptyString else String c EmptyString
      | r => String c r
      end
  end.

(** [s.strip()] *)
Definition strip (s : string) : string := rstrip (lstrip s).

(** [s.split(sep)] for a one-character separator: every occurrence
    separates, empty fields are kept. *)
Fixpoint split_on (sep : ascii) (s : string) : list string :=
  match s with
  | EmptyString => [EmptyString]
  | String c s' =>
      if Ascii.eqb c sep then EmptyString :: split_on sep s'
      else match split_on sep s' with
           | h :: t => String c h :: t
           | [] => [String c EmptyString]
           end
  end.

(** [s.split()]: fields are the maximal runs of non-blank characters. *)
Fixpoint split (s : string) : list string :=
  match s with
  | EmptyString => []
  | String c s' =>
      if isspace c then split s'
      else match s' with
           | EmptyString => [String c EmptyString]
           | String c' _ =>
               if isspace c' then String c EmptyString :: split s'
               else match split s' with
                    | h :: t => String c h :: t
                    | [] => [String c EmptyString]
                    end
           end
  end.

(** [sub in s] *)
Fixpoint contains (sub s : string) : bool :=
  String.prefix sub s ||
  match s with
  | EmptyString => false
  | String _ s' => contains sub s'
  end.

(** [s.startswith(p)] *)
Definition startswith (s p : string) : bool := String.prefix p s.

(** [s.split(sep, 1)] when it has two fields: the text before the first
    separator and the text after it. *)
Fixpoint partition (sep : ascii) (s : string) : option (string * string) :=
  match s with
  | EmptyString => None
  | String c s' =>
      if Ascii.eqb c sep then Some (EmptyString, s')
      else match partition sep s' with
           | Some (a, b) => Some (String c a, b)
           | None => None
           end
  end.

(** Longest prefix whose characters satisfy [p], and the rest. *)
Fixpoint span (p : ascii -> bool) (s : string) : string * string :=
  match s with
  | EmptyString => (EmptyString, EmptyString)
  | String c s' =>
      if p c then let '(a, b) := span p s' in (String c a, b)
      else (EmptyString, s)
  end.

Fixpoint all (p : ascii -> bool) (s : string) : bool :=
  match s with
  | EmptyString => true
  | String c s' => p c && all p s'
  end.

(** The rest of [s] after the literal text [p], if [s] starts with it. *)
Fixpoint drop_prefix (p s : string) : option string :=
  match p with
  | EmptyString => Some s
  | String c p' =>
      match s with
      | EmptyString => None
      | String d s' => if Ascii.eqb c d then drop_prefix p' s' else None
      end
  end.

(** [s.replace(c, '')] for a one-character [c]. *)
Fixpoint remove (c : ascii) (s : string) : string :=
  match s with
  | EmptyString => EmptyString
  | String d s' => if Ascii.eqb d c then remove c s' else String d (remove c s')
  end.

(** [s[1:]] *)
Definition tail (s : string) : string :=
  match s with
  | EmptyString => EmptyString
  | String _ s' => s'
  end.

(** [a < b] on strings: lexicographic on code points. *)
Definition lt (a b : string) : bool :=
  match String.compare a b with Lt => true | _ => false end.

Definition le (a b : string) : bool :=
  match String.compare a b with Gt => false | _ => true end.

Fixpoint insert_sorted (x : string) (l : list string) : list string :=
  match l with
  | [] => [x]
  | y :: l' => if le x y then x :: l else y :: insert_sorted x l'
  end.

(** [sorted(l)] *)
Definition sorted (l : list string) : list string :=
  foldr insert_sorted [] l.

Definition digit_value (c : ascii) : Z := Z.of_N (N_of_ascii c) - 48.

Fixpoint digits_value (acc : Z) (s : string) : Z :=
  match s with
  | EmptyString => acc
  | String c s' => digits_value (10 * acc + digit_value c) s'
  end.

(** [str(n)] for an integer. *)
Definition of_Z (z : Z) : string := NilZero.string_of_int (Z.to_int z).

End PyStr.

(** ** Python values, exceptions, dictionaries *)

(** The dynamically typed values this code stores in attribute
    dictionaries, port pairs and flow rules. *)
Inductive pyval : Type :=
| PyNone
| PyInt (z : Z)
| PyStr (s : string).

#[global] Instance pyval_eq_dec : EqDecision pyval.
Proof. solve_decision. Defined.

(** [str(v)], as an f-string renders a value. *)
Definition py_str (v : pyval) : string :=
  match v with
  | PyNone => "None"
  | PyInt z => PyStr.of_Z z
  | PyStr s => s
  end.

(** The exceptions raised in this code. [FuelExhausted] is not one of
    Python's: it marks a loop of the embedding that reached its bound, and
    [shortest_path_total] shows that the search never raises it. *)
Inductive exn : Type :=
| ValueError
| KeyError
| NodeNotFound
| NetworkXNoPath
| FuelExhausted.

#[global] Instance exn_eq_dec : EqDecision exn.
Proof. solve_decision. Defined.

(** A computation that returns a value or raises. *)
Inductive result (A : Type) : Type :=
| Ok (a : A)
| Raise (e : exn).
Arguments Ok {A} a.
Arguments Raise {A} e.

Definition bind {A B} (m : result A) (f : A -> result B) : result B :=
  match m with
  | Ok a => f a
  | Raise e => Raise e
  end.

Notation "x <- m ;; k" := (bind m (fun x => k))
  (at level 100, m at next level, right associativity).

(** [try: body  except Exception as e: handler(e)] *)
Definition try_except {A} (body : result A) (handler : exn -> A) : A :=
  match body with
  | Ok a => a
  | Raise e => handler e
  end.

(** A [for] loop whose body may raise. *)
Fixpoint for_each {A S} (body : S -> A -> result S) (l : list A) (s : S) : result S :=
  match l with
  | [] => Ok s
  | x :: l' => s' <- body s x;; for_each body l' s'
  end.

(** The interpreter's bound on the length of a decimal literal accepted by
    [int()] ([sys.int_info.default_max_str_digits]); longer texts raise
    [ValueError]. No proof below depends on its value. *)
Definition int_max_str_digits : nat := 4300.

(** [int(s)] for [s] made of decimal digits. *)
Definition py_int (s : string) : result Z :=
  if (int_max_str_digits <? String.length s)%nat then Raise ValueError
  else Ok (PyStr.digits_value 0 s).

Abbreviation dict V := (list (string * V)).

Module Dict.

(** [d.get(k)] *)
Fixpoint get {V} (k : string) (d : dict V) : option V :=
  match d with
  | [] => None
  | (k', v) :: d' => if decide (k' = k) then Some v else get k d'
  end.

(** [k in d] *)
Definition mem {V} (k : string) (d : dict V) : bool :=
  match get k d with Some _ => true | None => false end.

(** [d[k] = v]: an existing key keeps its position, a new key goes last. *)
Fixpoint set {V} (k : string) (v : V) (d : dict V) : dict V :=
  match d with
  | [] => [(k, v)]
  | (k', v') :: d' =>
      if decide (k' = k) then (k, v) :: d' else (k', v') :: set k v d'
  end.

(** [d[k]] *)
Definition index {V} (k : string) (d : dict V) : result V :=
  match get k d with Some v => Ok v | None => Raise KeyError end.

(** [d.get(k, default)] *)
Definition get_default {V} (k : string) (default : V) (d : dict V) : V :=
  match get k d with Some v => v | None => default end.

(** [d.update(e)] *)
Definition update {V} (e d : dict V) : dict V :=
  foldl (fun acc kv => set kv.1 kv.2 acc) d e.

(** [list(d)], the keys in iteration order. *)
Definition keys {V} (d : dict V) : list string := d.*1.

End Dict.

(** ** Topology discovery: [TopologyGraph._parse_net_output] *)

Record Link : Type := mkLink {
  source : string;
  target : string;
  source_port : Z;
  target_port : Z
}.

#[global] Instance Link_eq_dec : EqDecision Link.
Proof. solve_decision. Defined.

Record SwitchInfo : Type := mkSwitch { sw_name : string; sw_dpid : string }.
Record HostInfo : Type := mkHost { host_name : string; host_ip : string }.

Record TopologyInfo : Type := mkInfo {
  switches : list SwitchInfo;
  hosts : list HostInfo;
  links : list Link
}.

Definition empty_info : TopologyInfo := mkInfo [] [] [].

Definition newline : ascii := ascii_of_N 10.

(** [re.match(r'^(\w+)-eth(\d+)$', s)]: the two groups, or [None]. The
    first group is the longest run of word characters, since [-] is not
    one; the texts matched here are fields of [split()] and hold no line
    break. *)
Definition re_match_port (s : string) : option (string * string) :=
  let '(w, rest) := PyStr.span PyStr.isword s in
  match w, PyStr.drop_prefix "-eth" rest with
  | String _ _, Some (String d ds) =>
      if PyStr.all PyStr.isdigit (String d ds) then Some (w, String d ds) else None
  | _, _ => None
  end.

(** [a.add(x)] on a set kept as a duplicate-free list. *)
Definition set_add (x : string) (s : list string) : list string :=
  if decide (x ∈ s) then s else s ++ [x].

(** Body of the inner loop [for part in parts[1:]]. *)
Definition parse_part (links : list Link) (part : string) : result (list Link) :=
  if PyStr.contains ":" part && PyStr.contains "eth" part then
    match PyStr.partition ":" part with
    | None => Raise ValueError
    | Some (local_port, remote_info) =>
        match re_match_port local_port with
        | None => Ok links
        | Some (local_node, local_digits) =>
            local_port_num <- py_int local_digits;;
            match re_match_port remote_info with
            | None => Ok links
            | Some (remote_node, remote_digits) =>
                remote_port_num <- py_int remote_digits;;
                if PyStr.lt local_node remote_node then
                  Ok (links ++ [mkLink local_node remote_node
                                       local_port_num remote_port_num])
                else
                  Ok (links ++ [mkLink remote_node local_node
                                       remote_port_num local_port_num])
            end
        end
    end
  else Ok links.

Record ParseState : Type := mkParse {
  ps_switches : list string;
  ps_hosts : list string;
  ps_links : list Link
}.

(** Body of the outer loop [for line in lines]. *)
Definition parse_line (st : ParseState) (line : string) : result ParseState :=
  let line := PyStr.strip line in
  if decide (line = "" ∨ line = "mininet>") then Ok st else
  let parts := PyStr.split line in
  match parts with
  | node_name :: ((_ :: _) as rest) =>
      if decide (node_name = "mininet>") then Ok st else
      let sw := if PyStr.startswith node_name "s"
                then set_add node_name (ps_switches st) else ps_switches st in
      let hs := if PyStr.startswith node_name "s" then ps_hosts st
                else if PyStr.startswith node_name "h"
                     then set_add node_name (ps_hosts st) else ps_hosts st in
      ls <- for_each parse_part rest (ps_links st);;
      Ok (mkParse sw hs ls)
  | _ => Ok st
  end.

(** The de-duplication loop over [links]. *)
Definition dedupe_step (acc : gset (string * string) * list Link) (link : Link)
  : gset (string * string) * list Link :=
  let link_key := (source link, target link) in
  if decide (link_key ∈ acc.1) then acc
  else ({[link_key]} ∪ acc.1, acc.2 ++ [link]).

Definition unique_links (ls : list Link) : list Link :=
  (foldl dedupe_step (∅, []) ls).2.

Definition parse_body (net_output : string) : result TopologyInfo :=
  let lines := PyStr.split_on newline (PyStr.strip net_output) in
  st <- for_each parse_line lines (mkParse [] [] []);;
  Ok (mkInfo
        ((λ s, mkSwitch s (PyStr.remove "s" s)) <$> PyStr.sorted (ps_switches st))
        ((λ h, mkHost h ("10.0.0." +:+ PyStr.tail h +:+ "/24")) <$> PyStr.sorted (ps_hosts st))
        (unique_links (ps_links st))).

Definition _parse_net_output (net_output : string) : TopologyInfo :=
  try_except (parse_body net_output) (λ _, empty_info).

(** ** The graph: [networkx.Graph] *)

(** Modelled from the spec: networkx is a third-party dependency and not
    part of the sources. The topology model (spec 4.2) is an undirected
    graph with attributes on nodes and edges, direction-insensitive
    [hasEdge] and an unweighted breadth-first [shortestPath]. The record
    and the operations of module [nx] follow networkx's [Graph]: the node
    dictionary [_node], the adjacency dictionary [_adj], [add_node],
    [add_edge], [has_edge]. *)
Record Graph : Type := mkGraph {
  _node : dict (dict pyval);
  _adj : dict (dict (dict pyval))
}.

Module nx.

Definition empty : Graph := mkGraph [] [].

(** [n in G], also [n in G.nodes] *)
Definition has_node (G : Graph) (n : string) : bool := Dict.mem n (_node G).

(** [list(G.nodes)] *)
Definition nodes (G : Graph) : list string := Dict.keys (_node G).

(** [G._adj[n]], with a node that has no entry read as having no
    neighbour. *)
Definition adj (G : Graph) (n : string) : dict (dict pyval) :=
  Dict.get_default n [] (_adj G).

(** [list(G.neighbors(n))] *)
Definition neighbors (G : Graph) (n : string) : list string :=
  Dict.keys (adj G n).

(** [G.has_edge(u, v)] *)
Definition has_edge (G : Graph) (u v : string) : bool :=
  match Dict.get u (_adj G) with
  | Some nbrs => Dict.mem v nbrs
  | None => false
  end.

(** [G[u][v]] *)
Definition edge_data (G : Graph) (u v : string) : result (dict pyval) :=
  nbrs <- Dict.index u (_adj G);; Dict.index v nbrs.

(** [G.add_node(n, **attr)] *)
Definition add_node (n : string) (attr : dict pyval) (G : Graph) : Graph :=
  match Dict.get n (_node G) with
  | None => mkGraph (Dict.set n (Dict.update attr []) (_node G))
                    (Dict.set n [] (_adj G))
  | Some attr_dict => mkGraph (Dict.set n (Dict.update attr attr_dict) (_node G))
                              (_adj G)
  end.

(** The start of [add_edge]: an endpoint that is not yet a node becomes
    one, without attributes. *)
Definition touch_node (n : string) (G : Graph) : Graph :=
  if has_node G n then G
  else mkGraph (Dict.set n [] (_node G)) (Dict.set n [] (_adj G)).

(** [G.add_edge(u, v, **attr)]: one attribute dictionary, stored under
    both [_adj[u][v]] and [_adj[v][u]]. *)
Definition add_edge (u v : string) (attr : dict pyval) (G : Graph) : Graph :=
  let G1 := touch_node v (touch_node u G) in
  let datadict := Dict.update attr (Dict.get_default v [] (adj G1 u)) in
  let adj1 := Dict.set u (Dict.set v datadict (adj G1 u)) (_adj G1) in
  let adj2 := Dict.set v (Dict.set u datadict (Dict.get_default v [] adj1)) adj1 in
  mkGraph (_node G1) adj2.

(** [list(G.edges)]: each edge once, from the endpoint met first. *)
Definition edges (G : Graph) : list (string * string) :=
  (foldl (λ (acc : list string * list (string * string)) n,
            (acc.1 ++ [n],
             acc.2 ++ ((λ nbr, (n, nbr)) <$>
                        List.filter (λ nbr, bool_decide (nbr ∉ acc.1)) (neighbors G n))))
         ([], []) (nodes G)).2.

(** *** Unweighted shortest path

    Modelled from the spec: spec 4.2 gives [shortestPath] as the unweighted
    breadth-first shortest path, with a failure when an endpoint is absent
    or no path exists. The definitions below are the search networkx runs
    for [shortest_path] without weights, [bidirectional_shortest_path]: a
    breadth-first search from both ends, one level at a time on the side
    with the smaller fringe, until a node is reached from both. *)

(** Outcome of expanding a fringe: the two searches met at [w], or the
    next fringe and the grown predecessor map. *)
Inductive scan : Type :=
| Met (mine : dict (option string)) (w : string)
| Next (fringe : list string) (mine : dict (option string)).

(** [for w in G.adj[v]: if w not in mine: fringe.append(w); mine[w] = v
    ; if w in other: return] *)
Fixpoint expand_node (other : dict (option string)) (v : string)
    (nbrs : list string) (fringe : list string) (mine : dict (option string))
  : scan :=
  match nbrs with
  | [] => Next fringe mine
  | w :: nbrs' =>
      let '(fringe1, mine1) :=
        if Dict.mem w mine then (fringe, mine)
        else (fringe ++ [w], Dict.set w (Some v) mine) in
      if Dict.mem w other then Met mine1 w
      else expand_node other v nbrs' fringe1 mine1
  end.

(** [for v in this_level: ...] *)
Fixpoint expand_level (G : Graph) (other : dict (option string))
    (this_level : list string) (fringe : list string)
    (mine : dict (option string)) : scan :=
  match this_level with
  | [] => Next fringe mine
  | v :: rest =>
      match expand_node other v (neighbors G v) fringe mine with
      | Met mine1 w => Met mine1 w
      | Next fringe1 mine1 => expand_level G other rest fringe1 mine1
      end
  end.

(** The loop [while forward_fringe and reverse_fringe] of
    [_bidirectional_pred_succ]; [fuel] bounds the number of levels. *)
Fixpoint search (fuel : nat) (G : Graph) (pred succ : dict (option string))
    (forward_fringe reverse_fringe : list string)
  : result (dict (option string) * dict (option string) * string) :=
  match forward_fringe, reverse_fringe with
  | [], _ | _, [] => Raise NetworkXNoPath
  | _ :: _, _ :: _ =>
      match fuel with
      | O => Raise FuelExhausted
      | S fuel' =>
          if (length forward_fringe <=? length reverse_fringe)%nat then
            match expand_level G succ forward_fringe [] pred with
            | Met pred1 w => Ok (pred1, succ, w)
            | Next fringe1 pred1 => search fuel' G pred1 succ fringe1 reverse_fringe
            end
          else
            match expand_level G pred reverse_fringe [] succ with
            | Met succ1 w => Ok (pred, succ1, w)
            | Next fringe1 succ1 => search fuel' G pred succ1 forward_fringe fringe1
            end
      end
  end.

Definition _bidirectional_pred_succ (G : Graph) (source target : string)
  : result (dict (option string) * dict (option string) * string) :=
  if decide (target = source) then Ok ([(target, None)], [(source, None)], source)
  else search (2 * length (nodes G) + 1) G [(source, None)] [(target, None)]
              [source] [target].

(** [while w is not None: path.append(w); w = m[w]] *)
Fixpoint walk (fuel : nat) (m : dict (option string)) (w : option string)
  : result (list string) :=
  match w with
  | None => Ok []
  | Some x =>
      match fuel with
      | O => Raise FuelExhausted
      | S fuel' =>
          next <- Dict.index x m;;
          rest <- walk fuel' m next;;
          Ok (x :: rest)
      end
  end.

Definition bidirectional_shortest_path (G : Graph) (source target : string)
  : result (list string) :=
  if negb (has_node G source) || negb (has_node G target) then Raise NodeNotFound
  else
    psw <- _bidirectional_pred_succ G source target;;
    let '(pred, succ, w) := psw in
    to_source <- walk (length pred) pred (Some w);;
    next <- Dict.index w succ;;
    to_target <- walk (length succ) succ next;;
    Ok (reverse to_source ++ to_target).

(** Modelled from the spec: [nx.shortest_path(G, source, target)], the
    unweighted shortest path of spec 4.2. *)
Definition shortest_path (G : Graph) (source target : string)
  : result (list string) :=
  bidirectional_shortest_path G source target.

End nx.

(** ** [TopologyGraph] *)

Record TopologyGraph : Type := mkTopology {
  graph : Graph;
  port_mapping : dict (dict pyval);
  net_output : string;
  raw_links : list Link
}.

(** [TopologyGraph.__init__] *)
Definition TopologyGraph_init : TopologyGraph := mkTopology nx.empty [] "" [].

(** The port [_build_port_mapping] records for [node] on an edge with
    attributes [edge_data]. *)
Definition mapped_port (node : string) (edge_data : dict pyval) : pyval :=
  if decide (PyStr node = Dict.get_default "source" PyNone edge_data)
  then Dict.get_default "source_port" (PyInt 1) edge_data
  else Dict.get_default "target_port" (PyInt 1) edge_data.

(** The loops of [_build_port_mapping], from an empty mapping. *)
Definition port_mapping_body (G : Graph) : result (dict (dict pyval)) :=
  for_each (λ pm node,
      for_each (λ pm neighbor,
          edge_data <- nx.edge_data G node neighbor;;
          inner <- Dict.index node pm;;
          Ok (Dict.set node (Dict.set neighbor (mapped_port node edge_data) inner) pm))
        (nx.neighbors G node) (Dict.set node [] pm))
    (nx.nodes G) [].

(** The body cannot raise (lemma [port_mapping_body_Ok]); the handler only
    logs. *)
Definition _build_port_mapping (tg : TopologyGraph) : TopologyGraph :=
  match port_mapping_body (graph tg) with
  | Ok pm => mkTopology (graph tg) pm (net_output tg) (raw_links tg)
  | Raise _ => mkTopology (graph tg) [] (net_output tg) (raw_links tg)
  end.

Definition _build_complete_graph (switches : list SwitchInfo)
    (hosts : list HostInfo) (links : list Link) (tg : TopologyGraph)
  : TopologyGraph :=
  let G1 := foldl (λ G switch,
                nx.add_node (sw_name switch)
                  [("type", PyStr "switch"); ("dpid", PyStr (sw_dpid switch))] G)
              nx.empty switches in
  let G2 := foldl (λ G host,
                nx.add_node (host_name host)
                  [("type", PyStr "host"); ("ip", PyStr (host_ip host))] G)
              G1 hosts in
  let G3 := foldl (λ G link,
                nx.add_edge (source link) (target link)
                  [("source_port", PyInt (source_port link));
                   ("target_port", PyInt (target_port link))] G)
              G2 links in
  _build_port_mapping (mkTopology G3 (port_mapping tg) (net_output tg) (raw_links tg)).

(** One round of the polling loop of [extract_topology_from_mininet], for
    the text [net_output] the console returned: the new state and whether
    the round succeeded. *)
Definition extract_topology_round (net_output : string) (tg : TopologyGraph)
  : bool * TopologyGraph :=
  if decide (net_output = "") then (false, tg)
  else
    let tg1 := mkTopology (graph tg) (port_mapping tg) net_output (raw_links tg) in
    let topology_info := _parse_net_output net_output in
    match switches topology_info with
    | [] => (false, tg1)
    | _ :: _ =>
        let tg2 := mkTopology (graph tg1) (port_mapping tg1) net_output
                              (links topology_info) in
        (true, _build_complete_graph (switches topology_info)
                 (hosts topology_info) (links topology_info) tg2)
    end.

Record NodeData : Type := mkNodeData {
  nd_id : string;
  nd_type : pyval;
  nd_ip : pyval
}.

Record EdgeData : Type := mkEdgeData {
  ed_source : string;
  ed_target : string;
  ed_source_port : pyval;
  ed_target_port : pyval
}.

Record TopologyData : Type := mkTopologyData {
  td_nodes : list NodeData;
  td_edges : list EdgeData;
  td_port_mapping : dict (dict pyval)
}.

Definition get_topology_data (tg : TopologyGraph) : TopologyData :=
  let G := graph tg in
  try_except
    (nodes <- for_each (λ nodes node,
                 node_data <- Dict.index node (_node G);;
                 Ok (nodes ++ [mkNodeData node
                                 (Dict.get_default "type" (PyStr "unknown") node_data)
                                 (Dict.get_default "ip" (PyStr "") node_data)]))
              (nx.nodes G) [];;
     edges <- for_each (λ edges (edge : string * string),
                 edge_data <- nx.edge_data G edge.1 edge.2;;
                 Ok (edges ++ [mkEdgeData edge.1 edge.2
                                 (Dict.get_default "source_port" (PyInt 1) edge_data)
                                 (Dict.get_default "target_port" (PyInt 1) edge_data)]))
              (nx.edges G) [];;
     Ok (mkTopologyData nodes edges (port_mapping tg)))
    (λ _, mkTopologyData [] [] []).

Definition find_path (tg : TopologyGraph) (src dst : string) (algorithm : string)
  : list string :=
  try_except
    (if negb (nx.has_node (graph tg) src) || negb (nx.has_node (graph tg) dst)
     then Ok []
     else if decide (algorithm = "dijkstra") then
       match nx.shortest_path (graph tg) src dst with
       | Ok path => Ok path
       | Raise NetworkXNoPath => Ok []
       | Raise e => Raise e
       end
     else Ok [])
    (λ _, []).

(** The loop of [get_port_pair_from_raw_links] over the link records. *)
Fixpoint scan_raw_links (ls : list Link) (node1 node2 : string)
  : option (pyval * pyval) :=
  match ls with
  | [] => None
  | link :: ls' =>
      if decide (source link = node1 ∧ target link = node2)
      then Some (PyInt (source_port link), PyInt (target_port link))
      else if decide (source link = node2 ∧ target link = node1)
      then Some (PyInt (target_port link), PyInt (source_port link))
      else scan_raw_links ls' node1 node2
  end.

Definition get_port_pair_from_raw_links (tg : TopologyGraph)
    (node1 node2 : string) : pyval * pyval :=
  match raw_links tg with
  | [] => (PyNone, PyNone)
  | _ :: _ =>
      match scan_raw_links (raw_links tg) node1 node2 with
      | Some ports => ports
      | None => (PyNone, PyNone)
      end
  end.

(** ** [PathToFlow] *)

Record FlowRule : Type := mkFlowRule {
  switch : string;
  flow_id : string;
  in_port : pyval;
  out_port : pyval;
  priority : Z;
  path : list string;
  direction : string
}.

Record PathToFlow : Type := mkPathToFlow {
  topology_graph : TopologyGraph;
  active_flows : gmap string (list FlowRule)
}.

(** [PathToFlow.__init__] *)
Definition PathToFlow_init (tg : TopologyGraph) : PathToFlow := mkPathToFlow tg ∅.

(** [self.active_flows[flow_id]] *)
Definition registry_index (flow_id : string) (flows : gmap string (list FlowRule))
  : result (list FlowRule) :=
  match flows !! flow_id with
  | Some rules => Ok rules
  | None => Raise KeyError
  end.

(** The value returned is a Python tuple, [Some (port1, port2)]; the
    caller also tests it against [None]. *)
Definition _get_port_pair (self : PathToFlow) (node1 node2 : string)
  : option (pyval * pyval) :=
  let tg := topology_graph self in
  try_except
    (let raw_ports := get_port_pair_from_raw_links tg node1 node2 in
     if decide (raw_ports.1 ≠ PyNone ∧ raw_ports.2 ≠ PyNone) then Ok (Some raw_ports)
     else if nx.has_edge (graph tg) node1 node2 then
       edge_data <- nx.edge_data (graph tg) node1 node2;;
       Ok (Some (Dict.get_default "source_port" (PyInt 1) edge_data,
                 Dict.get_default "target_port" (PyInt 1) edge_data))
     else if nx.has_edge (graph tg) node2 node1 then
       edge_data <- nx.edge_data (graph tg) node2 node1;;
       Ok (Some (Dict.get_default "target_port" (PyInt 1) edge_data,
                 Dict.get_default "source_port" (PyInt 1) edge_data))
     else Ok (Some (PyNone, PyNone)))
    (λ _, Some (PyNone, PyNone)).

(** The loop [for i in range(1, len(path) - 1)] of [create_flow_rules],
    over the windows [path[i-1], path[i], path[i+1]]. *)
Fixpoint switch_ports (self : PathToFlow) (path : list string)
    (switch_port_map : dict (pyval * pyval)) : dict (pyval * pyval) :=
  match path with
  | prev_node :: ((switch :: next_node :: _) as path') =>
      switch_ports self path'
        (if negb (PyStr.startswith switch "s") then switch_port_map
         else
           match _get_port_pair self prev_node switch,
                 _get_port_pair self switch next_node with
           | Some h1_to_s1, Some s1_to_h2 =>
               Dict.set switch (h1_to_s1.2, s1_to_h2.1) switch_port_map
           | _, _ => switch_port_map
           end)
  | _ => switch_port_map
  end.

(** The two rules [create_flow_rules] makes for one entry of the switch
    port map. *)
Definition rule_pair (flow_id : string) (priority : Z) (path : list string)
    (entry : string * (pyval * pyval)) : list FlowRule :=
  let '(switch, (in_port, out_port)) := entry in
  [ mkFlowRule switch (flow_id +:+ "_forward") in_port out_port priority path "forward";
    mkFlowRule switch (flow_id +:+ "_reverse") out_port in_port priority (reverse path) "reverse" ].

(** [f"flow_{path[0]}_{path[-1]}"] *)
Definition default_flow_id (path : list string) : string :=
  "flow_" +:+ List.hd "" path +:+ "_" +:+ List.last path "".

(** The flow id in force: the one given, or the default when it is
    [None]. *)
Definition flow_id_or_default (flow_id : option string) (path : list string) : string :=
  match flow_id with
  | Some f => f
  | None => default_flow_id path
  end.

Definition create_flow_rules (self : PathToFlow) (path : list string)
    (flow_id : option string) (priority : Z) : list FlowRule * PathToFlow :=
  match path with
  | [] | [_] => ([], self)
  | _ :: _ :: _ =>
      let flow_id := flow_id_or_default flow_id path in
      let switch_port_map := switch_ports self path [] in
      let flow_rules := switch_port_map ≫= rule_pair flow_id priority path in
      (flow_rules,
       mkPathToFlow (topology_graph self) (<[flow_id := flow_rules]> (active_flows self)))
  end.

Definition generate_ovs_commands (flow_rules : list FlowRule) : list string :=
  (λ rule,
     "sudo ovs-ofctl add-flow " +:+ switch rule +:+ " 'in_port=" +:+ py_str (in_port rule)
     +:+ ",priority=" +:+ PyStr.of_Z (priority rule)
     +:+ ",actions=output:" +:+ py_str (out_port rule) +:+ "'")
  <$> List.filter (λ rule, PyStr.startswith (switch rule) "s") flow_rules.

Definition delete_command (rule : FlowRule) : string :=
  "sudo ovs-ofctl del-flows " +:+ switch rule +:+ " in_port=" +:+ py_str (in_port rule).

Definition delete_flow_rules (self : PathToFlow) (flow_id : string)
  : list string * PathToFlow :=
  try_except
    (if bool_decide (flow_id ∉ dom (active_flows self)) then Ok ([], self)
     else
       flow_rules <- registry_index flow_id (active_flows self);;
       let commands := delete_command <$> flow_rules in
       Ok (commands,
           mkPathToFlow (topology_graph self) (delete flow_id (active_flows self))))
    (λ _, ([], self)).

Definition calculate_path (self : PathToFlow) (src dst : string) (algorithm : string)
  : list string :=
  find_path (topology_graph self) src dst algorithm.

Definition validate_path (self : PathToFlow) (path : list string) : bool * string :=
  let G := graph (topology_graph self) in
  if (length path <? 2)%nat then (false, "Path must have at least 2 nodes")
  else
    match List.find (λ node, negb (nx.has_node G node)) path with
    | Some node => (false, "Node " +:+ node +:+ " not found in topology")
    | None =>
        match List.find (λ e : string * string, negb (nx.has_edge G e.1 e.2))
                        (zip path (List.tl path)) with
        | Some (src, dst) => (false, "No link between " +:+ src +:+ " and " +:+ dst)
        | None =>
            if decide (size (list_to_set path : gset string) ≠ length path)
            then (false, "Path contains loops")
            else (true, "Valid path")
        end
    end.

(** ** Adjacency dumps used in the scenarios *)

Definition nl : string := String newline EmptyString.

(** Two lines, each a single link token. *)
Definition token_only_dump : string :=
  "s1-eth1:h1-eth0" +:+ nl +:+ "s1-eth2:h2-eth0".

(** The same network as the console prints it: every line starts with the
    name of a node and goes on with that node's link tokens. *)
Definition node_lines_dump : string :=
  "s1 s1-eth1:h1-eth0 s1-eth2:h2-eth0" +:+ nl +:+
  "h1 h1-eth0:s1-eth1" +:+ nl +:+
  "h2 h2-eth0:s1-eth2".

(** A switch with a link from its port 1 to its own port 2. *)
Definition self_loop_dump : string :=
  "s1 s1-eth1:s1-eth2 s1-eth2:s1-eth1".

(** A switch and a host that appears only as the peer in a link token. *)
Definition peer_only_dump : string := "s1 s1-eth1:h1-eth0".

(** The topology discovered from a dump, starting from a fresh object. *)
Definition discovered (net_output : string) : TopologyGraph :=
  (extract_topology_round net_output TopologyGraph_init).2.

(** ** Notions used to state the properties *)

(** The windows [(path[i-1], path[i], path[i+1])] over the interior
    positions [i] of a path whose node [path[i]] carries the switch
    prefix. *)
Fixpoint switch_hops (path : list string) : list (string * string * string) :=
  match path with
  | prev_node :: ((switch :: next_node :: _) as path') =>
      (if PyStr.startswith switch "s" then [(prev_node, switch, next_node)] else [])
      ++ switch_hops path'
  | _ => []
  end.

(** The interior nodes of a path: all but the first and the last. *)
Definition interior (path : list string) : list string :=
  removelast (List.tl path).

(** Ingress port of [switch] on the hop from [prev_node]: the switch side
    of the port pair of [(prev_node, switch)]. *)
Definition ingress_port (self : PathToFlow) (prev_node switch : string) : pyval :=
  match _get_port_pair self prev_node switch with
  | Some ports => ports.2
  | None => PyNone
  end.

(** Egress port of [switch] on the hop to [next_node]: the switch side of
    the port pair of [(switch, next_node)]. *)
Definition egress_port (self : PathToFlow) (switch next_node : string) : pyval :=
  match _get_port_pair self switch next_node with
  | Some ports => ports.1
  | None => PyNone
  end.

(** The forward and the reverse rule of one hop. *)
Definition hop_rules (self : PathToFlow) (flow_id : string) (priority : Z)
    (path : list string) (hop : string * string * string) : list FlowRule :=
  let '(prev_node, switch, next_node) := hop in
  [ mkFlowRule switch (flow_id +:+ "_forward")
      (ingress_port self prev_node switch) (egress_port self switch next_node)
      priority path "forward";
    mkFlowRule switch (flow_id +:+ "_reverse")
      (egress_port self switch next_node) (ingress_port self prev_node switch)
      priority (reverse path) "reverse" ].

(** Consecutive nodes of [p] are joined by an edge of [G]. *)
Fixpoint linked (G : Graph) (p : list string) : Prop :=
  match p with
  | a :: ((b :: _) as p') => nx.has_edge G a b = true /\ linked G p'
  | _ => True
  end.

(** The invariant networkx keeps for an undirected graph: the endpoints of
    an edge are nodes, and an edge is stored under both of its endpoints. *)
Definition graph_wf (G : Graph) : Prop :=
  forall u v, nx.has_edge G u v = true ->
    nx.has_node G u = true /\ nx.has_node G v = true /\ nx.has_edge G v u = true.

(** A predecessor (or successor) map as the search grows it from [root]:
    every later entry [(w, Some v)] names an earlier key [v], joined to
    [w] by an edge. *)
Inductive search_tree (G : Graph) (root : string) : dict (option string) -> Prop :=
| search_tree_root : search_tree G root [(root, None)]
| search_tree_grow m w v :
    search_tree G root m ->
    v ∈ Dict.keys m -> w ∉ Dict.keys m -> nx.has_edge G v w = true ->
    search_tree G root (m ++ [(w, Some v)]).

(** No key of [m] is a key of [other]. *)
Definition keys_disjoint {V} (m other : dict V) : Prop :=
  forall y, y ∈ Dict.keys m -> y ∈ Dict.keys other -> False.

(** The componentwise reverse of a port pair. *)
Definition swap_ports (ports : pyval * pyval) : pyval * pyval := (ports.2, ports.1).

(** [link] joins [a] and [b], in either order. *)
Definition joins (link : Link) (a b : string) : Prop :=
  (source link = a /\ target link = b) \/ (source link = b /\ target link = a).

#[global] Instance joins_dec link a b : Decision (joins link a b).
Proof. unfold joins. apply _. Defined.

(** The lines of a dump, as [_parse_net_output] splits it. *)
Definition dump_lines (net_output : string) : list string :=
  PyStr.split_on newline (PyStr.strip net_output).

(** What the parser reads on a line: the node name, which is the first
    field, and the fields after it. Lines with fewer than two fields and
    the prompt line are not read. *)
Definition line_fields (line : string) : option (string * list string) :=
  let line := PyStr.strip line in
  if decide (line = "" \/ line = "mininet>") then None
  else match PyStr.split line with
       | node_name :: ((_ :: _) as rest) =>
           if decide (node_name = "mininet>") then None else Some (node_name, rest)
       | _ => None
       end.

(** The fields of a line after its node name. *)
Definition fields_of (line : string) : list string :=
  match line_fields line with Some (_, rest) => rest | None => [] end.

(** The fields read as candidate link tokens, in reading order. *)
Definition token_fields (net_output : string) : list string :=
  dump_lines net_output ≫= fields_of.

(** The node names that head a line. *)
Definition line_heads (net_output : string) : list string :=
  omap (λ line, fst <$> line_fields line) (dump_lines net_output).

(** In the words of the spec (3, 4.1): the link a token
    [<node>-eth<N>:<peer>-eth<M>] describes. The smaller node id is stored
    first, and each port stays with its node. A field that is not such a
    token describes nothing. *)
Definition token_record (part : string) : option Link :=
  match PyStr.partition ":" part with
  | Some (local_port, remote_info) =>
      match re_match_port local_port, re_match_port remote_info with
      | Some (local_node, n), Some (remote_node, m) =>
          Some (if PyStr.lt local_node remote_node
                then mkLink local_node remote_node
                            (PyStr.digits_value 0 n) (PyStr.digits_value 0 m)
                else mkLink remote_node local_node
                            (PyStr.digits_value 0 m) (PyStr.digits_value 0 n))
      | _, _ => None
      end
  | None => None
  end.

(** Two records are about the same unordered pair of nodes. *)
Definition same_pair (r1 r2 : Link) : Prop := joins r1 (source r2) (target r2).

(** The records of a list that are the first with their key
    [(source, target)], given the keys [seen] before. *)
Fixpoint firsts (seen : gset (string * string)) (ls : list Link) : list Link :=
  match ls with
  | [] => []
  | link :: ls' =>
      if decide ((source link, target link) ∈ seen) then firsts seen ls'
      else link :: firsts ({[(source link, target link)]} ∪ seen) ls'
  end.

(** What one expansion establishes, for the map [mine] that grows and the
    map [other] of the opposite search. *)
Definition scan_ok (G : Graph) (root : string) (other mine0 : dict (option string))
    (r : nx.scan) : Prop :=
  match r with
  | nx.Met mine w =>
      search_tree G root mine /\ w ∈ Dict.keys mine /\ w ∈ Dict.keys other
      /\ (forall y, y ∈ Dict.keys mine -> y ∈ Dict.keys other -> y = w)
  | nx.Next fringe mine =>
      search_tree G root mine
      /\ (forall y, y ∈ fringe -> y ∈ Dict.keys mine)
      /\ keys_disjoint mine other
      /\ (forall y, y ∈ Dict.keys mine0 -> y ∈ Dict.keys mine)
  end.

(** The attributes of a node, none if it has no entry. *)
Definition node_attrs (G : Graph) (n : string) : dict pyval :=
  Dict.get_default n [] (_node G).

(** The type [get_topology_data] reports for a node. *)
Definition node_type (G : Graph) (n : string) : pyval :=
  Dict.get_default "type" (PyStr "unknown") (node_attrs G n).

(** The attributes of the edge stored under [u] for [v]. *)
Definition edge_attrs (G : Graph) (u v : string) : dict pyval :=
  Dict.get_default v [] (nx.adj G u).

(** Every key of [m] outside [fringe] has all its neighbours among the
    keys of [m]. *)
Definition closed_except (G : Graph) (m : dict (option string))
    (fringe : list string) : Prop :=
  forall v w, v ∈ Dict.keys m -> v ∉ fringe -> nx.has_edge G v w = true ->
    w ∈ Dict.keys m.

(** There is a walk along edges of [G] from [a] to [b]. *)
Definition connected (G : Graph) (a b : string) : Prop :=
  exists p, head p = Some a /\ last p = Some b /\ linked G p.

(** ** The outside of the program

    The code reaches the network through three calls: the tmux pane that
    runs the Mininet console ([TmuxManager.send_command]), the shell
    ([subprocess.run]) and the teardown of the emulator
    ([MininetManager.stop_mininet]). They are parameters of the
    definitions below, over a state [World] of everything outside; the
    properties hold for every behaviour of the three. *)

(** What [subprocess.run(command, shell=True, capture_output=True,
    text=True)] does: it completes with a return code and the captured
    output, or raises an exception whose text is [message]. *)
Inductive run_outcome : Type :=
| Completed (returncode : Z) (out err : string)
| RunRaised (message : string).

(** The dictionary [execute_command] returns and records. *)
Record ExecutionResult : Type := mkExecutionResult {
  command : string;
  success : bool;
  stdout : string;
  stderr : string;
  return_code : Z
}.

Record OVSController : Type := mkOVSController {
  executed_commands : list ExecutionResult
}.

(** [OVSController.__init__] *)
Definition OVSController_init : OVSController := mkOVSController [].

(** The record [create_path] stores for a path. *)
Record PathInfo : Type := mkPathInfo {
  pi_path : list string;
  pi_flow_rules : list FlowRule;
  pi_algorithm : string
}.

(** [BackendAPI]. The attribute [topology_graph] is the object the path
    converter was built with, so it is kept once, inside [path_to_flow].
    The dictionary [active_paths] is read by key and by size only. *)
Record BackendAPI : Type := mkBackendAPI {
  path_to_flow : PathToFlow;
  ovs_controller : OVSController;
  is_experiment_running : bool;
  current_topology : option TopologyData;
  active_paths : gmap string PathInfo
}.

(** [BackendAPI.__init__] *)
Definition BackendAPI_init : BackendAPI :=
  mkBackendAPI (PathToFlow_init TopologyGraph_init) OVSController_init false None ∅.

(** The dictionaries the interface returns, one constructor for each
    shape: [{'success': False, 'error': ...}], the same with
    ['failed_commands'], and the successful answers of [create_path],
    [delete_path], [calculate_path] and [stop_experiment]. *)
Inductive Response : Type :=
| Failed (error : string)
| FailedCommands (error : string) (failed_commands : list ExecutionResult)
| Created (path_id : string) (path : list string) (flow_rules : nat)
| Deleted (path_id : string) (path : list string)
| Calculated (path : list string) (algorithm : string)
| Stopped (message : string).

(** [bool(s)] for a string. *)
Definition str_bool (s : string) : bool := negb (bool_decide (s = "")).

(** [bool(t)] for a pair: a tuple of two items is never empty. *)
Definition tuple_bool {A B} (t : A * B) : bool := true.

(** [str(len(l))] *)
Definition str_len {A} (l : list A) : string := PyStr.of_Z (Z.of_nat (length l)).

Section Outside.

Variable World : Type.
Variable send_command : string -> Q -> World -> string * World.
Variable time_sleep : Q -> World -> World.
Variable subprocess_run : string -> World -> run_outcome * World.
Variable stop_mininet : World -> (bool * string) * World.

(** *** [TopologyGraph]: polling the console *)

Definition _check_session_exists (w : World) : bool * World :=
  let '(result, w) := send_command "dump" 1%Q w in
  ((0 <? String.length (PyStr.strip result))%nat, w).

(** The loop [for attempt in range(max_retries)] of
    [_get_net_from_mininet], with [attempts] rounds left. *)
Fixpoint get_net_attempts (attempts : nat) (w : World) : string * World :=
  match attempts with
  | O => ("", w)
  | S attempts' =>
      let '(check_output, w) := send_command "" (1 # 2)%Q w in
      if str_bool check_output && PyStr.contains "mininet>" check_output then
        let '(output, w) := send_command "net" 2%Q w in
        if str_bool output
           && (PyStr.contains "eth" output || PyStr.contains "lo:" output)
        then (output, w)
        else get_net_attempts attempts' w
      else get_net_attempts attempts' (time_sleep 1%Q w)
  end.

Definition _get_net_from_mininet (w : World) : string * World :=
  get_net_attempts 3 w.

(** The loop [while waited < max_wait] of [extract_topology_from_mininet],
    with [remaining = max_wait - waited] rounds left. *)
Fixpoint extract_topology_loop (remaining : nat) (tg : TopologyGraph) (w : World)
  : bool * TopologyGraph * World :=
  match remaining with
  | O => (false, tg, w)
  | S remaining' =>
      let '(session, w) := _check_session_exists w in
      if negb session then extract_topology_loop remaining' tg (time_sleep 1%Q w)
      else
        let '(net_output, w) := _get_net_from_mininet w in
        let '(found, tg) := extract_topology_round net_output tg in
        if found then (true, tg, w)
        else extract_topology_loop remaining' tg (time_sleep 1%Q w)
  end.

Definition extract_topology_from_mininet (tg : TopologyGraph) (w : World)
  : bool * TopologyGraph * World :=
  extract_topology_loop 30 tg w.

(** *** [OVSController] *)

Definition execute_command (self : OVSController) (command : string) (w : World)
  : ExecutionResult * OVSController * World :=
  let '(outcome, w) := subprocess_run command w in
  let execution_result :=
    match outcome with
    | Completed returncode out err =>
        mkExecutionResult command (returncode =? 0) out err returncode
    | RunRaised message => mkExecutionResult command false "" message (-1)
    end in
  (execution_result,
   mkOVSController (executed_commands self ++ [execution_result]), w).

Definition execute_commands (self : OVSController) (commands : list string) (w : World)
  : list ExecutionResult * OVSController * World :=
  foldl (λ '(results, self, w) command,
           let '(result, self, w) := execute_command self command w in
           (results ++ [result], self, w))
        ([], self, w) commands.

(** The command [install_flow_rules] builds for one rule, a dictionary
    whose key ['switch'] is required. *)
Definition install_command (rule : dict pyval) : result string :=
  switch <- Dict.index "switch" rule;;
  let in_port := Dict.get_default "in_port" (PyInt 1) rule in
  let out_port := Dict.get_default "out_port" (PyInt 2) rule in
  let priority := Dict.get_default "priority" (PyInt 1000) rule in
  let optional key label (match_ : string) :=
    match Dict.get key rule with
    | Some v => match_ +:+ label +:+ py_str v
    | None => match_
    end in
  let match_ :=
    optional "ip_dst" ",nw_dst="
      (optional "ip_src" ",nw_src="
         (optional "eth_dst" ",dl_dst="
            (optional "eth_src" ",dl_src=" ("in_port=" +:+ py_str in_port)))) in
  let actions := "output:" +:+ py_str out_port in
  Ok ("sudo ovs-ofctl add-flow " +:+ py_str switch +:+ " '" +:+ match_
      +:+ ",priority=" +:+ py_str priority +:+ "," +:+ actions +:+ "'").

(** The commands are built for all the rules before the first one is
    run; a rule without ['switch'] raises [KeyError] to the caller. *)
Definition install_flow_rules (self : OVSController) (flow_rules : list (dict pyval))
    (w : World) : result (list ExecutionResult * OVSController * World) :=
  commands <- for_each (λ commands rule,
                  command <- install_command rule;; Ok (commands ++ [command]))
                flow_rules [];;
  Ok (execute_commands self commands w).

Definition clear_all_flows (self : OVSController) (switches : list string) (w : World)
  : list ExecutionResult * OVSController * World :=
  execute_commands self ((λ switch, "sudo ovs-ofctl del-flows " +:+ switch) <$> switches) w.

(** *** [BackendAPI]

    Each method runs inside [try: ... except Exception]; the calls it
    makes return their failures as values, so its handler is not
    reached and is left out. *)

(** [f"path_{path[0]}_{path[-1]}_{len(self.active_paths)}"], read after
    [validate_path] has accepted the path, which is then not empty. *)
Definition new_path_id (self : BackendAPI) (path : list string) : string :=
  "path_" +:+ List.hd "" path +:+ "_" +:+ List.last path "" +:+ "_"
  +:+ PyStr.of_Z (Z.of_nat (size (active_paths self))).

Definition create_path (self : BackendAPI) (path : list string) (algorithm : string)
    (w : World) : Response * BackendAPI * World :=
  if negb (is_experiment_running self) then (Failed "No experiment running", self, w)
  else
    let '(is_valid, message) := validate_path (path_to_flow self) path in
    if negb is_valid then (Failed message, self, w)
    else
      let path_id := new_path_id self path in
      let '(flow_rules, converter) :=
        create_flow_rules (path_to_flow self) path (Some path_id) 1000 in
      let self := mkBackendAPI converter (ovs_controller self)
                    (is_experiment_running self) (current_topology self)
                    (active_paths self) in
      match flow_rules with
      | [] => (Failed "Failed to create flow rules", self, w)
      | _ :: _ =>
          match generate_ovs_commands flow_rules with
          | [] => (Failed "Failed to generate commands", self, w)
          | (_ :: _) as commands =>
              let '(results, controller, w) :=
                execute_commands (ovs_controller self) commands w in
              let self := mkBackendAPI (path_to_flow self) controller
                            (is_experiment_running self) (current_topology self)
                            (active_paths self) in
              match List.filter (λ r, negb (success r)) results with
              | (_ :: _) as failed_commands =>
                  (FailedCommands ("Failed to install " +:+ str_len failed_commands
                                   +:+ " flow rules") failed_commands,
                   self, w)
              | [] =>
                  (Created path_id path (length flow_rules),
                   mkBackendAPI (path_to_flow self) (ovs_controller self)
                     (is_experiment_running self) (current_topology self)
                     (<[path_id := mkPathInfo path flow_rules algorithm]>
                        (active_paths self)),
                   w)
              end
          end
      end.

(** The test [path_id not in self.active_paths] and the later
    [self.active_paths.pop(path_id)] read the same entry. *)
Definition delete_path (self : BackendAPI) (path_id : string) (w : World)
  : Response * BackendAPI * World :=
  match active_paths self !! path_id with
  | None => (Failed "Path not found", self, w)
  | Some path_info =>
      let '(commands, converter) := delete_flow_rules (path_to_flow self) path_id in
      let '(results, controller, w) :=
        execute_commands (ovs_controller self) commands w in
      let self := mkBackendAPI converter controller
                    (is_experiment_running self) (current_topology self)
                    (active_paths self) in
      match List.filter (λ r, negb (success r)) results with
      | (_ :: _) as failed_commands =>
          (FailedCommands ("Failed to delete " +:+ str_len failed_commands
                           +:+ " flow rules") failed_commands,
           self, w)
      | [] =>
          (Deleted path_id (pi_path path_info),
           mkBackendAPI (path_to_flow self) (ovs_controller self)
             (is_experiment_running self) (current_topology self)
             (delete path_id (active_paths self)),
           w)
      end
  end.

(** [BackendAPI.calculate_path] *)
Definition BackendAPI_calculate_path (self : BackendAPI) (src dst algorithm : string)
  : Response :=
  if negb (is_experiment_running self) then Failed "No experiment running"
  else
    match calculate_path (path_to_flow self) src dst algorithm with
    | [] => Failed "Failed to calculate path"
    | (_ :: _) as path => Calculated path algorithm
    end.

(** [stop_mininet] returns a pair [(flag, message)], and [stop_experiment]
    tests the pair itself. *)
Definition stop_experiment (self : BackendAPI) (w : World)
  : Response * BackendAPI * World :=
  if negb (is_experiment_running self) then (Failed "No experiment running", self, w)
  else
    let switches :=
      List.filter (λ node, PyStr.startswith node "s")
                  (nx.nodes (graph (topology_graph (path_to_flow self)))) in
    let '(controller, w) :=
      match switches with
      | [] => (ovs_controller self, w)
      | _ :: _ =>
          let '(_, controller, w) := clear_all_flows (ovs_controller self) switches w in
          (controller, w)
      end in
    let '(success, w) := stop_mininet w in
    if tuple_bool success then
      (Stopped "Experiment stopped",
       mkBackendAPI (path_to_flow self) controller false None ∅, w)
    else
      (Failed "Failed to stop Mininet",
       mkBackendAPI (path_to_flow self) controller (is_experiment_running self)
         (current_topology self) (active_paths self),
       w).

End Outside.

Arguments _check_session_exists {World} send_command w.
Arguments get_net_attempts {World} send_command time_sleep attempts w.
Arguments _get_net_from_mininet {World} send_command time_sleep w.
Arguments extract_topology_loop {World} send_command time_sleep remaining tg w.
Arguments extract_topology_from_mininet {World} send_command time_sleep tg w.
Arguments execute_command {World} subprocess_run self command w.
Arguments execute_commands {World} subprocess_run self commands w.
Arguments install_flow_rules {World} subprocess_run self flow_rules w.
Arguments clear_all_flows {World} subprocess_run self switches w.
Arguments create_path {World} subprocess_run self path algorithm w.
Arguments delete_path {World} subprocess_run self path_id w.
Arguments stop_experiment {World} subprocess_run stop_mininet self w.

(** The flow-rule dictionary of [create_flow_rules], as
    [install_flow_rules] reads it; the key ['path'], which holds a list, is
    not one it reads. *)
Definition rule_dict (rule : FlowRule) : dict pyval :=
  [ ("switch", PyStr (switch rule)); ("flow_id", PyStr (flow_id rule));
    ("in_port", in_port rule); ("out_port", out_port rule);
    ("priority", PyInt (priority rule)); ("direction", PyStr (direction rule)) ].

(** Every command the shell is given completes with return code 0. *)
Definition always_succeeds {World : Type}
    (subprocess_run : string -> World -> run_outcome * World) : Prop :=
  forall c w, exists out err w', subprocess_run c w = (Completed 0 out err, w').

(** The results of a run that report a failure. *)
Definition failures (results : list ExecutionResult) : list ExecutionResult :=
  List.filter (λ r, negb (success r)) results.

(** ** Behaviours of the outside used in the scenarios *)

(** A shell on which every command completes with return code 0. *)
Definition shell_ok (c : string) (w : unit) : run_outcome * unit :=
  (Completed 0 "" "", w).

(** A shell on which every command completes with return code 1. *)
Definition shell_refuses (c : string) (w : unit) : run_outcome * unit :=
  (Completed 1 "" "ovs-ofctl: s1 is not a bridge or a socket", w).

(** A teardown that reports failure. *)
Definition teardown_fails (w : unit) : (bool * string) * unit :=
  ((false, "stop failed"), w).

(** A running experiment on the topology discovered from a dump, with no
    active path. *)
Definition running_on (net_output : string) : BackendAPI :=
  mkBackendAPI (PathToFlow_init (discovered net_output)) OVSController_init true None ∅.

(** A console that never shows anything. *)
Definition console_silent (c : string) (wait : Q) (w : unit) : string * unit := ("", w).

(** A console at the prompt, which answers [net] with a dump. *)
Definition console_ready (dump : string) (c : string) (wait : Q) (w : unit)
  : string * unit :=
  (if decide (c = "net") then dump else "mininet> ", w).

(** A clock that is not observed. *)
Definition clock_idle (seconds : Q) (w : unit) : unit := w.

(** The port of node [n] on a link it is an end of. *)
Definition port_of (link : Link) (n : string) : Z :=
  if decide (source link = n) then source_port link else target_port link.

(** * Properties *)

Local Close Scope Z_scope.

(** Closed goals about concrete inputs are settled by evaluation, one
    conjunct at a time. *)
Ltac split_conj := cbv zeta; repeat match goal with |- _ /\ _ => split end.
Ltac by_evaluation := split_conj; vm_compute; reflexivity.

(** ** C1: the concrete scenario *)

(** C1, as stated, fails: a line that holds nothing but a link token has a
    single field, and the parser skips every line with fewer than two
    fields. The two-line dump of the claim therefore yields no switch, no
    host and no link, and no path from h1 to h2. *)
Lemma C1_token_only_dump_counterexample :
  _parse_net_output token_only_dump = empty_info
  /\ find_path (discovered token_only_dump) "h1" "h2" "dijkstra" = []
  /\ ~ (sw_name <$> switches (_parse_net_output token_only_dump) = ["s1"]
        /\ host_name <$> hosts (_parse_net_output token_only_dump) = ["h1"; "h2"]
        /\ find_path (discovered token_only_dump) "h1" "h2" "dijkstra"
           = ["h1"; "s1"; "h2"]).
Proof.
  split; [ | split ].
  - vm_compute. reflexivity.
  - vm_compute. reflexivity.
  - intros (Hs & _). vm_compute in Hs. discriminate Hs.
Qed.

(** C1, amended: on the dump whose lines start with the node name, parsing
    gives switch s1, hosts h1 and h2, the edge s1-h1 with port pair (1,0)
    and the edge s1-h2 with port pair (2,0); find_path(h1,h2) is
    [h1, s1, h2]; and create_flow_rules([h1,s1,h2]) makes, for the single
    switch s1, a forward rule in_port=1, out_port=2 and a reverse rule
    in_port=2, out_port=1. *)
Theorem C1_node_lines_scenario :
  let info := _parse_net_output node_lines_dump in
  let tg := discovered node_lines_dump in
  let self := PathToFlow_init tg in
  switches info = [mkSwitch "s1" "1"]
  /\ host_name <$> hosts info = ["h1"; "h2"]
  /\ links info = [mkLink "h1" "s1" 0 1; mkLink "h2" "s1" 0 2]
  /\ (nd_id <$> td_nodes (get_topology_data tg), nd_type <$> td_nodes (get_topology_data tg))
     = (["s1"; "h1"; "h2"], [PyStr "switch"; PyStr "host"; PyStr "host"])
  /\ nx.edges (graph tg) = [("s1", "h1"); ("s1", "h2")]
  /\ _get_port_pair self "s1" "h1" = Some (PyInt 1, PyInt 0)
  /\ _get_port_pair self "s1" "h2" = Some (PyInt 2, PyInt 0)
  /\ find_path tg "h1" "h2" "dijkstra" = ["h1"; "s1"; "h2"]
  /\ (create_flow_rules self ["h1"; "s1"; "h2"] None 1000).1
     = [ mkFlowRule "s1" "flow_h1_h2_forward" (PyInt 1) (PyInt 2) 1000
                    ["h1"; "s1"; "h2"] "forward";
         mkFlowRule "s1" "flow_h1_h2_reverse" (PyInt 2) (PyInt 1) 1000
                    ["h2"; "s1"; "h1"] "reverse" ].
Proof.
  by_evaluation.
Qed.

(** ** C3: a switch whose ports do not resolve *)

(** [_get_port_pair] returns a tuple on every path, also the pair
    [(None, None)] that stands for "not found": the test [is None] in
    [create_flow_rules] never holds. *)
Lemma _get_port_pair_is_tuple (self : PathToFlow) (node1 node2 : string) :
  exists ports, _get_port_pair self node1 node2 = Some ports.
Proof.
  unfold _get_port_pair, try_except.
  destruct (decide _); [ eauto | ].
  destruct (nx.has_edge _ node1 node2).
  - destruct (nx.edge_data _ node1 node2); simpl; eauto.
  - destruct (nx.has_edge _ node2 node1).
    + destruct (nx.edge_data _ node2 node1); simpl; eauto.
    + eauto.
Qed.

(** C3, the code at the failing input: on the topology h1 - s1 - h2 the
    path [h1, s1, h3] has no link s1 - h3, the egress lookup gives
    [(None, None)], and still two rules are made and registered for s1,
    with [None] as a port. *)
Lemma C3_unresolved_switch_gets_rules :
  let self := PathToFlow_init (discovered node_lines_dump) in
  let out := create_flow_rules self ["h1"; "s1"; "h3"] (Some "f1") 1000 in
  _get_port_pair self "s1" "h3" = Some (PyNone, PyNone)
  /\ out.1 = [ mkFlowRule "s1" "f1_forward" (PyInt 1) PyNone 1000
                          ["h1"; "s1"; "h3"] "forward";
               mkFlowRule "s1" "f1_reverse" PyNone (PyInt 1) 1000
                          ["h3"; "s1"; "h1"] "reverse" ]
  /\ active_flows out.2 !! "f1" = Some out.1.
Proof.
  by_evaluation.
Qed.

(** ** C8: the port mapping *)

(** An edge built by [_build_complete_graph] carries the attributes
    [source_port] and [target_port] and no attribute [source]: the
    comparison in [_build_port_mapping] fails for every node and the
    target port is recorded on both sides. *)
Lemma mapped_port_without_source (node : string) (edge_data : dict pyval) :
  Dict.get "source" edge_data = None ->
  mapped_port node edge_data = Dict.get_default "target_port" (PyInt 1) edge_data.
Proof.
  intros H. unfold mapped_port, Dict.get_default. rewrite H.
  destruct (decide _) as [E|_]; [ discriminate E | reflexivity ].
Qed.

(** C8, the code at the failing input: the link h1-eth0 : s1-eth1 is stored
    with source h1, source port 0, and the mapping rebuilt from the graph
    gives port 1, the port of s1, as the port of h1 towards s1. *)
Lemma C8_port_mapping_of_source_endpoint :
  let tg := discovered node_lines_dump in
  raw_links tg = [mkLink "h1" "s1" 0 1; mkLink "h2" "s1" 0 2]
  /\ nx.edge_data (graph tg) "h1" "s1"
     = Ok [("source_port", PyInt 0); ("target_port", PyInt 1)]
  /\ (inner <- Dict.index "h1" (port_mapping tg);; Dict.index "s1" inner)
     = Ok (PyInt 1)
  /\ (inner <- Dict.index "s1" (port_mapping tg);; Dict.index "h1" inner)
     = Ok (PyInt 1).
Proof.
  by_evaluation.
Qed.

(** ** C4: the active-flow registry *)

(** C4, as stated, fails for a path of fewer than two nodes:
    [create_flow_rules] returns before it registers anything. *)
Lemma C4_short_path_counterexample :
  let self := PathToFlow_init (discovered node_lines_dump) in
  let out := create_flow_rules self ["h1"] (Some "f1") 1000 in
  out.1 = [] /\ active_flows out.2 !! "f1" = None
  /\ ~ (active_flows out.2 !! "f1" = Some out.1).
Proof.
  split_conj; try (vm_compute; reflexivity).
  intros H. vm_compute in H. discriminate H.
Qed.

Lemma delete_flow_rules_miss (self : PathToFlow) (f : string) :
  active_flows self !! f = None -> delete_flow_rules self f = ([], self).
Proof.
  intros H. unfold delete_flow_rules.
  rewrite bool_decide_eq_true_2; [ reflexivity | ].
  by apply not_elem_of_dom.
Qed.

Lemma delete_flow_rules_hit (self : PathToFlow) (f : string) (rules : list FlowRule) :
  active_flows self !! f = Some rules ->
  delete_flow_rules self f
  = (delete_command <$> rules,
     mkPathToFlow (topology_graph self) (delete f (active_flows self))).
Proof.
  intros H. unfold delete_flow_rules.
  rewrite bool_decide_eq_false_2.
  - unfold registry_index. rewrite H. reflexivity.
  - intros Hn. apply not_elem_of_dom in Hn. congruence.
Qed.

(** C4, amended: for every path p of at least two nodes and every flow id
    f, after create_flow_rules(p, f) the registry maps f to the rules
    returned; delete_flow_rules(f) then gives one delete command per stored
    rule and leaves the registry with f deleted and nothing else changed;
    a second delete_flow_rules(f) finds no such flow id, returns no command
    and leaves the registry as it is. *)
Theorem C4_registry_round_trip (self : PathToFlow) (p : list string)
    (f : string) (prio : Z) :
  (2 <= length p)%nat ->
  let created := create_flow_rules self p (Some f) prio in
  let deleted := delete_flow_rules created.2 f in
  let again := delete_flow_rules deleted.2 f in
  active_flows created.2 !! f = Some created.1
  /\ deleted.1 = delete_command <$> created.1
  /\ length deleted.1 = length created.1
  /\ active_flows deleted.2 = delete f (active_flows created.2)
  /\ active_flows deleted.2 !! f = None
  /\ again = ([], deleted.2).
Proof.
  intros Hlen.
  destruct p as [|first [|second rest]]; simpl in Hlen; try lia.
  cbn zeta.
  set (created := create_flow_rules self (first :: second :: rest) (Some f) prio).
  assert (Hreg : active_flows created.2 !! f = Some created.1).
  { subst created. unfold create_flow_rules. cbn [fst snd active_flows].
    apply lookup_insert_eq. }
  rewrite (delete_flow_rules_hit _ _ _ Hreg). cbn [fst snd active_flows].
  assert (Hgone : delete f (active_flows created.2) !! f = None)
    by apply lookup_delete_eq.
  split_conj; try assumption; try reflexivity.
  - by rewrite length_fmap.
  - apply delete_flow_rules_miss. exact Hgone.
Qed.

Lemma C4_registry_round_trip_witness :
  let self := PathToFlow_init (discovered node_lines_dump) in
  let created := create_flow_rules self ["h1"; "s1"; "h2"] (Some "f1") 1000 in
  let deleted := delete_flow_rules created.2 "f1" in
  (2 <= length ["h1"; "s1"; "h2"])%nat
  /\ active_flows created.2 !! "f1" = Some created.1
  /\ deleted.1 = delete_command <$> created.1.
Proof.
  split; [ simpl; lia | ].
  pose proof (C4_registry_round_trip
                (PathToFlow_init (discovered node_lines_dump))
                ["h1"; "s1"; "h2"] "f1" 1000) as H.
  cbn zeta in H. destruct H as (H1 & H2 & _); [ simpl; lia | ].
  split; assumption.
Defined.

(** ** C2: two rules per switch *)

Section Dict_facts.
Context {V : Type}.
Implicit Types (d : dict V) (k : string) (v : V).

Lemma Dict_get_None k d : Dict.get k d = None <-> k ∉ Dict.keys d.
Proof.
  unfold Dict.keys. induction d as [|[k' v'] d IH]; simpl.
  - split; [ intros _; apply not_elem_of_nil | done ].
  - destruct (decide (k' = k)) as [->|Hne].
    + split; [ done | intros H; exfalso; apply H; left ].
    + rewrite IH, not_elem_of_cons. split; [ done | by intros [_ ?] ].
Qed.

Lemma Dict_mem_true k d : Dict.mem k d = true <-> k ∈ Dict.keys d.
Proof.
  unfold Dict.mem. destruct (Dict.get k d) eqn:E.
  - split; [ intros _ | done ].
    destruct (decide (k ∈ Dict.keys d)) as [|Hn]; [ done | ].
    apply Dict_get_None in Hn. congruence.
  - split; [ done | ]. apply Dict_get_None in E. done.
Qed.

Lemma Dict_mem_false k d : Dict.mem k d = false <-> k ∉ Dict.keys d.
Proof.
  rewrite <- Dict_mem_true. destruct (Dict.mem k d); naive_solver.
Qed.

Lemma Dict_set_fresh k v d : k ∉ Dict.keys d -> Dict.set k v d = d ++ [(k, v)].
Proof.
  unfold Dict.keys. induction d as [|[k' v'] d IH]; simpl; [ done | ].
  rewrite not_elem_of_cons. intros [Hne Hnin].
  destruct (decide (k' = k)); [ congruence | ]. by rewrite IH.
Qed.

Lemma Dict_keys_set k v d :
  Dict.keys (Dict.set k v d)
  = if decide (k ∈ Dict.keys d) then Dict.keys d else Dict.keys d ++ [k].
Proof.
  unfold Dict.keys. induction d as [|[k' v'] d IH]; [ done | ].
  cbn [Dict.set]. destruct (decide (k' = k)) as [->|Hne].
  - rewrite fmap_cons. cbn [fst]. rewrite decide_True; [ done | left ].
  - rewrite !fmap_cons, IH. cbn [fst].
    destruct (decide (k ∈ d.*1)) as [Hin|Hnin].
    + rewrite decide_True; [ done | by right ].
    + rewrite decide_False; [ done | ].
      rewrite not_elem_of_cons. naive_solver.
Qed.

Lemma Dict_get_set k k' v d :
  Dict.get k' (Dict.set k v d) = if decide (k = k') then Some v else Dict.get k' d.
Proof.
  induction d as [|[k0 v0] d IH]; simpl.
  - destruct (decide (k = k')); done.
  - destruct (decide (k0 = k)) as [->|Hne]; simpl.
    + destruct (decide (k = k')); done.
    + destruct (decide (k0 = k')) as [->|Hne'].
      * rewrite decide_False; [ done | congruence ].
      * apply IH.
Qed.

End Dict_facts.

Lemma switch_ports_foldl (self : PathToFlow) (path : list string)
    (m : dict (pyval * pyval)) :
  switch_ports self path m
  = foldl (λ m hop, Dict.set hop.1.2
                      (ingress_port self hop.1.1 hop.1.2,
                       egress_port self hop.1.2 hop.2) m)
          m (switch_hops path).
Proof.
  revert m. induction path as [|prev_node path IH]; intros m; [ done | ].
  destruct path as [|switch [|next_node rest]]; [ done | done | ].
  change (switch_ports self (prev_node :: switch :: next_node :: rest) m)
    with (switch_ports self (switch :: next_node :: rest)
            (if negb (PyStr.startswith switch "s") then m
             else match _get_port_pair self prev_node switch,
                        _get_port_pair self switch next_node with
                  | Some h1_to_s1, Some s1_to_h2 =>
                      Dict.set switch (h1_to_s1.2, s1_to_h2.1) m
                  | _, _ => m
                  end)).
  rewrite IH.
  change (switch_hops (prev_node :: switch :: next_node :: rest))
    with ((if PyStr.startswith switch "s"
           then [(prev_node, switch, next_node)] else [])
          ++ switch_hops (switch :: next_node :: rest)).
  rewrite foldl_app.
  destruct (PyStr.startswith switch "s"); simpl; [ | done ].
  unfold ingress_port, egress_port.
  destruct (_get_port_pair_is_tuple self prev_node switch) as [p1 ->].
  destruct (_get_port_pair_is_tuple self switch next_node) as [p2 ->].
  done.
Qed.

Lemma foldl_set_fresh {A V} (key : A -> string) (val : A -> V)
    (l : list A) (m : dict V) :
  NoDup (key <$> l) ->
  (forall a, a ∈ l -> key a ∉ Dict.keys m) ->
  foldl (λ m a, Dict.set (key a) (val a) m) m l
  = m ++ ((λ a, (key a, val a)) <$> l).
Proof.
  revert m. induction l as [|a l IH]; intros m Hnd Hfresh; simpl.
  - by rewrite app_nil_r.
  - apply NoDup_cons in Hnd as [Hna Hnd].
    rewrite Dict_set_fresh by (apply Hfresh; left).
    rewrite IH; [ by rewrite <- app_assoc | done | ].
    intros b Hb. unfold Dict.keys. rewrite fmap_app. simpl.
    rewrite elem_of_app, list_elem_of_singleton.
    intros [Hin | Heq].
    + apply (Hfresh b); [ by right | done ].
    + apply Hna. rewrite <- Heq. apply list_elem_of_fmap. eauto.
Qed.

(** The switches of the hops are interior nodes of the path, in order. *)
Lemma switch_hops_interior (path : list string) :
  (λ hop : string * string * string, hop.1.2) <$> switch_hops path
  = List.filter (λ n, PyStr.startswith n "s") (interior path).
Proof.
  unfold interior.
  induction path as [|prev_node path IH]; [ done | ].
  destruct path as [|switch [|next_node rest]]; [ done | done | ].
  change (switch_hops (prev_node :: switch :: next_node :: rest))
    with ((if PyStr.startswith switch "s"
           then [(prev_node, switch, next_node)] else [])
          ++ switch_hops (switch :: next_node :: rest)).
  rewrite fmap_app, IH.
  change (List.tl (prev_node :: switch :: next_node :: rest))
    with (switch :: next_node :: rest).
  change (List.tl (switch :: next_node :: rest)) with (next_node :: rest).
  change (removelast (switch :: next_node :: rest))
    with (switch :: removelast (next_node :: rest)).
  simpl List.filter. destruct (PyStr.startswith switch "s"); done.
Qed.

Lemma removelast_sublist {A} (l : list A) : sublist (removelast l) l.
Proof.
  induction l as [|a [|b l] IH]; simpl.
  - constructor.
  - apply sublist_nil_l.
  - apply sublist_skip. exact IH.
Qed.

Lemma filter_sublist {A} (f : A -> bool) (l : list A) : sublist (List.filter f l) l.
Proof.
  induction l as [|a l IH]; simpl; [ constructor | ].
  destruct (f a); [ by apply sublist_skip | by apply sublist_cons ].
Qed.

Lemma switch_hops_NoDup (path : list string) :
  NoDup path ->
  NoDup ((λ hop : string * string * string, hop.1.2) <$> switch_hops path).
Proof.
  intros Hnd. rewrite switch_hops_interior.
  apply (sublist_NoDup _ path Hnd).
  etrans; [ apply filter_sublist | ].
  etrans; [ apply removelast_sublist | ].
  destruct path; [ done | by apply sublist_cons ].
Qed.

Lemma size_list_to_set_le (l : list string) :
  size (list_to_set l : gset string) <= length l.
Proof.
  induction l as [|x l IH].
  - rewrite list_to_set_nil, size_empty. done.
  - rewrite list_to_set_cons, size_union_alt, size_singleton.
    assert (size ((list_to_set l : gset string) ∖ {[x]}) <= size (list_to_set l : gset string))
      by (apply subseteq_size, subseteq_difference_l; done).
    simpl. lia.
Qed.

Lemma size_list_to_set_NoDup (l : list string) :
  size (list_to_set l : gset string) = length l -> NoDup l.
Proof.
  induction l as [|x l IH]; intros Hsz; [ constructor | ].
  pose proof (size_list_to_set_le l) as Hle.
  rewrite list_to_set_cons in Hsz. simpl in Hsz.
  destruct (decide (x ∈ l)) as [Hin|Hnin].
  - exfalso.
    rewrite subseteq_union_1_L in Hsz; [ lia | ].
    apply singleton_subseteq_l. by apply elem_of_list_to_set.
  - apply NoDup_cons. split; [ done | ]. apply IH.
    rewrite size_union in Hsz.
    + rewrite size_singleton in Hsz. lia.
    + apply disjoint_singleton_l. by rewrite elem_of_list_to_set.
Qed.

(** What a positive verdict of [validate_path] means. *)
Lemma validate_path_true (self : PathToFlow) (path : list string) :
  (validate_path self path).1 = true ->
  2 <= length path
  /\ (forall n, n ∈ path -> nx.has_node (graph (topology_graph self)) n = true)
  /\ (forall e, e ∈ zip path (List.tl path) ->
        nx.has_edge (graph (topology_graph self)) e.1 e.2 = true)
  /\ NoDup path.
Proof.
  unfold validate_path.
  destruct (length path <? 2)%nat eqn:Hlen; [ done | ].
  apply Nat.ltb_ge in Hlen.
  destruct (List.find _ path) eqn:Hnodes; [ done | ].
  destruct (List.find _ (zip path (List.tl path))) as [[src dst]|] eqn:Hedges; [ done | ].
  destruct (decide _) as [|Hsz]; [ done | ]. intros _.
  split_conj.
  - exact Hlen.
  - intros n Hn. apply list_elem_of_In in Hn.
    pose proof (find_none _ _ Hnodes n Hn) as H. simpl in H.
    by apply negb_false_iff in H.
  - intros e He. apply list_elem_of_In in He.
    pose proof (find_none _ _ Hedges e He) as H. simpl in H.
    by apply negb_false_iff in H.
  - apply size_list_to_set_NoDup. apply dec_stable in Hsz. exact Hsz.
Qed.

Lemma create_flow_rules_hops (self : PathToFlow) (p : list string)
    (flow_id : option string) (prio : Z) :
  (2 <= length p)%nat -> NoDup p ->
  (create_flow_rules self p flow_id prio).1
  = switch_hops p ≫= hop_rules self (flow_id_or_default flow_id p) prio p.
Proof.
  intros Hlen Hnd.
  destruct p as [|first [|second rest]]; simpl in Hlen; try lia.
  unfold create_flow_rules. cbn [fst].
  generalize (flow_id_or_default flow_id (first :: second :: rest)). intros f.
  rewrite switch_ports_foldl.
  rewrite (foldl_set_fresh (λ hop : string * string * string, hop.1.2)
             (λ hop, (ingress_port self hop.1.1 hop.1.2,
                      egress_port self hop.1.2 hop.2))).
  - rewrite app_nil_l. generalize (switch_hops (first :: second :: rest)).
    intros hops. induction hops as [|[[prev_node switch] next_node] hops IH];
      [ done | ].
    rewrite fmap_cons, !bind_cons, IH. done.
  - by apply switch_hops_NoDup.
  - intros a _. apply not_elem_of_nil.
Qed.

Lemma length_bind_hop_rules (self : PathToFlow) (f : string) (prio : Z)
    (p : list string) (hops : list (string * string * string)) :
  length (hops ≫= hop_rules self f prio p) = 2 * length hops.
Proof.
  induction hops as [|[[prev_node switch] next_node] hops IH]; [ done | ].
  rewrite bind_cons, length_app, IH. simpl. lia.
Qed.

(** C2: for every validated (hence simple) path, [create_flow_rules]
    returns, in the order of the path, for each interior node that carries
    the switch prefix one forward rule (in_port the ingress port, out_port
    the egress port, the path as given, flow id with suffix [_forward])
    followed by one reverse rule (ports exchanged, the path reversed, flow
    id with suffix [_reverse]) and nothing else: with [k] such nodes,
    [2k] rules, one forward and one reverse for each of them. *)
Theorem C2_two_rules_per_switch (self : PathToFlow) (p : list string)
    (flow_id : option string) (prio : Z) :
  (validate_path self p).1 = true ->
  (forall hop, hop ∈ switch_hops p ->
     ingress_port self hop.1.1 hop.1.2 <> PyNone
     /\ egress_port self hop.1.2 hop.2 <> PyNone) ->
  let rules := (create_flow_rules self p flow_id prio).1 in
  let f := flow_id_or_default flow_id p in
  let k := length (List.filter (λ n, PyStr.startswith n "s") (interior p)) in
  rules = switch_hops p ≫= hop_rules self f prio p
  /\ length rules = 2 * k
  /\ (forall sw, sw ∈ List.filter (λ n, PyStr.startswith n "s") (interior p) ->
        length (List.filter
                  (λ r, bool_decide (switch r = sw /\ direction r = "forward")) rules) = 1
        /\ length (List.filter
                  (λ r, bool_decide (switch r = sw /\ direction r = "reverse")) rules) = 1).
Proof.
  intros Hvalid _. cbv zeta.
  destruct (validate_path_true _ _ Hvalid) as (Hlen & _ & _ & Hnd).
  rewrite (create_flow_rules_hops _ _ _ _ Hlen Hnd).
  generalize (flow_id_or_default flow_id p). intros f.
  rewrite <- switch_hops_interior.
  pose proof (switch_hops_NoDup p Hnd) as Hsw.
  split; [ done | split ].
  - by rewrite length_bind_hop_rules, length_fmap.
  - generalize dependent (switch_hops p). intros hops.
    induction hops as [|[[prev_node sw0] next_node] hops IH];
      intros Hsw sw Hin; [ by apply elem_of_nil in Hin | ].
    rewrite fmap_cons in Hsw, Hin. cbn [fst snd] in Hsw, Hin.
    apply NoDup_cons in Hsw as [Hfresh Hsw].
    rewrite bind_cons. cbn [hop_rules app List.filter switch direction].
    apply elem_of_cons in Hin as [->|Hin].
    + assert (Hrest : forall d,
                List.filter (λ r, bool_decide (switch r = sw0 /\ direction r = d))
                  (hops ≫= hop_rules self f prio p) = []).
      { intros d. clear IH. induction hops as [|[[a b] c] hops IH]; [ done | ].
        rewrite fmap_cons in Hfresh, Hsw. cbn [fst snd] in Hfresh, Hsw.
        apply not_elem_of_cons in Hfresh as [Hne Hfresh].
        apply NoDup_cons in Hsw as [_ Hsw].
        rewrite bind_cons. cbn [hop_rules app List.filter switch direction].
        rewrite !bool_decide_eq_false_2 by (intros [? _]; congruence).
        by apply IH. }
      rewrite bool_decide_eq_true_2 by done.
      rewrite (bool_decide_eq_false_2 (_ /\ "reverse" = "forward")) by (by intros [_ ?]).
      rewrite (bool_decide_eq_false_2 (_ /\ "forward" = "reverse")) by (by intros [_ ?]).
      rewrite (bool_decide_eq_true_2 (_ /\ "reverse" = "reverse")) by done.
      rewrite !Hrest. done.
    + assert (sw0 <> sw) as Hne by (intros ->; done).
      rewrite !bool_decide_eq_false_2 by (intros [? _]; congruence).
      by apply IH.
Qed.

Lemma C2_two_rules_per_switch_witness :
  let self := PathToFlow_init (discovered node_lines_dump) in
  (validate_path self ["h1"; "s1"; "h2"]).1 = true
  /\ (forall hop, hop ∈ switch_hops ["h1"; "s1"; "h2"] ->
        ingress_port self hop.1.1 hop.1.2 <> PyNone
        /\ egress_port self hop.1.2 hop.2 <> PyNone)
  /\ length (create_flow_rules self ["h1"; "s1"; "h2"] (Some "f1") 1000).1 = 2.
Proof.
  cbv zeta.
  assert (Hv : (validate_path (PathToFlow_init (discovered node_lines_dump))
                  ["h1"; "s1"; "h2"]).1 = true)
    by (vm_compute; reflexivity).
  assert (Hp : forall hop, hop ∈ switch_hops ["h1"; "s1"; "h2"] ->
            ingress_port (PathToFlow_init (discovered node_lines_dump)) hop.1.1 hop.1.2
            <> PyNone
            /\ egress_port (PathToFlow_init (discovered node_lines_dump)) hop.1.2 hop.2
               <> PyNone).
  { intros hop Hin.
    change (switch_hops ["h1"; "s1"; "h2"]) with [("h1", "s1", "h2")] in Hin.
    apply list_elem_of_singleton in Hin. subst hop.
    split; vm_compute; discriminate. }
  split_conj; [ exact Hv | exact Hp | ].
  exact (proj1 (proj2 (C2_two_rules_per_switch
            (PathToFlow_init (discovered node_lines_dump))
            ["h1"; "s1"; "h2"] (Some "f1") 1000 Hv Hp))).
Defined.

(** ** The graph invariant *)

Lemma has_node_add_node (n m : string) (attr : dict pyval) (G : Graph) :
  nx.has_node (nx.add_node n attr G) m
  = nx.has_node G m || bool_decide (n = m).
Proof.
  unfold nx.has_node, nx.add_node, Dict.mem.
  destruct (Dict.get n (_node G)) eqn:En; cbn [_node]; rewrite Dict_get_set.
  - destruct (decide (n = m)) as [->|Hne].
    + rewrite En. by rewrite bool_decide_eq_true_2.
    + rewrite bool_decide_eq_false_2 by done. by rewrite orb_false_r.
  - destruct (decide (n = m)) as [->|Hne].
    + rewrite bool_decide_eq_true_2 by done. by rewrite orb_true_r.
    + rewrite bool_decide_eq_false_2 by done. by rewrite orb_false_r.
Qed.

Lemma has_edge_fresh_node (n : string) (nodes : dict (dict pyval)) (G : Graph)
    (u v : string) :
  graph_wf G -> nx.has_node G n = false ->
  nx.has_edge (mkGraph nodes (Dict.set n [] (_adj G))) u v = nx.has_edge G u v.
Proof.
  intros Hwf Hn. unfold nx.has_edge at 1. cbn [_adj]. rewrite Dict_get_set.
  destruct (decide (n = u)) as [->|Hne]; [ | done ].
  destruct (nx.has_edge G u v) eqn:E; [ | done ].
  apply Hwf in E as (Hu & _). congruence.
Qed.

Lemma has_edge_add_node (n : string) (attr : dict pyval) (G : Graph) (u v : string) :
  graph_wf G -> nx.has_edge (nx.add_node n attr G) u v = nx.has_edge G u v.
Proof.
  intros Hwf. unfold nx.add_node.
  destruct (Dict.get n (_node G)) eqn:En; [ done | ].
  apply has_edge_fresh_node; [ done | ].
  unfold nx.has_node, Dict.mem. by rewrite En.
Qed.

Lemma has_node_touch_node (n m : string) (G : Graph) :
  nx.has_node (nx.touch_node n G) m = nx.has_node G m || bool_decide (n = m).
Proof.
  unfold nx.touch_node. destruct (nx.has_node G n) eqn:En.
  - destruct (decide (n = m)) as [->|Hne].
    + rewrite En. done.
    + rewrite bool_decide_eq_false_2 by done. by rewrite orb_false_r.
  - unfold nx.has_node, Dict.mem. cbn [_node]. rewrite Dict_get_set.
    destruct (decide (n = m)) as [->|Hne].
    + rewrite bool_decide_eq_true_2 by done. by rewrite orb_true_r.
    + rewrite bool_decide_eq_false_2 by done. by rewrite orb_false_r.
Qed.

Lemma has_edge_touch_node (n : string) (G : Graph) (u v : string) :
  graph_wf G -> nx.has_edge (nx.touch_node n G) u v = nx.has_edge G u v.
Proof.
  intros Hwf. unfold nx.touch_node. destruct (nx.has_node G n) eqn:En; [ done | ].
  by apply has_edge_fresh_node.
Qed.

Lemma graph_wf_touch_node (n : string) (G : Graph) :
  graph_wf G -> graph_wf (nx.touch_node n G).
Proof.
  intros Hwf u v. rewrite !has_edge_touch_node, !has_node_touch_node by done.
  intros H. apply Hwf in H as (-> & -> & ->). done.
Qed.

Lemma graph_wf_add_node (n : string) (attr : dict pyval) (G : Graph) :
  graph_wf G -> graph_wf (nx.add_node n attr G).
Proof.
  intros Hwf u v. rewrite !has_edge_add_node, !has_node_add_node by done.
  intros H. apply Hwf in H as (-> & -> & ->). done.
Qed.

Lemma Dict_mem_set {V} (k k' : string) (v : V) (d : dict V) :
  Dict.mem k' (Dict.set k v d) = bool_decide (k = k') || Dict.mem k' d.
Proof.
  unfold Dict.mem. rewrite Dict_get_set.
  destruct (decide (k = k')) as [->|Hne].
  - by rewrite bool_decide_eq_true_2.
  - by rewrite bool_decide_eq_false_2.
Qed.

Lemma has_edge_get (G : Graph) (u v : string) :
  nx.has_edge G u v = Dict.mem v (nx.adj G u).
Proof.
  unfold nx.has_edge, nx.adj, Dict.get_default.
  destruct (Dict.get u (_adj G)); done.
Qed.

(** The edges after [add_edge]: those there were, and the new one, both
    ways. *)
Lemma has_edge_add_edge (u v : string) (attr : dict pyval) (G : Graph) (a b : string) :
  graph_wf G ->
  nx.has_edge (nx.add_edge u v attr G) a b
  = nx.has_edge G a b
    || bool_decide (a = u /\ b = v) || bool_decide (a = v /\ b = u).
Proof.
  intros Hwf.
  pose proof (has_edge_touch_node v (nx.touch_node u G) a b
                (graph_wf_touch_node u G Hwf)) as H1.
  rewrite (has_edge_touch_node u G a b Hwf) in H1. rewrite <- H1.
  unfold nx.add_edge.
  set (G1 := nx.touch_node v (nx.touch_node u G)).
  rewrite !has_edge_get. unfold nx.adj, Dict.get_default. cbn [_adj].
  rewrite !Dict_get_set.
  destruct (decide (v = a)) as [->|Hva]; destruct (decide (u = a)) as [->|Hua];
    rewrite ?Dict_mem_set;
    destruct (Dict.mem b _); repeat case_bool_decide;
    try reflexivity; exfalso; intuition congruence.
Qed.

Lemma has_node_add_edge (u v : string) (attr : dict pyval) (G : Graph) (m : string) :
  nx.has_node (nx.add_edge u v attr G) m
  = nx.has_node G m || bool_decide (u = m) || bool_decide (v = m).
Proof.
  unfold nx.add_edge, nx.has_node at 1. cbn [_node].
  fold (nx.has_node (nx.touch_node v (nx.touch_node u G)) m).
  by rewrite !has_node_touch_node.
Qed.

Lemma graph_wf_add_edge (u v : string) (attr : dict pyval) (G : Graph) :
  graph_wf G -> graph_wf (nx.add_edge u v attr G).
Proof.
  intros Hwf a b Hab. rewrite has_edge_add_edge in Hab by done.
  rewrite !has_node_add_edge, has_edge_add_edge by done.
  apply orb_true_iff in Hab as [Hab | Hab];
    [ apply orb_true_iff in Hab as [Hab | Hab] | ].
  - apply Hwf in Hab as (-> & -> & ->). done.
  - apply bool_decide_eq_true in Hab as [-> ->].
    rewrite !orb_true_iff, !bool_decide_eq_true. intuition.
  - apply bool_decide_eq_true in Hab as [-> ->].
    rewrite !orb_true_iff, !bool_decide_eq_true. intuition.
Qed.

Lemma graph_wf_empty : graph_wf nx.empty.
Proof. intros u v H. discriminate H. Qed.

Lemma graph_wf_foldl {A} (step : Graph -> A -> Graph) (l : list A) (G : Graph) :
  (forall G a, graph_wf G -> graph_wf (step G a)) ->
  graph_wf G -> graph_wf (foldl step G l).
Proof.
  intros Hstep. revert G. induction l as [|a l IH]; intros G HG; simpl; auto.
Qed.

Lemma graph_build_port_mapping (tg : TopologyGraph) :
  graph (_build_port_mapping tg) = graph tg.
Proof. unfold _build_port_mapping. destruct (port_mapping_body _); done. Qed.

(** Every graph [_build_complete_graph] makes satisfies the invariant. *)
Lemma graph_wf_build_complete_graph (sws : list SwitchInfo) (hs : list HostInfo)
    (ls : list Link) (tg : TopologyGraph) :
  graph_wf (graph (_build_complete_graph sws hs ls tg)).
Proof.
  unfold _build_complete_graph. rewrite graph_build_port_mapping. cbn [graph].
  apply graph_wf_foldl; [ intros; by apply graph_wf_add_edge | ].
  apply graph_wf_foldl; [ intros; by apply graph_wf_add_node | ].
  apply graph_wf_foldl; [ intros; by apply graph_wf_add_node | ].
  apply graph_wf_empty.
Qed.

(** A round of discovery keeps the invariant. *)
Lemma graph_wf_extract_topology_round (net_output : string) (tg : TopologyGraph) :
  graph_wf (graph tg) -> graph_wf (graph (extract_topology_round net_output tg).2).
Proof.
  intros Hwf. unfold extract_topology_round.
  destruct (decide _); [ done | ].
  destruct (switches _); [ done | ].
  apply graph_wf_build_complete_graph.
Qed.

Lemma graph_wf_discovered (net_output : string) :
  graph_wf (graph (discovered net_output)).
Proof. apply graph_wf_extract_topology_round, graph_wf_empty. Qed.

(** ** Soundness of the shortest-path search *)

Lemma Dict_get_app {V} (k : string) (d e : dict V) :
  Dict.get k (d ++ e)
  = match Dict.get k d with Some v => Some v | None => Dict.get k e end.
Proof.
  induction d as [|[k' v'] d IH]; [ done | ].
  rewrite <- app_comm_cons. cbn [Dict.get]. destruct (decide (k' = k)); done.
Qed.

Lemma Dict_keys_app {V} (d e : dict V) :
  Dict.keys (d ++ e) = Dict.keys d ++ Dict.keys e.
Proof. unfold Dict.keys. apply fmap_app. Qed.

Lemma Dict_index_app {V} (k : string) (d e : dict V) (v : V) :
  Dict.index k d = Ok v -> Dict.index k (d ++ e) = Ok v.
Proof.
  unfold Dict.index. rewrite Dict_get_app. destruct (Dict.get k d); done.
Qed.

Lemma linked_app (G : Graph) (p q : list string) :
  linked G p -> linked G q ->
  (forall a b, last p = Some a -> head q = Some b -> nx.has_edge G a b = true) ->
  linked G (p ++ q).
Proof.
  intros Hp Hq Hj. induction p as [|a p IH]; [ done | ].
  destruct p as [|b p].
  - destruct q as [|c q]; [ done | ].
    split; [ by apply Hj | done ].
  - destruct Hp as [Hab Hp]. split; [ done | ].
    apply IH; [ done | ]. intros x y Hx Hy. apply Hj; [ | done ].
    by rewrite last_cons_cons.
Qed.

Lemma linked_app_inv (G : Graph) (p q : list string) :
  linked G (p ++ q) -> linked G p /\ linked G q.
Proof.
  induction p as [|a p IH]; [ done | ].
  destruct p as [|b p].
  - intros H. split; [ done | ]. destruct q; [ done | apply H ].
  - intros [Hab H]. apply IH in H as [Hp Hq]. done.
Qed.

Lemma linked_reverse (G : Graph) (p : list string) :
  graph_wf G -> linked G (reverse p) -> linked G p.
Proof.
  intros Hwf. induction p as [|a p IH]; [ done | ].
  destruct p as [|b p]; [ done | ].
  intros H. rewrite !reverse_cons, <- app_assoc in H.
  pose proof H as H'. rewrite app_assoc, <- reverse_cons in H'.
  apply linked_app_inv in H' as [H' _].
  apply linked_app_inv in H as [_ [Hba _]].
  split; [ by apply Hwf in Hba as (_ & _ & ?) | ].
  apply IH. exact H'.
Qed.

Lemma linked_zip (G : Graph) (p : list string) :
  linked G p ->
  forall e, e ∈ zip p (List.tl p) -> nx.has_edge G e.1 e.2 = true.
Proof.
  induction p as [|a p IH]; intros Hp e He; [ by apply elem_of_nil in He | ].
  destruct p as [|b p]; [ by apply elem_of_nil in He | ].
  destruct Hp as [Hab Hp]. simpl in He.
  apply elem_of_cons in He as [->|He]; [ done | ].
  by apply IH.
Qed.

Lemma walk_app (fuel : nat) (m e : dict (option string)) (x : option string)
    (p : list string) :
  nx.walk fuel m x = Ok p -> nx.walk fuel (m ++ e) x = Ok p.
Proof.
  revert x p. induction fuel as [|fuel IH]; intros [y|] p; simpl; try done.
  destruct (Dict.index y m) as [next|] eqn:Ei; [ | done ].
  rewrite (Dict_index_app _ _ e _ Ei). simpl.
  destruct (nx.walk fuel m next) as [rest|] eqn:Ew; [ | done ].
  by rewrite (IH _ _ Ew).
Qed.

Lemma search_tree_NoDup (G : Graph) (root : string) (m : dict (option string)) :
  search_tree G root m -> NoDup (Dict.keys m).
Proof.
  induction 1 as [|m w v _ IH _ Hw _].
  - apply NoDup_singleton.
  - rewrite Dict_keys_app. apply NoDup_app. split_conj; [ done | | apply NoDup_singleton ].
    intros y Hy Hy'. apply list_elem_of_singleton in Hy'. by subst.
Qed.

Lemma search_tree_nodes (G : Graph) (root : string) (m : dict (option string)) :
  graph_wf G -> nx.has_node G root = true -> search_tree G root m ->
  forall y, y ∈ Dict.keys m -> nx.has_node G y = true.
Proof.
  intros Hwf Hroot. induction 1 as [|m w v _ IH _ _ Hvw]; intros y Hy.
  - apply list_elem_of_singleton in Hy. by subst.
  - rewrite Dict_keys_app in Hy. apply elem_of_app in Hy as [Hy|Hy]; [ by apply IH | ].
    apply list_elem_of_singleton in Hy. subst.
    by apply Hwf in Hvw as (_ & ? & _).
Qed.

(** Walking a search tree from one of its keys: the chain to the root. *)
Lemma search_tree_walk (G : Graph) (root : string) (m : dict (option string)) :
  search_tree G root m ->
  forall x, x ∈ Dict.keys m ->
  exists p,
    (forall fuel, length (x :: p) <= fuel -> nx.walk fuel m (Some x) = Ok (x :: p))
    /\ last (x :: p) = Some root
    /\ NoDup (x :: p)
    /\ (forall y, y ∈ x :: p -> y ∈ Dict.keys m)
    /\ linked G (reverse (x :: p)).
Proof.
  induction 1 as [|m w v Hm IH Hv Hw Hvw]; intros x Hx.
  - apply list_elem_of_singleton in Hx. simpl in Hx. subst x. exists [].
    split_conj; try done.
    + intros [|fuel] Hf; [ simpl in Hf; lia | ].
      simpl. unfold Dict.index. simpl. rewrite decide_True by done.
      cbn [bind]. destruct fuel; done.
    + apply NoDup_singleton.
  - assert (Hold : forall x, x ∈ Dict.keys m -> exists p,
              (forall fuel, length (x :: p) <= fuel ->
                 nx.walk fuel (m ++ [(w, Some v)]) (Some x) = Ok (x :: p))
              /\ last (x :: p) = Some root /\ NoDup (x :: p)
              /\ (forall y, y ∈ x :: p -> y ∈ Dict.keys m)
              /\ linked G (reverse (x :: p))).
    { intros z Hz. destruct (IH z Hz) as (p & Hwalk & Hrest). exists p.
      split; [ | done ]. intros fuel Hf. apply walk_app. by apply Hwalk. }
    rewrite Dict_keys_app in Hx. apply elem_of_app in Hx as [Hx|Hx].
    + destruct (Hold x Hx) as (p & Hwalk & Hlast & Hnd & Hin & Hlink).
      exists p. split_conj; try done.
      intros y Hy. rewrite Dict_keys_app. apply elem_of_app. left. by apply Hin.
    + apply list_elem_of_singleton in Hx. simpl in Hx. subst x.
      destruct (Hold v Hv) as (p & Hwalk & Hlast & Hnd & Hin & Hlink).
      exists (v :: p). split_conj.
      * intros [|fuel] Hf; [ simpl in Hf; lia | ].
        cbn [nx.walk]. unfold Dict.index at 1. rewrite Dict_get_app.
        apply Dict_get_None in Hw. rewrite Hw. simpl Dict.get.
        rewrite decide_True by done. cbn [bind].
        rewrite Hwalk by (simpl in *; lia). done.
      * by rewrite last_cons_cons.
      * apply NoDup_cons. split; [ | done ]. intros Hc. apply Hw. by apply Hin.
      * intros y Hy. rewrite Dict_keys_app. apply elem_of_app.
        apply elem_of_cons in Hy as [->|Hy]; [ right; by apply list_elem_of_singleton | ].
        left. by apply Hin.
      * rewrite (reverse_cons (v :: p) w).
        apply linked_app; [ done | done | ].
        intros a b Ha Hb. injection Hb as <-.
        rewrite last_reverse in Ha. injection Ha as <-. done.
Qed.

Lemma neighbors_has_edge (G : Graph) (v w : string) :
  w ∈ nx.neighbors G v <-> nx.has_edge G v w = true.
Proof. unfold nx.neighbors. by rewrite has_edge_get, Dict_mem_true. Qed.

Lemma scan_ok_mono (G : Graph) (root : string) (other mine0 mine1 : dict (option string))
    (r : nx.scan) :
  (forall y, y ∈ Dict.keys mine0 -> y ∈ Dict.keys mine1) ->
  scan_ok G root other mine1 r -> scan_ok G root other mine0 r.
Proof.
  intros Hsub. destruct r as [mine w|fringe mine]; simpl; [ done | ].
  intros (H1 & H2 & H3 & H4). split_conj; try done.
  intros y Hy. by apply H4, Hsub.
Qed.

Lemma expand_node_ok (G : Graph) (root : string) (other : dict (option string))
    (v : string) (nbrs fringe : list string) (mine : dict (option string)) :
  search_tree G root mine -> v ∈ Dict.keys mine ->
  (forall w, w ∈ nbrs -> nx.has_edge G v w = true) ->
  (forall y, y ∈ fringe -> y ∈ Dict.keys mine) ->
  keys_disjoint mine other ->
  scan_ok G root other mine (nx.expand_node other v nbrs fringe mine).
Proof.
  revert fringe mine.
  induction nbrs as [|w nbrs IH]; intros fringe mine Htree Hv Hnbrs Hfr Hdisj.
  - simpl. split_conj; done.
  - cbn [nx.expand_node].
    assert (Hvw : nx.has_edge G v w = true) by (apply Hnbrs; left).
    assert (Hnbrs' : forall w', w' ∈ nbrs -> nx.has_edge G v w' = true)
      by (intros; apply Hnbrs; by right).
    destruct (Dict.mem w mine) eqn:Emine.
    + apply Dict_mem_true in Emine.
      destruct (Dict.mem w other) eqn:Eother.
      * apply Dict_mem_true in Eother. exfalso. by apply (Hdisj w).
      * by apply IH.
    + apply Dict_mem_false in Emine.
      rewrite (Dict_set_fresh _ _ _ Emine).
      assert (Htree' : search_tree G root (mine ++ [(w, Some v)]))
        by (by apply search_tree_grow).
      assert (Hsub : forall y, y ∈ Dict.keys mine -> y ∈ Dict.keys (mine ++ [(w, Some v)])).
      { intros y Hy. rewrite Dict_keys_app. apply elem_of_app. by left. }
      assert (Hnew : w ∈ Dict.keys (mine ++ [(w, Some v)])).
      { rewrite Dict_keys_app. apply elem_of_app. right. by apply list_elem_of_singleton. }
      destruct (Dict.mem w other) eqn:Eother.
      * apply Dict_mem_true in Eother. simpl. split_conj; try done.
        intros y Hy Hy'. rewrite Dict_keys_app in Hy.
        apply elem_of_app in Hy as [Hy|Hy].
        -- exfalso. by apply (Hdisj y).
        -- by apply list_elem_of_singleton in Hy.
      * apply Dict_mem_false in Eother.
        apply (scan_ok_mono _ _ _ _ _ _ Hsub).
        apply IH; try done.
        -- by apply Hsub.
        -- intros y Hy. apply elem_of_app in Hy as [Hy|Hy]; [ by apply Hsub, Hfr | ].
           apply list_elem_of_singleton in Hy. by subst.
        -- intros y Hy Hy'. rewrite Dict_keys_app in Hy.
           apply elem_of_app in Hy as [Hy|Hy]; [ by apply (Hdisj y) | ].
           apply list_elem_of_singleton in Hy. simpl in Hy. by subst.
Qed.

Lemma expand_level_ok (G : Graph) (root : string) (other : dict (option string))
    (this_level fringe : list string) (mine : dict (option string)) :
  search_tree G root mine ->
  (forall v, v ∈ this_level -> v ∈ Dict.keys mine) ->
  (forall y, y ∈ fringe -> y ∈ Dict.keys mine) ->
  keys_disjoint mine other ->
  scan_ok G root other mine (nx.expand_level G other this_level fringe mine).
Proof.
  revert fringe mine.
  induction this_level as [|v rest IH]; intros fringe mine Htree Hlevel Hfr Hdisj.
  - simpl. split_conj; done.
  - cbn [nx.expand_level].
    pose proof (expand_node_ok G root other v (nx.neighbors G v) fringe mine Htree
                  (Hlevel v ltac:(left)) (λ w, proj1 (neighbors_has_edge G v w))
                  Hfr Hdisj) as Hnode.
    destruct (nx.expand_node other v (nx.neighbors G v) fringe mine)
      as [mine1 w|fringe1 mine1]; [ exact Hnode | ].
    simpl in Hnode. destruct Hnode as (H1 & H2 & H3 & H4).
    apply (scan_ok_mono _ _ _ _ _ _ H4).
    apply IH; try done.
    intros y Hy. apply H4, Hlevel. by right.
Qed.

(** The two maps when the searches meet at [w]: both are search trees, [w]
    is a key of both and their only common key. *)
Lemma search_ok (G : Graph) (source target : string) (fuel : nat)
    (pred succ : dict (option string)) (forward_fringe reverse_fringe : list string)
    (pred' succ' : dict (option string)) (w : string) :
  search_tree G source pred -> search_tree G target succ ->
  (forall y, y ∈ forward_fringe -> y ∈ Dict.keys pred) ->
  (forall y, y ∈ reverse_fringe -> y ∈ Dict.keys succ) ->
  keys_disjoint pred succ ->
  nx.search fuel G pred succ forward_fringe reverse_fringe = Ok (pred', succ', w) ->
  search_tree G source pred' /\ search_tree G target succ'
  /\ w ∈ Dict.keys pred' /\ w ∈ Dict.keys succ'
  /\ (forall y, y ∈ Dict.keys pred' -> y ∈ Dict.keys succ' -> y = w).
Proof.
  revert pred succ forward_fringe reverse_fringe.
  induction fuel as [|fuel IH];
    intros pred succ ff rf Hp Hs Hff Hrf Hdisj Hsearch.
  - destruct ff, rf; discriminate Hsearch.
  - destruct ff as [|f0 ff]; [ discriminate Hsearch | ].
    destruct rf as [|r0 rf]; [ discriminate Hsearch | ].
    cbn [nx.search] in Hsearch.
    destruct (length (f0 :: ff) <=? length (r0 :: rf))%nat.
    + pose proof (expand_level_ok G source succ (f0 :: ff) [] pred Hp Hff
                    ltac:(intros y Hy; by apply elem_of_nil in Hy) Hdisj) as Hlev.
      destruct (nx.expand_level G succ (f0 :: ff) [] pred) as [pred1 w1|fringe1 pred1].
      * injection Hsearch as <- <- <-. simpl in Hlev.
        destruct Hlev as (H1 & H2 & H3 & H4). split_conj; done.
      * simpl in Hlev. destruct Hlev as (H1 & H2 & H3 & H4).
        apply (IH pred1 succ fringe1 (r0 :: rf)); done.
    + assert (Hdisj' : keys_disjoint succ pred)
        by (intros y Hy Hy'; by apply (Hdisj y)).
      pose proof (expand_level_ok G target pred (r0 :: rf) [] succ Hs Hrf
                    ltac:(intros y Hy; by apply elem_of_nil in Hy) Hdisj') as Hlev.
      destruct (nx.expand_level G pred (r0 :: rf) [] succ) as [succ1 w1|fringe1 succ1].
      * injection Hsearch as <- <- <-. simpl in Hlev.
        destruct Hlev as (H1 & H2 & H3 & H4).
        split_conj; try done. intros y Hy Hy'. by apply H4.
      * simpl in Hlev. destruct Hlev as (H1 & H2 & H3 & H4).
        apply (IH pred succ1 (f0 :: ff) fringe1); try done.
        intros y Hy Hy'. by apply (H3 y).
Qed.

Lemma chain_length (m : dict (option string)) (c : list string) :
  NoDup c -> (forall y, y ∈ c -> y ∈ Dict.keys m) -> length c <= length m.
Proof.
  intros Hnd Hin. unfold Dict.keys in Hin.
  rewrite <- (length_fmap fst m). apply submseteq_length.
  by apply NoDup_submseteq.
Qed.

(** The path [shortest_path] returns between two distinct nodes: it starts
    at the source, ends at the target, repeats no node, follows edges and
    stays within the nodes of the graph. *)
Lemma shortest_path_sound (G : Graph) (source target : string) (p : list string) :
  graph_wf G -> source <> target ->
  nx.shortest_path G source target = Ok p ->
  head p = Some source /\ last p = Some target /\ NoDup p /\ linked G p
  /\ (forall y, y ∈ p -> nx.has_node G y = true).
Proof.
  intros Hwf Hne. unfold nx.shortest_path, nx.bidirectional_shortest_path.
  destruct (nx.has_node G source) eqn:Hs; [ | done ].
  destruct (nx.has_node G target) eqn:Ht; [ | done ].
  cbn [negb orb]. unfold nx._bidirectional_pred_succ.
  rewrite decide_False by congruence.
  destruct (nx.search _ G _ _ _ _) as [[[pred succ] w]|] eqn:Hsearch; [ | done ].
  cbn [bind].
  apply search_ok with (source := source) (target := target) in Hsearch
    as (Hpred & Hsucc & Hwp & Hws & Honly).
  2, 3: apply search_tree_root.
  2, 3: intros y Hy; exact Hy.
  2: { intros y Hy Hy'. apply list_elem_of_singleton in Hy, Hy'.
       simpl in Hy, Hy'. congruence. }
  destruct (search_tree_walk _ _ _ Hpred w Hwp) as (ps & Hwalk_s & Hlast_s & Hnd_s & Hin_s & Hlink_s).
  destruct (search_tree_walk _ _ _ Hsucc w Hws) as (pt & Hwalk_t & Hlast_t & Hnd_t & Hin_t & Hlink_t).
  rewrite Hwalk_s by (by apply chain_length). cbn [bind].
  specialize (Hwalk_t (S (length succ))
                ltac:(pose proof (chain_length succ (w :: pt) Hnd_t Hin_t); lia)).
  cbn [nx.walk] in Hwalk_t.
  destruct (Dict.index w succ) as [next|]; [ | done ]. cbn [bind] in Hwalk_t |- *.
  destruct (nx.walk (length succ) succ next) as [rest|]; [ | done ].
  cbn [bind] in Hwalk_t |- *. injection Hwalk_t as ->.
  intros [= <-].
  apply linked_reverse in Hlink_t; [ | done ].
  split_conj.
  - rewrite head_app, head_reverse, Hlast_s. done.
  - rewrite reverse_cons, <- app_assoc. exact (eq_trans (last_app_cons _ _ _) Hlast_t).
  - apply NoDup_app. split_conj.
    + by rewrite reverse_Permutation.
    + intros y Hy Hy'. rewrite elem_of_reverse in Hy.
      assert (y = w) as -> by (apply Honly; [ by apply Hin_s | apply Hin_t; by right ]).
      apply NoDup_cons in Hnd_t as [Hnd_t _]. done.
    + by apply NoDup_cons in Hnd_t as [_ ?].
  - apply linked_app; [ done | | ].
    + destruct pt; [ done | apply Hlink_t ].
    + intros a b Ha Hb. rewrite last_reverse in Ha. injection Ha as <-.
      destruct pt as [|b' pt]; [ done | ]. injection Hb as <-. apply Hlink_t.
  - intros y Hy. apply elem_of_app in Hy as [Hy|Hy].
    + rewrite elem_of_reverse in Hy.
      apply (search_tree_nodes G source pred); try done. by apply Hin_s.
    + apply (search_tree_nodes G target succ); try done. apply Hin_t. by right.
Qed.

(** For equal endpoints the search returns the one-node path. *)
Lemma shortest_path_same (G : Graph) (n : string) :
  nx.has_node G n = true -> nx.shortest_path G n n = Ok [n].
Proof.
  intros Hn. unfold nx.shortest_path, nx.bidirectional_shortest_path.
  rewrite Hn. cbn [negb orb]. unfold nx._bidirectional_pred_succ.
  rewrite decide_True by done. cbn [bind length].
  cbn [nx.walk]. unfold Dict.index. cbn [Dict.get].
  rewrite decide_True by done. done.
Qed.

Lemma validate_path_intro (self : PathToFlow) (p : list string) :
  2 <= length p ->
  (forall n, n ∈ p -> nx.has_node (graph (topology_graph self)) n = true) ->
  linked (graph (topology_graph self)) p ->
  NoDup p ->
  validate_path self p = (true, "Valid path").
Proof.
  intros Hlen Hnodes Hlink Hnd. unfold validate_path.
  destruct (Nat.ltb_spec (length p) 2) as [|_]; [ lia | ].
  destruct (List.find _ p) as [n|] eqn:Hfind.
  { apply find_some in Hfind as [Hin Hn]. apply list_elem_of_In in Hin.
    rewrite (Hnodes n Hin) in Hn. done. }
  destruct (List.find _ (zip p (List.tl p))) as [[a b]|] eqn:Hfind'.
  { apply find_some in Hfind' as [Hin He]. apply list_elem_of_In in Hin.
    rewrite (linked_zip _ _ Hlink _ Hin) in He. done. }
  rewrite decide_False; [ done | ].
  intros Hc. apply Hc. by apply size_list_to_set.
Qed.

(** What [find_path] returns, case by case. *)
Lemma find_path_cases (tg : TopologyGraph) (src dst algorithm : string) :
  find_path tg src dst algorithm = []
  \/ (nx.has_node (graph tg) src = true /\ nx.has_node (graph tg) dst = true
      /\ nx.shortest_path (graph tg) src dst = Ok (find_path tg src dst algorithm)).
Proof.
  unfold find_path, try_except.
  destruct (nx.has_node (graph tg) src) eqn:Hs; [ | by left ].
  destruct (nx.has_node (graph tg) dst) eqn:Hd; [ | by left ].
  cbn [negb orb]. destruct (decide _); [ | by left ].
  destruct (nx.shortest_path (graph tg) src dst) as [p|[]]; try by left.
  right. done.
Qed.

(** ** C5: paths returned by [find_path] are valid *)

(** C5, as stated, fails for equal endpoints: [find_path(n, n)] is the
    non-empty path [n], which [validate_path] rejects as too short. *)
Lemma C5_same_endpoints_counterexample :
  let tg := discovered node_lines_dump in
  find_path tg "h1" "h1" "dijkstra" = ["h1"]
  /\ validate_path (PathToFlow_init tg) (find_path tg "h1" "h1" "dijkstra")
     = (false, "Path must have at least 2 nodes")
  /\ ~ (find_path tg "h1" "h1" "dijkstra" <> [] ->
        (validate_path (PathToFlow_init tg) (find_path tg "h1" "h1" "dijkstra")).1 = true).
Proof.
  split_conj; try (vm_compute; reflexivity).
  intros H.
  assert (Hne : find_path (discovered node_lines_dump) "h1" "h1" "dijkstra" <> [])
    by (vm_compute; discriminate).
  specialize (H Hne). vm_compute in H. discriminate H.
Qed.

(** C5, amended: for every pair of distinct node ids src, dst, any
    non-empty path returned by find_path(src, dst) passes validate_path
    with valid = true; it leads from src to dst. *)
Theorem C5_find_path_validates (self : PathToFlow) (src dst algorithm : string) :
  graph_wf (graph (topology_graph self)) ->
  src <> dst ->
  find_path (topology_graph self) src dst algorithm <> [] ->
  validate_path self (find_path (topology_graph self) src dst algorithm)
  = (true, "Valid path")
  /\ head (find_path (topology_graph self) src dst algorithm) = Some src
  /\ last (find_path (topology_graph self) src dst algorithm) = Some dst.
Proof.
  intros Hwf Hne Hpath.
  destruct (find_path_cases (topology_graph self) src dst algorithm)
    as [Hnil | (_ & _ & Hsp)]; [ done | ].
  apply shortest_path_sound in Hsp as (Hhd & Hlast & Hnd & Hlink & Hnodes); try done.
  split_conj; try done.
  apply validate_path_intro; try done.
  destruct (find_path (topology_graph self) src dst algorithm) as [|a [|b p]];
    [ done | | simpl; lia ].
  simpl in Hhd, Hlast. congruence.
Qed.

Lemma C5_find_path_validates_witness :
  let self := PathToFlow_init (discovered node_lines_dump) in
  graph_wf (graph (topology_graph self))
  /\ "h1" <> "h2"
  /\ find_path (topology_graph self) "h1" "h2" "dijkstra" = ["h1"; "s1"; "h2"]
  /\ validate_path self (find_path (topology_graph self) "h1" "h2" "dijkstra")
     = (true, "Valid path").
Proof.
  cbv zeta.
  assert (Hwf : graph_wf (graph (topology_graph
                   (PathToFlow_init (discovered node_lines_dump)))))
    by apply graph_wf_discovered.
  assert (Hne : "h1" <> "h2") by discriminate.
  assert (Hp : find_path (topology_graph (PathToFlow_init (discovered node_lines_dump)))
                 "h1" "h2" "dijkstra" = ["h1"; "s1"; "h2"])
    by (vm_compute; reflexivity).
  split_conj; try assumption.
  refine (proj1 (C5_find_path_validates
            (PathToFlow_init (discovered node_lines_dump)) "h1" "h2" "dijkstra"
            Hwf Hne _)).
  rewrite Hp. discriminate.
Defined.

(** ** C6: symmetry of the port-pair lookup *)

(** C6, as stated, fails for an edge from a node to itself: both query
    orders are the same query, and its answer is not its own reverse. *)
Lemma C6_self_loop_counterexample :
  let tg := discovered self_loop_dump in
  let self := PathToFlow_init tg in
  nx.has_edge (graph tg) "s1" "s1" = true
  /\ get_port_pair_from_raw_links tg "s1" "s1" = (PyInt 2, PyInt 1)
  /\ _get_port_pair self "s1" "s1" = Some (PyInt 2, PyInt 1)
  /\ ~ (get_port_pair_from_raw_links tg "s1" "s1"
        = swap_ports (get_port_pair_from_raw_links tg "s1" "s1")).
Proof.
  split_conj; try (vm_compute; reflexivity).
  intros H. vm_compute in H. discriminate H.
Qed.

Lemma scan_raw_links_swap (ls : list Link) (a b : string) :
  a <> b ->
  scan_raw_links ls b a = swap_ports <$> scan_raw_links ls a b.
Proof.
  intros Hne. induction ls as [|link ls IH]; [ done | ].
  cbn [scan_raw_links].
  destruct (decide (source link = a /\ target link = b)) as [[Hs Ht]|H1].
  - rewrite decide_False by (intros [? _]; congruence). done.
  - destruct (decide (source link = b /\ target link = a)) as [H2|H2]; [ done | ].
    exact IH.
Qed.

Lemma scan_raw_links_joins (ls : list Link) (a b : string) :
  (exists link, link ∈ ls /\ joins link a b) ->
  exists pa pb, scan_raw_links ls a b = Some (PyInt pa, PyInt pb).
Proof.
  intros (link & Hin & Hj). induction ls as [|l ls IH]; [ by apply elem_of_nil in Hin | ].
  cbn [scan_raw_links].
  destruct (decide (source l = a /\ target l = b)); [ eauto | ].
  destruct (decide (source l = b /\ target l = a)); [ eauto | ].
  apply IH. apply elem_of_cons in Hin as [->|Hin]; [ | done ].
  destruct Hj; contradiction.
Qed.

Lemma has_edge_foldl_add_node {A} (name : A -> string) (attr : A -> dict pyval)
    (l : list A) (G : Graph) (a b : string) :
  graph_wf G ->
  nx.has_edge (foldl (λ G x, nx.add_node (name x) (attr x) G) G l) a b
  = nx.has_edge G a b.
Proof.
  revert G. induction l as [|x l IH]; intros G Hwf; [ done | ].
  simpl. rewrite IH by (by apply graph_wf_add_node). by apply has_edge_add_node.
Qed.

Lemma has_edge_foldl_add_edge (attr : Link -> dict pyval) (ls : list Link)
    (G : Graph) (a b : string) :
  graph_wf G ->
  nx.has_edge (foldl (λ G link, nx.add_edge (source link) (target link) (attr link) G)
                 G ls) a b = true ->
  nx.has_edge G a b = true \/ exists link, link ∈ ls /\ joins link a b.
Proof.
  revert G. induction ls as [|l ls IH]; intros G Hwf H; [ by left | ].
  simpl in H. apply IH in H as [H | (link & Hin & Hj)];
    [ | right; exists link; split; [ by right | done ] | by apply graph_wf_add_edge ].
  rewrite has_edge_add_edge in H by done.
  apply orb_true_iff in H as [H | H]; [ apply orb_true_iff in H as [H | H] | ].
  - by left.
  - apply bool_decide_eq_true in H as [-> ->]. right. exists l.
    split; [ left | by left ].
  - apply bool_decide_eq_true in H as [-> ->]. right. exists l.
    split; [ left | by right ].
Qed.

(** After a successful round of discovery, the graph has the edges of the
    raw link records and no other. *)
Lemma discovered_edge_has_raw_link (net_output : string) (tg : TopologyGraph)
    (a b : string) :
  (extract_topology_round net_output tg).1 = true ->
  nx.has_edge (graph (extract_topology_round net_output tg).2) a b = true ->
  exists link, link ∈ raw_links (extract_topology_round net_output tg).2
               /\ joins link a b.
Proof.
  unfold extract_topology_round.
  destruct (decide _); [ done | ].
  destruct (switches (_parse_net_output net_output)) as [|sw sws] eqn:Hsw; [ done | ].
  intros _. cbn [snd].
  unfold _build_complete_graph.
  match goal with
  | |- context [_build_port_mapping ?t] =>
      rewrite (graph_build_port_mapping t);
      assert (Hraw : raw_links (_build_port_mapping t)
                     = links (_parse_net_output net_output))
        by (unfold _build_port_mapping; destruct (port_mapping_body _); done)
  end.
  rewrite Hraw. cbn [graph]. intros H.
  apply has_edge_foldl_add_edge in H as [H | H]; [ | done | ].
  - rewrite !has_edge_foldl_add_node in H; [ done | apply graph_wf_empty | ].
    apply graph_wf_foldl; [ intros; by apply graph_wf_add_node | apply graph_wf_empty ].
  - apply graph_wf_foldl; [ intros; by apply graph_wf_add_node | ].
    apply graph_wf_foldl; [ intros; by apply graph_wf_add_node | apply graph_wf_empty ].
Qed.

(** C6, amended: for every edge (a, b) with a and b distinct in a
    discovered topology, the port-pair lookup is answered from the raw
    link records, and the pair returned for query order (a, b) is the
    componentwise reverse of the pair returned for query order (b, a). *)
Theorem C6_port_pair_symmetry (net_output : string) (tg0 : TopologyGraph)
    (flows : gmap string (list FlowRule)) (a b : string) :
  let tg := (extract_topology_round net_output tg0).2 in
  let self := mkPathToFlow tg flows in
  (extract_topology_round net_output tg0).1 = true ->
  a <> b ->
  nx.has_edge (graph tg) a b = true ->
  exists pa pb,
    get_port_pair_from_raw_links tg a b = (PyInt pa, PyInt pb)
    /\ get_port_pair_from_raw_links tg b a = (PyInt pb, PyInt pa)
    /\ _get_port_pair self a b = Some (PyInt pa, PyInt pb)
    /\ _get_port_pair self b a = Some (PyInt pb, PyInt pa)
    /\ get_port_pair_from_raw_links tg a b
       = swap_ports (get_port_pair_from_raw_links tg b a).
Proof.
  cbv zeta. intros Hok Hne Hedge.
  destruct (discovered_edge_has_raw_link _ _ _ _ Hok Hedge) as (link & Hin & Hj).
  set (tg := (extract_topology_round net_output tg0).2) in *.
  destruct (scan_raw_links_joins (raw_links tg) a b) as (pa & pb & Hab); [ eauto | ].
  pose proof (scan_raw_links_swap (raw_links tg) a b Hne) as Hba.
  rewrite Hab in Hba. cbn in Hba.
  assert (Hraw_ab : get_port_pair_from_raw_links tg a b = (PyInt pa, PyInt pb)).
  { unfold get_port_pair_from_raw_links. rewrite Hab.
    destruct (raw_links tg); [ by apply elem_of_nil in Hin | done ]. }
  assert (Hraw_ba : get_port_pair_from_raw_links tg b a = (PyInt pb, PyInt pa)).
  { unfold get_port_pair_from_raw_links. rewrite Hba.
    destruct (raw_links tg); [ by apply elem_of_nil in Hin | done ]. }
  exists pa, pb. split_conj; try done.
  - unfold _get_port_pair. cbn [topology_graph]. rewrite Hraw_ab.
    rewrite decide_True by done. done.
  - unfold _get_port_pair. cbn [topology_graph]. rewrite Hraw_ba.
    rewrite decide_True by done. done.
  - by rewrite Hraw_ab, Hraw_ba.
Qed.

Lemma C6_port_pair_symmetry_witness :
  (extract_topology_round node_lines_dump TopologyGraph_init).1 = true
  /\ "s1" <> "h1"
  /\ nx.has_edge (graph (discovered node_lines_dump)) "s1" "h1" = true
  /\ exists pa pb,
       get_port_pair_from_raw_links (discovered node_lines_dump) "s1" "h1"
       = (PyInt pa, PyInt pb)
       /\ get_port_pair_from_raw_links (discovered node_lines_dump) "h1" "s1"
          = (PyInt pb, PyInt pa).
Proof.
  assert (H1 : (extract_topology_round node_lines_dump TopologyGraph_init).1 = true)
    by (vm_compute; reflexivity).
  assert (H2 : "s1" <> "h1") by discriminate.
  assert (H3 : nx.has_edge (graph (discovered node_lines_dump)) "s1" "h1" = true)
    by (vm_compute; reflexivity).
  split_conj; try assumption.
  destruct (C6_port_pair_symmetry node_lines_dump TopologyGraph_init ∅ "s1" "h1" H1 H2 H3)
    as (pa & pb & Hab & Hba & _).
  exists pa, pb. split; assumption.
Defined.

(** The fallback of [_get_port_pair] on the graph reads [has_edge] as if it
    were directed: on an undirected graph its first test succeeds for both
    query orders, and with no raw link record the same pair is returned
    either way. *)
Lemma graph_fallback_same_both_ways (self : PathToFlow) (a b : string) :
  graph_wf (graph (topology_graph self)) ->
  raw_links (topology_graph self) = [] ->
  nx.has_edge (graph (topology_graph self)) a b = true ->
  exists e_ab e_ba,
    nx.edge_data (graph (topology_graph self)) a b = Ok e_ab
    /\ nx.edge_data (graph (topology_graph self)) b a = Ok e_ba
    /\ _get_port_pair self a b
       = Some (Dict.get_default "source_port" (PyInt 1) e_ab,
               Dict.get_default "target_port" (PyInt 1) e_ab)
    /\ _get_port_pair self b a
       = Some (Dict.get_default "source_port" (PyInt 1) e_ba,
               Dict.get_default "target_port" (PyInt 1) e_ba).
Proof.
  intros Hwf Hraw Hab.
  assert (Hba : nx.has_edge (graph (topology_graph self)) b a = true)
    by (by apply Hwf in Hab as (_ & _ & ?)).
  assert (Hdata : forall u v, nx.has_edge (graph (topology_graph self)) u v = true ->
            exists e, nx.edge_data (graph (topology_graph self)) u v = Ok e).
  { intros u v. unfold nx.has_edge, nx.edge_data, Dict.index, Dict.mem.
    destruct (Dict.get u _) as [nbrs|]; [ | done ]. cbn [bind].
    destruct (Dict.get v nbrs); [ eauto | done ]. }
  destruct (Hdata a b Hab) as [e_ab Eab]. destruct (Hdata b a Hba) as [e_ba Eba].
  exists e_ab, e_ba. split_conj; try done.
  - unfold _get_port_pair, get_port_pair_from_raw_links. rewrite Hraw.
    rewrite decide_False by (by intros [? _]).
    rewrite Hab, Eab. done.
  - unfold _get_port_pair, get_port_pair_from_raw_links. rewrite Hraw.
    rewrite decide_False by (by intros [? _]).
    rewrite Hba, Eba. done.
Qed.

(** ** C7: the raw link list *)

Lemma prefix_append (p s t : string) :
  String.prefix p s = true -> String.prefix p (s +:+ t) = true.
Proof.
  revert s. induction p as [|c p IH]; intros s H; [ by destruct (s +:+ t) | ].
  destruct s as [|d s]; [ done | ]. simpl in *.
  destruct (ascii_dec c d); [ by apply IH | done ].
Qed.

Lemma prefix_literal (p s : string) : String.prefix p (p +:+ s) = true.
Proof.
  induction p as [|c p IH]; [ by destruct s | ].
  change (String c p +:+ s) with (String c (p +:+ s)). cbn [String.prefix].
  destruct (ascii_dec c c); done.
Qed.

Lemma contains_prefix (sub s : string) :
  String.prefix sub s = true -> PyStr.contains sub s = true.
Proof. intros H. destruct s; cbn [PyStr.contains]; by rewrite H. Qed.

Lemma contains_append_l (sub s t : string) :
  PyStr.contains sub s = true -> PyStr.contains sub (s +:+ t) = true.
Proof.
  induction s as [|c s IH]; intros H.
  - simpl in H. rewrite orb_false_r in H.
    destruct sub; [ by destruct t | done ].
  - change (String c s +:+ t) with (String c (s +:+ t)).
    change (PyStr.contains sub (String c (s +:+ t)))
      with (String.prefix sub (String c (s +:+ t)) || PyStr.contains sub (s +:+ t)).
    change (PyStr.contains sub (String c s))
      with (String.prefix sub (String c s) || PyStr.contains sub s) in H.
    apply orb_true_iff in H as [H|H]; apply orb_true_iff.
    + left. by apply (prefix_append _ (String c s)).
    + right. by apply IH.
Qed.

Lemma contains_append_r (sub s t : string) :
  PyStr.contains sub t = true -> PyStr.contains sub (s +:+ t) = true.
Proof.
  intros H. induction s as [|c s IH]; [ done | ].
  change (String c s +:+ t) with (String c (s +:+ t)).
  change (PyStr.contains sub (String c (s +:+ t)))
    with (String.prefix sub (String c (s +:+ t)) || PyStr.contains sub (s +:+ t)).
  rewrite IH. apply orb_true_r.
Qed.

Lemma partition_Some (sep : ascii) (s l r : string) :
  PyStr.partition sep s = Some (l, r) -> s = l +:+ String sep r.
Proof.
  revert l. induction s as [|c s IH]; intros l; [ done | ].
  cbn [PyStr.partition]. destruct (Ascii.eqb_spec c sep) as [->|Hne].
  - by intros [= <- <-].
  - destruct (PyStr.partition sep s) as [[a b]|]; [ | done ].
    intros [= <- <-].
    change (String c a +:+ String sep b) with (String c (a +:+ String sep b)).
    f_equal. by apply IH.
Qed.

Lemma span_append (p : ascii -> bool) (s a b : string) :
  PyStr.span p s = (a, b) -> s = a +:+ b /\ PyStr.all p a = true.
Proof.
  revert a. induction s as [|c s IH]; intros a.
  - by intros [= <- <-].
  - cbn [PyStr.span]. destruct (p c) eqn:Hc.
    + destruct (PyStr.span p s) as [a' b']. intros [= <- <-].
      destruct (IH a' eq_refl) as [-> Hall]. split; [ done | ].
      simpl. by rewrite Hc.
    + by intros [= <- <-].
Qed.

Lemma drop_prefix_Some (p s d : string) :
  PyStr.drop_prefix p s = Some d -> s = p +:+ d.
Proof.
  revert s. induction p as [|c p IH]; intros s; [ by intros [= <-] | ].
  destruct s as [|c' s]; [ done | ]. cbn [PyStr.drop_prefix].
  destruct (Ascii.eqb_spec c c') as [<-|]; [ | done ].
  intros H. change (String c p +:+ d) with (String c (p +:+ d)).
  f_equal. by apply IH.
Qed.

(** What the pattern [^(\w+)-eth(\d+)$] matches. *)
Lemma re_match_port_Some (s w d : string) :
  re_match_port s = Some (w, d) ->
  s = w +:+ "-eth" +:+ d
  /\ w <> "" /\ PyStr.all PyStr.isword w = true
  /\ d <> "" /\ PyStr.all PyStr.isdigit d = true.
Proof.
  unfold re_match_port.
  destruct (PyStr.span PyStr.isword s) as [w' rest] eqn:Hspan.
  apply span_append in Hspan as [-> Hw].
  destruct w' as [|c w']; [ done | ].
  destruct (PyStr.drop_prefix "-eth" rest) as [[|c5 ds]|] eqn:Hrest; try done.
  apply drop_prefix_Some in Hrest as ->.
  destruct (PyStr.all PyStr.isdigit (String c5 ds)) eqn:Hd; [ | done ].
  intros [= <- <-]. done.
Qed.

(** A field that describes a link has the form of a token, and the record
    keeps each port with its node. *)
Lemma token_record_reads (part : string) (r : Link) :
  token_record part = Some r ->
  exists a n b m,
    part = (a +:+ "-eth" +:+ n) +:+ ":" +:+ (b +:+ "-eth" +:+ m)
    /\ a <> "" /\ PyStr.all PyStr.isword a = true
    /\ n <> "" /\ PyStr.all PyStr.isdigit n = true
    /\ b <> "" /\ PyStr.all PyStr.isword b = true
    /\ m <> "" /\ PyStr.all PyStr.isdigit m = true
    /\ (r = mkLink a b (PyStr.digits_value 0 n) (PyStr.digits_value 0 m)
        \/ r = mkLink b a (PyStr.digits_value 0 m) (PyStr.digits_value 0 n)).
Proof.
  unfold token_record.
  destruct (PyStr.partition ":" part) as [[l rr]|] eqn:Hpart; [ | done ].
  apply partition_Some in Hpart.
  destruct (re_match_port l) as [[a n]|] eqn:Hl; [ | done ].
  destruct (re_match_port rr) as [[b m]|] eqn:Hr; [ | done ].
  apply re_match_port_Some in Hl as (-> & ? & ? & ? & ?).
  apply re_match_port_Some in Hr as (-> & ? & ? & ? & ?).
  intros [= <-]. exists a, n, b, m. split_conj; try done.
  destruct (PyStr.lt a b); [ by left | by right ].
Qed.

Lemma token_record_contains (part : string) (r : Link) :
  token_record part = Some r ->
  PyStr.contains ":" part && PyStr.contains "eth" part = true.
Proof.
  intros H. apply token_record_reads in H as (a & n & b & m & -> & _).
  apply andb_true_iff. split.
  - apply contains_append_r, contains_prefix, prefix_literal.
  - apply contains_append_l, contains_append_r.
    apply (contains_append_r "eth" "-" ("eth" +:+ n)), contains_prefix, prefix_literal.
Qed.

Lemma le_of_lt (a b : string) : PyStr.lt a b = true -> PyStr.le a b = true.
Proof. unfold PyStr.lt, PyStr.le. by destruct (a ?= b)%string. Qed.

Lemma le_of_not_lt (a b : string) : PyStr.lt a b = false -> PyStr.le b a = true.
Proof.
  unfold PyStr.lt, PyStr.le. rewrite (String.compare_antisym a b).
  by destruct (b ?= a)%string.
Qed.

Lemma le_antisym (a b : string) :
  PyStr.le a b = true -> PyStr.le b a = true -> a = b.
Proof.
  unfold PyStr.le. rewrite (String.compare_antisym a b).
  destruct (b ?= a)%string eqn:E; try done.
  intros _ _. symmetry. by apply String.compare_eq_iff.
Qed.

(** The smaller node id is the source. *)
Lemma token_record_ordered (part : string) (r : Link) :
  token_record part = Some r -> PyStr.le (source r) (target r) = true.
Proof.
  unfold token_record.
  destruct (PyStr.partition ":" part) as [[l rr]|]; [ | done ].
  destruct (re_match_port l) as [[a n]|]; [ | done ].
  destruct (re_match_port rr) as [[b m]|]; [ | done ].
  intros [= <-]. destruct (PyStr.lt a b) eqn:E; simpl.
  - by apply le_of_lt.
  - by apply le_of_not_lt.
Qed.

Lemma same_pair_key (r1 r2 : Link) :
  PyStr.le (source r1) (target r1) = true ->
  PyStr.le (source r2) (target r2) = true ->
  same_pair r1 r2 <-> (source r1, target r1) = (source r2, target r2).
Proof.
  intros H1 H2. unfold same_pair, joins. split.
  - intros [[-> ->] | [Hs Ht]]; [ done | ].
    rewrite Hs, Ht in *. by rewrite (le_antisym _ _ H1 H2).
  - intros [= -> ->]. by left.
Qed.

(** The inner loop appends the record of the field, if the field is a
    token. *)
Lemma parse_part_Ok (links links' : list Link) (part : string) :
  parse_part links part = Ok links' ->
  links' = links ++ option_list (token_record part).
Proof.
  unfold parse_part.
  destruct (PyStr.contains ":" part && PyStr.contains "eth" part) eqn:Hc.
  - unfold token_record.
    destruct (PyStr.partition ":" part) as [[l rr]|]; [ | done ].
    destruct (re_match_port l) as [[a n]|];
      [ | intros [= <-]; by rewrite app_nil_r ].
    unfold py_int.
    destruct (int_max_str_digits <? String.length n)%nat; [ done | ]. cbn [bind].
    destruct (re_match_port rr) as [[b m]|];
      [ | intros [= <-]; by rewrite app_nil_r ].
    destruct (int_max_str_digits <? String.length m)%nat; [ done | ]. cbn [bind].
    destruct (PyStr.lt a b); by intros [= <-].
  - intros [= <-]. destruct (token_record part) as [r|] eqn:E.
    + apply token_record_contains in E. congruence.
    + by rewrite app_nil_r.
Qed.

Lemma for_each_parse_part_Ok (parts : list string) (links links' : list Link) :
  for_each parse_part parts links = Ok links' ->
  links' = links ++ omap token_record parts.
Proof.
  revert links. induction parts as [|part parts IH]; intros links.
  - intros [= <-]. by rewrite app_nil_r.
  - cbn [for_each]. destruct (parse_part links part) as [links1|] eqn:E; [ | done ].
    cbn [bind]. intros H. apply IH in H as ->. apply parse_part_Ok in E as ->.
    rewrite <- app_assoc. f_equal. simpl. by destruct (token_record part).
Qed.

(** The outer loop, on one line. *)
Lemma parse_line_Ok (st st' : ParseState) (line : string) :
  parse_line st line = Ok st' ->
  ps_links st' = ps_links st ++ omap token_record (fields_of line)
  /\ ps_switches st'
     = match line_fields line with
       | Some (n, _) => if PyStr.startswith n "s" then set_add n (ps_switches st)
                        else ps_switches st
       | None => ps_switches st
       end
  /\ ps_hosts st'
     = match line_fields line with
       | Some (n, _) => if PyStr.startswith n "s" then ps_hosts st
                        else if PyStr.startswith n "h" then set_add n (ps_hosts st)
                        else ps_hosts st
       | None => ps_hosts st
       end.
Proof.
  unfold parse_line, fields_of, line_fields.
  destruct (decide _); [ intros [= <-]; by rewrite app_nil_r | ].
  destruct (PyStr.split (PyStr.strip line)) as [|node_name [|f rest]];
    try (intros [= <-]; by rewrite app_nil_r).
  destruct (decide _); [ intros [= <-]; by rewrite app_nil_r | ].
  destruct (for_each parse_part (f :: rest) (ps_links st)) as [ls|] eqn:E; [ | done ].
  cbn [bind]. intros [= <-]. cbn [ps_links ps_switches ps_hosts].
  by apply for_each_parse_part_Ok in E as ->.
Qed.

Lemma for_each_parse_line_links (lines : list string) (st st' : ParseState) :
  for_each parse_line lines st = Ok st' ->
  ps_links st' = ps_links st ++ omap token_record (lines ≫= fields_of).
Proof.
  revert st. induction lines as [|line lines IH]; intros st.
  - intros [= <-]. by rewrite app_nil_r.
  - cbn [for_each]. destruct (parse_line st line) as [st1|] eqn:E; [ | done ].
    cbn [bind]. intros H. apply IH in H as ->.
    apply parse_line_Ok in E as (-> & _ & _).
    by rewrite bind_cons, omap_app, app_assoc.
Qed.

Lemma unique_links_firsts (seen : gset (string * string)) (unique ls : list Link) :
  (foldl dedupe_step (seen, unique) ls).2 = unique ++ firsts seen ls.
Proof.
  revert seen unique. induction ls as [|link ls IH]; intros seen unique.
  - by rewrite app_nil_r.
  - cbn [foldl firsts]. unfold dedupe_step at 2. cbn [fst snd].
    destruct (decide _); [ apply IH | ].
    rewrite IH. by rewrite <- app_assoc.
Qed.

Lemma firsts_first (seen : gset (string * string)) (ls : list Link) (r : Link) :
  r ∈ firsts seen ls ->
  ((source r, target r) ∉ seen)
  /\ exists i, ls !! i = Some r
       /\ forall j r', j < i -> ls !! j = Some r' ->
            (source r', target r') <> (source r, target r).
Proof.
  revert seen. induction ls as [|link ls IH]; intros seen Hin;
    [ by apply elem_of_nil in Hin | ].
  cbn [firsts] in Hin. destruct (decide _) as [Hseen|Hnew].
  - destruct (IH _ Hin) as (Hr & i & Hi & Hbefore). split; [ done | ].
    exists (S i). split; [ done | ].
    intros [|j] r' Hj Hr'.
    + injection Hr' as <-. intros Heq. rewrite Heq in Hseen. done.
    + apply (Hbefore j); [ lia | done ].
  - apply elem_of_cons in Hin as [->|Hin].
    + split; [ done | ]. exists 0. split; [ done | ]. intros j r' Hj. lia.
    + destruct (IH _ Hin) as (Hr & i & Hi & Hbefore).
      apply not_elem_of_union in Hr as [Hr1 Hr2]. split; [ done | ].
      exists (S i). split; [ done | ].
      intros [|j] r' Hj Hr'.
      * injection Hr' as <-. intros Heq. apply Hr1. rewrite Heq.
        by apply elem_of_singleton.
      * apply (Hbefore j); [ lia | done ].
Qed.

Lemma firsts_NoDup (seen : gset (string * string)) (ls : list Link) :
  NoDup ((λ r, (source r, target r)) <$> firsts seen ls).
Proof.
  revert seen. induction ls as [|link ls IH]; intros seen; [ constructor | ].
  cbn [firsts]. destruct (decide _); [ apply IH | ].
  rewrite fmap_cons. apply NoDup_cons. split; [ | apply IH ].
  intros Hin. apply list_elem_of_fmap in Hin as (r & Hkey & Hr).
  apply firsts_first in Hr as (Hr & _). apply Hr. rewrite <- Hkey.
  apply elem_of_union. left. by apply elem_of_singleton.
Qed.

Lemma firsts_complete (seen : gset (string * string)) (ls : list Link) (r : Link) :
  r ∈ ls ->
  (source r, target r) ∈ seen
  \/ exists r', r' ∈ firsts seen ls /\ (source r', target r') = (source r, target r).
Proof.
  revert seen. induction ls as [|link ls IH]; intros seen Hin;
    [ by apply elem_of_nil in Hin | ].
  cbn [firsts]. destruct (decide _) as [Hseen|Hnew].
  - apply elem_of_cons in Hin as [->|Hin]; [ by left | ].
    by apply IH.
  - apply elem_of_cons in Hin as [->|Hin].
    + right. exists link. split; [ left | done ].
    + destruct (IH ({[(source link, target link)]} ∪ seen) Hin)
        as [Hs | (r' & Hr' & Hkey)].
      * apply elem_of_union in Hs as [Hs|Hs]; [ | by left ].
        apply elem_of_singleton in Hs. right. exists link. split; [ left | done ].
      * right. exists r'. split; [ by right | done ].
Qed.

(** What the parser returns as links: the first record per key among the
    records the token fields describe; nothing when parsing raised. *)
Lemma links_parse_net_output (net_output : string) :
  links (_parse_net_output net_output)
  = match parse_body net_output with
    | Ok _ => firsts ∅ (omap token_record (token_fields net_output))
    | Raise _ => []
    end.
Proof.
  unfold _parse_net_output, parse_body, try_except.
  fold (dump_lines net_output).
  destruct (for_each parse_line (dump_lines net_output) (mkParse [] [] [])) as [st|] eqn:E;
    [ | done ].
  cbn [bind links]. unfold unique_links. rewrite unique_links_firsts.
  apply for_each_parse_line_links in E. cbn [ps_links] in E.
  rewrite E. done.
Qed.

Lemma described_ordered (net_output : string) (r : Link) :
  r ∈ omap token_record (token_fields net_output) ->
  PyStr.le (source r) (target r) = true
  /\ exists part, part ∈ token_fields net_output /\ token_record part = Some r.
Proof.
  intros Hin. apply list_elem_of_omap in Hin as (part & Hpart & Hrec).
  split; [ by apply (token_record_ordered part) | eauto ].
Qed.

(** C7: after parsing any adjacency dump text, the raw link list has at
    most one record per unordered node pair; every record has the
    lexicographically smaller node id as its source and comes from a token
    [a-ethN:b-ethM] of the dump with each port number kept with its node;
    and the record kept for a pair is that of the first token, in reading
    order, that describes the pair. Unless parsing raised, every pair a
    token describes has its record. *)
Theorem C7_raw_links_normalised (net_output : string) :
  let ls := links (_parse_net_output net_output) in
  let described := omap token_record (token_fields net_output) in
  (forall i j r1 r2, ls !! i = Some r1 -> ls !! j = Some r2 -> same_pair r1 r2 -> i = j)
  /\ (forall r, r ∈ ls -> PyStr.le (source r) (target r) = true)
  /\ (forall r, r ∈ ls ->
        exists a n b m,
          (a +:+ "-eth" +:+ n) +:+ ":" +:+ (b +:+ "-eth" +:+ m) ∈ token_fields net_output
          /\ (r = mkLink a b (PyStr.digits_value 0 n) (PyStr.digits_value 0 m)
              \/ r = mkLink b a (PyStr.digits_value 0 m) (PyStr.digits_value 0 n)))
  /\ (forall r, r ∈ ls ->
        exists i, described !! i = Some r
          /\ forall j r', j < i -> described !! j = Some r' -> ~ same_pair r' r)
  /\ (forall info, parse_body net_output = Ok info ->
        forall r, r ∈ described -> exists r', r' ∈ ls /\ same_pair r' r).
Proof.
  cbv zeta. rewrite links_parse_net_output.
  set (described := omap token_record (token_fields net_output)).
  destruct (parse_body net_output) as [info0|e].
  2: { split_conj; try (intros r Hr; by apply elem_of_nil in Hr); [ | done ].
       intros i j r1 r2 Hi. by rewrite lookup_nil in Hi. }
  assert (Hsub : forall r, r ∈ firsts ∅ described -> r ∈ described).
  { intros r Hr. apply firsts_first in Hr as (_ & i & Hi & _).
    by apply list_elem_of_lookup_2 in Hi. }
  assert (Hord : forall r, r ∈ firsts ∅ described -> PyStr.le (source r) (target r) = true).
  { intros r Hr. by apply Hsub, described_ordered in Hr as [? _]. }
  split_conj.
  - intros i j r1 r2 Hi Hj Hsame.
    apply same_pair_key in Hsame;
      [ | by apply list_elem_of_lookup_2, Hord in Hi
        | by apply list_elem_of_lookup_2, Hord in Hj ].
    apply (NoDup_lookup _ i j (source r1, target r1) (firsts_NoDup ∅ described)).
    + by rewrite list_lookup_fmap, Hi.
    + by rewrite list_lookup_fmap, Hj, Hsame.
  - exact Hord.
  - intros r Hr. apply Hsub, described_ordered in Hr as (_ & part & Hpart & Hrec).
    apply token_record_reads in Hrec as (a & n & b & m & -> & _ & _ & _ & _ & _ & _ & _ & _ & Hr).
    exists a, n, b, m. done.
  - intros r Hr. pose proof (Hord r Hr) as Hle.
    apply firsts_first in Hr as (_ & i & Hi & Hbefore).
    exists i. split; [ done | ]. intros j r' Hj Hr' Hsame.
    apply same_pair_key in Hsame; [ by apply (Hbefore j r') | | done ].
    by apply list_elem_of_lookup_2, described_ordered in Hr' as [? _].
  - intros info _ r Hr.
    destruct (firsts_complete ∅ described r Hr) as [Hs | (r' & Hr' & Hkey)];
      [ by apply elem_of_empty in Hs | ].
    exists r'. split; [ done | ].
    apply same_pair_key; [ by apply Hord | by apply described_ordered in Hr as [? _] | done ].
Qed.

Lemma C7_raw_links_normalised_witness :
  links (_parse_net_output node_lines_dump)
  = [mkLink "h1" "s1" 0 1; mkLink "h2" "s1" 0 2]
  /\ omap token_record (token_fields node_lines_dump)
     = [mkLink "h1" "s1" 0 1; mkLink "h2" "s1" 0 2;
        mkLink "h1" "s1" 0 1; mkLink "h2" "s1" 0 2]
  /\ PyStr.le "h1" "s1" = true.
Proof.
  assert (H1 : links (_parse_net_output node_lines_dump)
               = [mkLink "h1" "s1" 0 1; mkLink "h2" "s1" 0 2])
    by (vm_compute; reflexivity).
  split_conj; [ exact H1 | vm_compute; reflexivity | ].
  refine (proj1 (proj2 (C7_raw_links_normalised node_lines_dump))
            (mkLink "h1" "s1" 0 1) _).
  rewrite H1. left.
Defined.

(** ** C9: node types *)

(** C9, as stated, fails: a node seen only as the peer inside a link token
    enters the graph through [add_edge], without attributes, and is
    reported with the type ['unknown']. *)
Lemma C9_peer_only_counterexample :
  let data := get_topology_data (discovered peer_only_dump) in
  td_nodes data = [mkNodeData "s1" (PyStr "switch") (PyStr "");
                   mkNodeData "h1" (PyStr "unknown") (PyStr "")]
  /\ ~ (forall nd, nd ∈ td_nodes data -> nd_type nd <> PyStr "unknown").
Proof.
  cbv zeta.
  assert (H : td_nodes (get_topology_data (discovered peer_only_dump))
              = [mkNodeData "s1" (PyStr "switch") (PyStr "");
                 mkNodeData "h1" (PyStr "unknown") (PyStr "")])
    by (vm_compute; reflexivity).
  split; [ exact H | ]. rewrite H. intros Hall.
  apply (Hall (mkNodeData "h1" (PyStr "unknown") (PyStr ""))); [ | done ].
  right. left.
Qed.

Lemma for_each_collect {A B C} (f : A -> result B) (h : A -> B) (g : A -> B -> C)
    (l : list A) (acc : list C) :
  (forall x, x ∈ l -> f x = Ok (h x)) ->
  for_each (λ acc x, v <- f x;; Ok (acc ++ [g x v])) l acc
  = Ok (acc ++ ((λ x, g x (h x)) <$> l)).
Proof.
  revert acc. induction l as [|x l IH]; intros acc Hf.
  - by rewrite app_nil_r.
  - cbn [for_each]. rewrite (Hf x) by left. cbn [bind].
    rewrite IH by (intros; apply Hf; by right).
    by rewrite fmap_cons, <- app_assoc.
Qed.

Lemma index_node_attrs (G : Graph) (n : string) :
  n ∈ nx.nodes G -> Dict.index n (_node G) = Ok (node_attrs G n).
Proof.
  unfold nx.nodes, Dict.index, node_attrs, Dict.get_default. intros Hn.
  destruct (Dict.get n (_node G)) eqn:E; [ done | ].
  apply Dict_get_None in E. done.
Qed.

Lemma edge_data_edge_attrs (G : Graph) (u v : string) :
  v ∈ nx.neighbors G u -> nx.edge_data G u v = Ok (edge_attrs G u v).
Proof.
  unfold nx.neighbors, nx.edge_data, edge_attrs, nx.adj, Dict.index, Dict.get_default.
  destruct (Dict.get u (_adj G)) as [nbrs|]; [ | intros H; by apply elem_of_nil in H ].
  cbn [bind]. intros Hv. destruct (Dict.get v nbrs) eqn:E; [ done | ].
  apply Dict_get_None in E. done.
Qed.

Lemma edges_neighbors (G : Graph) (e : string * string) :
  e ∈ nx.edges G -> e.2 ∈ nx.neighbors G e.1.
Proof.
  unfold nx.edges.
  assert (Hgen : forall ns (acc : list string * list (string * string)),
            (forall e, e ∈ acc.2 -> e.2 ∈ nx.neighbors G e.1) ->
            forall e, e ∈ (foldl (λ (acc : list string * list (string * string)) n,
                             (acc.1 ++ [n],
                              acc.2 ++ ((λ nbr, (n, nbr)) <$>
                                List.filter (λ nbr, bool_decide (nbr ∉ acc.1))
                                  (nx.neighbors G n)))) acc ns).2 ->
                      e.2 ∈ nx.neighbors G e.1).
  { induction ns as [|n ns IH]; intros acc Hacc e0; [ apply Hacc | ].
    cbn [foldl]. apply IH. cbn [fst snd]. intros e1 He1.
    apply elem_of_app in He1 as [He1|He1]; [ by apply Hacc | ].
    apply list_elem_of_fmap in He1 as (nbr & -> & Hnbr). cbn [fst snd].
    apply list_elem_of_In, filter_In in Hnbr as [Hnbr _].
    by apply list_elem_of_In. }
  apply Hgen. intros e0 He0. by apply elem_of_nil in He0.
Qed.

(** [get_topology_data] lists every node of the graph with the type and
    address stored for it. *)
Lemma td_nodes_get_topology_data (tg : TopologyGraph) :
  td_nodes (get_topology_data tg)
  = (λ n, mkNodeData n (node_type (graph tg) n)
            (Dict.get_default "ip" (PyStr "") (node_attrs (graph tg) n)))
    <$> nx.nodes (graph tg).
Proof.
  unfold get_topology_data, try_except.
  rewrite (for_each_collect (λ node, Dict.index node (_node (graph tg)))
             (node_attrs (graph tg))
             (λ node node_data,
                mkNodeData node (Dict.get_default "type" (PyStr "unknown") node_data)
                  (Dict.get_default "ip" (PyStr "") node_data)))
    by (intros; by apply index_node_attrs).
  cbn [bind].
  rewrite (for_each_collect
             (λ edge : string * string, nx.edge_data (graph tg) edge.1 edge.2)
             (λ edge, edge_attrs (graph tg) edge.1 edge.2)
             (λ edge edge_data,
                mkEdgeData edge.1 edge.2
                  (Dict.get_default "source_port" (PyInt 1) edge_data)
                  (Dict.get_default "target_port" (PyInt 1) edge_data)))
    by (intros; by apply edge_data_edge_attrs, edges_neighbors).
  done.
Qed.

Lemma node_attrs_add_node (n m : string) (attr : dict pyval) (G : Graph) :
  node_attrs (nx.add_node n attr G) m
  = if decide (n = m) then Dict.update attr (node_attrs G n) else node_attrs G m.
Proof.
  unfold node_attrs, nx.add_node, Dict.get_default.
  destruct (Dict.get n (_node G)) eqn:E; cbn [_node]; rewrite Dict_get_set;
    destruct (decide (n = m)); done.
Qed.

Lemma node_attrs_touch_node (n m : string) (G : Graph) :
  node_attrs (nx.touch_node n G) m = node_attrs G m.
Proof.
  unfold node_attrs, nx.touch_node, nx.has_node, Dict.mem, Dict.get_default.
  destruct (Dict.get n (_node G)) eqn:E; [ done | ].
  cbn [_node]. rewrite Dict_get_set. destruct (decide (n = m)) as [<-|]; [ | done ].
  by rewrite E.
Qed.

Lemma node_attrs_add_edge (u v m : string) (attr : dict pyval) (G : Graph) :
  node_attrs (nx.add_edge u v attr G) m = node_attrs G m.
Proof.
  unfold nx.add_edge, node_attrs at 1. cbn [_node].
  fold (node_attrs (nx.touch_node v (nx.touch_node u G)) m).
  by rewrite !node_attrs_touch_node.
Qed.

Lemma type_after_update (T v : pyval) (k : string) (d : dict pyval) :
  k <> "type" ->
  Dict.get_default "type" (PyStr "unknown") (Dict.update [("type", T); (k, v)] d) = T.
Proof.
  intros Hk. unfold Dict.update, Dict.get_default. cbn [foldl fst snd].
  rewrite !Dict_get_set. rewrite decide_False by done. by rewrite decide_True.
Qed.

Lemma node_type_add_typed (T v : pyval) (k n m : string) (G : Graph) :
  k <> "type" ->
  node_type (nx.add_node n [("type", T); (k, v)] G) m
  = if decide (n = m) then T else node_type G m.
Proof.
  intros Hk. unfold node_type. rewrite node_attrs_add_node.
  destruct (decide (n = m)); [ by apply type_after_update | done ].
Qed.

Lemma node_type_foldl_add_typed {A} (T : pyval) (k : string) (name : A -> string)
    (val : A -> pyval) (l : list A) (G : Graph) (m : string) :
  k <> "type" ->
  node_type (foldl (λ G x, nx.add_node (name x) [("type", T); (k, val x)] G) G l) m
  = if decide (m ∈ name <$> l) then T else node_type G m.
Proof.
  intros Hk. revert G. induction l as [|x l IH]; intros G.
  - cbn [foldl]. rewrite decide_False; [ done | apply not_elem_of_nil ].
  - cbn [foldl]. rewrite IH, node_type_add_typed by done. rewrite fmap_cons.
    destruct (decide (m ∈ name <$> l)) as [Hin|Hnin].
    + rewrite decide_True; [ done | by right ].
    + destruct (decide (name x = m)) as [<-|Hne].
      * rewrite decide_True; [ done | left ].
      * rewrite decide_False; [ done | ].
        rewrite not_elem_of_cons. split; [ congruence | done ].
Qed.

Lemma node_type_foldl_add_edge (attr : Link -> dict pyval) (ls : list Link)
    (G : Graph) (m : string) :
  node_type (foldl (λ G link, nx.add_edge (source link) (target link) (attr link) G)
               G ls) m = node_type G m.
Proof.
  revert G. induction ls as [|l ls IH]; intros G; [ done | ].
  cbn [foldl]. rewrite IH. unfold node_type. by rewrite node_attrs_add_edge.
Qed.

(** The type of a node of the graph [_build_complete_graph] makes. *)
Lemma node_type_build_complete_graph (sws : list SwitchInfo) (hs : list HostInfo)
    (ls : list Link) (tg : TopologyGraph) (m : string) :
  node_type (graph (_build_complete_graph sws hs ls tg)) m
  = if decide (m ∈ host_name <$> hs) then PyStr "host"
    else if decide (m ∈ sw_name <$> sws) then PyStr "switch"
    else PyStr "unknown".
Proof.
  unfold _build_complete_graph. rewrite graph_build_port_mapping. cbn [graph].
  rewrite node_type_foldl_add_edge.
  rewrite (node_type_foldl_add_typed (PyStr "host") "ip" host_name
             (λ h, PyStr (host_ip h))) by done.
  rewrite (node_type_foldl_add_typed (PyStr "switch") "dpid" sw_name
             (λ s, PyStr (sw_dpid s))) by done.
  done.
Qed.

Lemma elem_of_insert_sorted (x y : string) (l : list string) :
  y ∈ PyStr.insert_sorted x l <-> y = x \/ y ∈ l.
Proof.
  induction l as [|z l IH]; cbn [PyStr.insert_sorted].
  - rewrite list_elem_of_singleton, elem_of_nil. tauto.
  - destruct (PyStr.le x z).
    + by rewrite elem_of_cons.
    + rewrite !elem_of_cons, IH. tauto.
Qed.

Lemma elem_of_sorted (y : string) (l : list string) : y ∈ PyStr.sorted l <-> y ∈ l.
Proof.
  unfold PyStr.sorted. induction l as [|x l IH]; [ done | ].
  cbn [foldr]. by rewrite elem_of_insert_sorted, elem_of_cons, IH.
Qed.

Lemma elem_of_set_add (x y : string) (s : list string) :
  y ∈ set_add x s <-> y = x \/ y ∈ s.
Proof.
  unfold set_add. destruct (decide (x ∈ s)) as [Hin|Hnin].
  - split; [ by right | ]. by intros [->|?].
  - rewrite elem_of_app, list_elem_of_singleton. tauto.
Qed.

(** The switch and host sets after the line loop: the heads of lines, by
    prefix. *)
Lemma for_each_parse_line_names (lines : list string) (st st' : ParseState) (m : string) :
  for_each parse_line lines st = Ok st' ->
  (m ∈ ps_switches st' <->
     m ∈ ps_switches st
     \/ (m ∈ omap (λ line, fst <$> line_fields line) lines
         /\ PyStr.startswith m "s" = true))
  /\ (m ∈ ps_hosts st' <->
        m ∈ ps_hosts st
        \/ (m ∈ omap (λ line, fst <$> line_fields line) lines
            /\ PyStr.startswith m "s" = false /\ PyStr.startswith m "h" = true)).
Proof.
  revert st. induction lines as [|line lines IH]; intros st.
  - intros [= <-]. cbn [omap list_omap]. setoid_rewrite elem_of_nil. tauto.
  - cbn [for_each]. destruct (parse_line st line) as [st1|] eqn:E; [ | done ].
    cbn [bind]. intros H. destruct (IH _ H) as [IHs IHh]. clear IH H.
    apply parse_line_Ok in E as (_ & Hsw & Hhs).
    rewrite IHs, IHh, Hsw, Hhs. clear IHs IHh Hsw Hhs.
    cbn [omap list_omap].
    destruct (line_fields line) as [[n rest]|]; cbn [fmap option_fmap option_map fst];
      [ | tauto ].
    setoid_rewrite elem_of_cons.
    destruct (PyStr.startswith n "s") eqn:Es.
    + rewrite elem_of_set_add. split; split; intros Hm.
      * destruct Hm as [[->|?]|[? ?]]; [ right; split; [ by left | done ] | by left | ].
        right. split; [ by right | done ].
      * destruct Hm as [?|[[->|?] ?]]; [ left; by right | left; by left | by right ].
      * destruct Hm as [?|(? & ? & ?)]; [ by left | ].
        right. split_conj; [ by right | done | done ].
      * destruct Hm as [?|([->|?] & ? & ?)]; [ by left | congruence | by right ].
    + destruct (PyStr.startswith n "h") eqn:Eh.
      * rewrite elem_of_set_add. split; split; intros Hm.
        -- destruct Hm as [?|[? ?]]; [ by left | ]. right. split; [ by right | done ].
        -- destruct Hm as [?|[[->|?] ?]]; [ by left | congruence | by right ].
        -- destruct Hm as [[->|?]|(? & ? & ?)];
             [ right; split_conj; [ by left | done | done ] | by left | ].
           right. split_conj; [ by right | done | done ].
        -- destruct Hm as [?|([->|?] & ? & ?)];
             [ left; by right | left; by left | by right ].
      * split; split; intros Hm.
        -- destruct Hm as [?|[? ?]]; [ by left | ]. right. split; [ by right | done ].
        -- destruct Hm as [?|[[->|?] ?]]; [ by left | congruence | by right ].
        -- destruct Hm as [?|(? & ? & ?)]; [ by left | ].
           right. split_conj; [ by right | done | done ].
        -- destruct Hm as [?|([->|?] & ? & ?)]; [ by left | congruence | by right ].
Qed.

(** The switch and host records of a parse that did not raise: the heads
    of lines, by prefix. *)
Lemma names_parse_net_output (net_output : string) (m : string) :
  switches (_parse_net_output net_output) <> [] ->
  (m ∈ sw_name <$> switches (_parse_net_output net_output) <->
     m ∈ line_heads net_output /\ PyStr.startswith m "s" = true)
  /\ (m ∈ host_name <$> hosts (_parse_net_output net_output) <->
        m ∈ line_heads net_output
        /\ PyStr.startswith m "s" = false /\ PyStr.startswith m "h" = true).
Proof.
  unfold _parse_net_output, parse_body, try_except, line_heads.
  fold (dump_lines net_output).
  destruct (for_each parse_line (dump_lines net_output) (mkParse [] [] [])) as [st|] eqn:E;
    [ | done ].
  cbn [bind switches hosts]. intros _.
  destruct (for_each_parse_line_names _ _ _ m E) as [Hs Hh]. cbn [ps_switches ps_hosts] in *.
  rewrite <- !list_fmap_compose.
  rewrite (list_fmap_ext _ id (PyStr.sorted (ps_switches st))) by done.
  rewrite (list_fmap_ext _ id (PyStr.sorted (ps_hosts st))) by done.
  rewrite !list_fmap_id, !elem_of_sorted, Hs, Hh.
  setoid_rewrite elem_of_nil. tauto.
Qed.

Lemma has_node_foldl_add_edge (attr : Link -> dict pyval) (ls : list Link)
    (G : Graph) (m : string) :
  nx.has_node G m = true \/ (exists link, link ∈ ls /\ (source link = m \/ target link = m)) ->
  nx.has_node (foldl (λ G link, nx.add_edge (source link) (target link) (attr link) G)
                 G ls) m = true.
Proof.
  revert G. induction ls as [|l ls IH]; intros G H.
  - destruct H as [H | (link & Hin & _)]; [ done | by apply elem_of_nil in Hin ].
  - cbn [foldl]. apply IH. rewrite has_node_add_edge.
    destruct H as [H | (link & Hin & Hm)].
    + left. by rewrite H.
    + apply elem_of_cons in Hin as [->|Hin]; [ | right; eauto ].
      left. destruct Hm as [<-|<-].
      * rewrite (bool_decide_eq_true_2 (source l = source l)) by done.
        by rewrite orb_true_r.
      * rewrite (bool_decide_eq_true_2 (target l = target l)) by done.
        by rewrite orb_true_r.
Qed.

Lemma raw_links_build_complete_graph (sws : list SwitchInfo) (hs : list HostInfo)
    (ls : list Link) (tg : TopologyGraph) :
  raw_links (_build_complete_graph sws hs ls tg) = raw_links tg.
Proof.
  unfold _build_complete_graph, _build_port_mapping.
  destruct (port_mapping_body _); done.
Qed.

(** C9, amended: in the built topology model, a node that heads a line of
    the dump (it is the first field of a line with at least two fields) is
    classified by its name prefix, 's' switch and 'h' host, and is reported
    as 'unknown' when it has neither prefix; a node observed only inside
    link tokens is a node of the model all the same, stored without a type
    and reported as 'unknown'. *)
Theorem C9_node_types (net_output : string) (tg0 : TopologyGraph) :
  let tg := (extract_topology_round net_output tg0).2 in
  let data := get_topology_data tg in
  (extract_topology_round net_output tg0).1 = true ->
  nd_id <$> td_nodes data = nx.nodes (graph tg)
  /\ (forall link, link ∈ raw_links tg ->
        source link ∈ nx.nodes (graph tg) /\ target link ∈ nx.nodes (graph tg))
  /\ (forall nd, nd ∈ td_nodes data ->
        nd_type nd
        = if decide (nd_id nd ∈ line_heads net_output) then
            if PyStr.startswith (nd_id nd) "s" then PyStr "switch"
            else if PyStr.startswith (nd_id nd) "h" then PyStr "host"
            else PyStr "unknown"
          else PyStr "unknown").
Proof.
  cbv zeta. rewrite td_nodes_get_topology_data.
  unfold extract_topology_round.
  destruct (decide _); [ done | ].
  destruct (switches (_parse_net_output net_output)) as [|sw sws] eqn:Hsw; [ done | ].
  intros _. cbn [snd]. rewrite <- Hsw.
  assert (Hne : switches (_parse_net_output net_output) <> []) by (by rewrite Hsw).
  clear Hsw sw sws.
  split_conj.
  - rewrite <- list_fmap_compose. rewrite (list_fmap_ext _ id) by done.
    apply list_fmap_id.
  - intros link Hin.
    rewrite raw_links_build_complete_graph in Hin. cbn [raw_links] in Hin.
    unfold _build_complete_graph. rewrite graph_build_port_mapping. cbn [graph].
    unfold nx.nodes. rewrite <- !Dict_mem_true.
    split; apply (has_node_foldl_add_edge _ _ _ _); right; exists link; eauto.
  - intros nd Hnd. apply list_elem_of_fmap in Hnd as (m & -> & _).
    cbn [nd_type nd_id]. rewrite node_type_build_complete_graph.
    destruct (names_parse_net_output net_output m Hne) as [Hs Hh].
    destruct (decide (m ∈ host_name <$> _)) as [Hin|Hnin].
    + apply Hh in Hin as (Hhead & -> & ->). by rewrite decide_True.
    + destruct (decide (m ∈ sw_name <$> _)) as [Hin'|Hnin'].
      * apply Hs in Hin' as (Hhead & ->). by rewrite decide_True.
      * destruct (decide (m ∈ line_heads net_output)) as [Hhead|]; [ | done ].
        destruct (PyStr.startswith m "s") eqn:Es; [ exfalso; apply Hnin', Hs; done | ].
        destruct (PyStr.startswith m "h") eqn:Eh; [ exfalso; apply Hnin, Hh; done | ].
        done.
Qed.

Lemma C9_node_types_witness :
  (extract_topology_round peer_only_dump TopologyGraph_init).1 = true
  /\ nd_id <$> td_nodes (get_topology_data (discovered peer_only_dump)) = ["s1"; "h1"]
  /\ line_heads peer_only_dump = ["s1"].
Proof.
  assert (H : (extract_topology_round peer_only_dump TopologyGraph_init).1 = true)
    by (vm_compute; reflexivity).
  split_conj; [ exact H | | vm_compute; reflexivity ].
  unfold discovered.
  rewrite (proj1 (C9_node_types peer_only_dump TopologyGraph_init H)).
  vm_compute. reflexivity.
Defined.

(** ** C10: failures are returned, not raised *)

Lemma scan_raw_links_None (ls : list Link) (a b : string) :
  (forall link, link ∈ ls -> ~ joins link a b) -> scan_raw_links ls a b = None.
Proof.
  induction ls as [|l ls IH]; intros H; [ done | ].
  cbn [scan_raw_links].
  rewrite decide_False by (intros Hc; apply (H l); [ left | by left ]).
  rewrite decide_False by (intros Hc; apply (H l); [ left | by right ]).
  apply IH. intros link Hin. apply H. by right.
Qed.

(** The verdicts of [validate_path], and when each is given. *)
Lemma validate_path_verdicts (self : PathToFlow) (p : list string) :
  let G := graph (topology_graph self) in
  (validate_path self p = (true, "Valid path")
   /\ 2 <= length p /\ (forall n, n ∈ p -> nx.has_node G n = true)
   /\ linked G p /\ NoDup p)
  \/ (validate_path self p = (false, "Path must have at least 2 nodes")
      /\ length p < 2)
  \/ (exists n, validate_path self p = (false, "Node " +:+ n +:+ " not found in topology")
        /\ n ∈ p /\ nx.has_node G n = false)
  \/ (exists a b, validate_path self p = (false, "No link between " +:+ a +:+ " and " +:+ b)
        /\ (a, b) ∈ zip p (List.tl p) /\ nx.has_edge G a b = false)
  \/ (validate_path self p = (false, "Path contains loops") /\ ~ NoDup p).
Proof.
  cbv zeta. unfold validate_path.
  destruct (Nat.ltb_spec (length p) 2) as [Hlt|Hge]; [ right; left; done | ].
  destruct (List.find _ p) as [n|] eqn:Hnodes.
  { apply find_some in Hnodes as [Hin Hn]. apply list_elem_of_In in Hin.
    apply negb_true_iff in Hn. right; right; left. exists n. done. }
  destruct (List.find _ (zip p (List.tl p))) as [[a b]|] eqn:Hedges.
  { apply find_some in Hedges as [Hin He]. apply list_elem_of_In in Hin.
    apply negb_true_iff in He. right; right; right; left. exists a, b. done. }
  destruct (decide _) as [Hsz|Hsz].
  { right; right; right; right. split; [ done | ].
    intros Hnd. apply Hsz. by apply size_list_to_set. }
  left. split_conj; try done.
  - intros n Hn. apply list_elem_of_In in Hn.
    pose proof (find_none _ _ Hnodes n Hn) as H. by apply negb_false_iff in H.
  - assert (He : forall e, e ∈ zip p (List.tl p) -> nx.has_edge (graph (topology_graph self)) e.1 e.2 = true).
    { intros e He. apply list_elem_of_In in He.
      pose proof (find_none _ _ Hedges e He) as H. by apply negb_false_iff in H. }
    clear - He. induction p as [|a p IH]; [ done | ].
    destruct p as [|b p]; [ done | ]. split.
    + apply (He (a, b)). left.
    + apply IH. intros e Hin. apply He. by right.
  - apply size_list_to_set_NoDup. by apply dec_stable in Hsz.
Qed.

(** C10: the operations of the core are total and report failure in the
    value they return. [find_path] returns the empty list when an endpoint
    is absent, when no path exists, and when the search raises;
    [validate_path] returns [(False, reason)] with a reason for each way of
    failing; [create_flow_rules] and [delete_flow_rules] return the empty
    list, and leave the registry as it is, for a path that is too short and
    for an unknown flow id; the port-pair lookups return [(None, None)]
    when no link matches. *)
Theorem C10_failures_are_values :
  (forall tg src dst algorithm,
     nx.has_node (graph tg) src = false \/ nx.has_node (graph tg) dst = false ->
     find_path tg src dst algorithm = [])
  /\ (forall tg src dst algorithm,
        graph_wf (graph tg) ->
        ~ (exists p, head p = Some src /\ last p = Some dst /\ linked (graph tg) p
                     /\ forall n, n ∈ p -> nx.has_node (graph tg) n = true) ->
        find_path tg src dst algorithm = [])
  /\ (forall tg src dst algorithm e,
        nx.shortest_path (graph tg) src dst = Raise e ->
        find_path tg src dst algorithm = [])
  /\ (forall self p,
        validate_path self p = (true, "Valid path")
        \/ exists reason, validate_path self p = (false, reason))
  /\ (forall self p flow_id priority,
        length p < 2 -> create_flow_rules self p flow_id priority = ([], self))
  /\ (forall self flow_id,
        active_flows self !! flow_id = None ->
        delete_flow_rules self flow_id = ([], self))
  /\ (forall tg a b,
        (forall link, link ∈ raw_links tg -> ~ joins link a b) ->
        get_port_pair_from_raw_links tg a b = (PyNone, PyNone))
  /\ (forall self a b,
        (forall link, link ∈ raw_links (topology_graph self) -> ~ joins link a b) ->
        nx.has_edge (graph (topology_graph self)) a b = false ->
        nx.has_edge (graph (topology_graph self)) b a = false ->
        _get_port_pair self a b = Some (PyNone, PyNone)).
Proof.
  assert (Hraw : forall tg a b,
            (forall link, link ∈ raw_links tg -> ~ joins link a b) ->
            get_port_pair_from_raw_links tg a b = (PyNone, PyNone)).
  { intros tg a b H. unfold get_port_pair_from_raw_links.
    rewrite (scan_raw_links_None _ _ _ H). by destruct (raw_links tg). }
  split_conj.
  - intros tg src dst algorithm H. unfold find_path.
    destruct H as [-> | ->]; [ done | ]. by rewrite orb_true_r.
  - intros tg src dst algorithm Hwf Hno.
    destruct (find_path_cases tg src dst algorithm) as [H | (Hs & Hd & Hsp)]; [ done | ].
    exfalso. apply Hno.
    destruct (decide (src = dst)) as [<-|Hne].
    + exists [src]. split_conj; try done.
      intros n Hn. apply list_elem_of_singleton in Hn. by subst.
    + apply shortest_path_sound in Hsp as (Hhd & Hlast & _ & Hlink & Hnodes); try done.
      eauto 10.
  - intros tg src dst algorithm e H. unfold find_path. rewrite H.
    destruct (negb _ || negb _); [ done | ].
    destruct (decide _); [ | done ]. by destruct e.
  - intros self p.
    destruct (validate_path_verdicts self p)
      as [(H & _) | [(H & _) | [(n & H & _) | [(a & b & H & _) | (H & _)]]]]; eauto.
  - intros self p flow_id priority Hlen.
    destruct p as [|a [|b p]]; [ done | done | simpl in Hlen; lia ].
  - intros self flow_id. apply delete_flow_rules_miss.
  - exact Hraw.
  - intros self a b Hno Hab Hba. unfold _get_port_pair.
    rewrite (Hraw _ _ _ Hno), Hab, Hba.
    rewrite decide_False by (by intros [? _]). done.
Qed.

Lemma C10_failures_are_values_witness :
  nx.has_node (graph (discovered node_lines_dump)) "h9" = false
  /\ find_path (discovered node_lines_dump) "h1" "h9" "dijkstra" = []
  /\ active_flows (PathToFlow_init (discovered node_lines_dump)) !! "f1" = None
  /\ delete_flow_rules (PathToFlow_init (discovered node_lines_dump)) "f1"
     = ([], PathToFlow_init (discovered node_lines_dump)).
Proof.
  assert (H1 : nx.has_node (graph (discovered node_lines_dump)) "h9" = false)
    by (vm_compute; reflexivity).
  assert (H2 : active_flows (PathToFlow_init (discovered node_lines_dump)) !! "f1" = None)
    by (vm_compute; reflexivity).
  destruct C10_failures_are_values as (Hfind & _ & _ & _ & _ & Hdel & _).
  split_conj; try assumption.
  - apply Hfind. by right.
  - by apply Hdel.
Defined.

(** ** The search never runs out of fuel *)

Lemma expand_node_length (other : dict (option string)) (v : string)
    (nbrs fringe : list string) (mine : dict (option string))
    (fringe' : list string) (mine' : dict (option string)) :
  nx.expand_node other v nbrs fringe mine = nx.Next fringe' mine' ->
  length mine' + length fringe = length mine + length fringe'.
Proof.
  revert fringe mine. induction nbrs as [|w nbrs IH]; intros fringe mine.
  - by intros [= <- <-].
  - cbn [nx.expand_node]. destruct (Dict.mem w mine) eqn:Emine.
    + destruct (Dict.mem w other); [ done | apply IH ].
    + destruct (Dict.mem w other); [ done | ].
      intros H. apply IH in H. apply Dict_mem_false in Emine.
      rewrite (Dict_set_fresh _ _ _ Emine), !length_app in H. simpl in H. lia.
Qed.

Lemma expand_level_length (G : Graph) (other : dict (option string))
    (this_level fringe : list string) (mine : dict (option string))
    (fringe' : list string) (mine' : dict (option string)) :
  nx.expand_level G other this_level fringe mine = nx.Next fringe' mine' ->
  length mine' + length fringe = length mine + length fringe'.
Proof.
  revert fringe mine. induction this_level as [|v rest IH]; intros fringe mine.
  - by intros [= <- <-].
  - cbn [nx.expand_level].
    destruct (nx.expand_node other v (nx.neighbors G v) fringe mine)
      as [|fringe1 mine1] eqn:E; [ done | ].
    intros H. apply IH in H. apply expand_node_length in E. lia.
Qed.

Lemma search_tree_size (G : Graph) (root : string) (m : dict (option string)) :
  graph_wf G -> nx.has_node G root = true -> search_tree G root m ->
  length m <= length (nx.nodes G).
Proof.
  intros Hwf Hroot Htree.
  rewrite <- (length_fmap fst m). apply submseteq_length, NoDup_submseteq.
  - by apply (search_tree_NoDup G root).
  - intros y Hy. unfold nx.nodes. apply Dict_mem_true.
    by apply (search_tree_nodes G root m).
Qed.

(** With fuel above the number of nodes the two maps can still take in,
    the loop ends by meeting or by exhausting a fringe. *)
Lemma search_fuel (G : Graph) (source target : string) (fuel : nat)
    (pred succ : dict (option string)) (forward_fringe reverse_fringe : list string) :
  graph_wf G -> nx.has_node G source = true -> nx.has_node G target = true ->
  search_tree G source pred -> search_tree G target succ ->
  (forall y, y ∈ forward_fringe -> y ∈ Dict.keys pred) ->
  (forall y, y ∈ reverse_fringe -> y ∈ Dict.keys succ) ->
  keys_disjoint pred succ ->
  (length (nx.nodes G) - length pred) + (length (nx.nodes G) - length succ) < fuel ->
  (exists r, nx.search fuel G pred succ forward_fringe reverse_fringe = Ok r)
  \/ nx.search fuel G pred succ forward_fringe reverse_fringe = Raise NetworkXNoPath.
Proof.
  intros Hwf Hsrc Htgt. revert pred succ forward_fringe reverse_fringe.
  induction fuel as [|fuel IH]; intros pred succ ff rf Hp Hs Hff Hrf Hdisj Hfuel;
    [ lia | ].
  destruct ff as [|f0 ff]; [ by right | ].
  destruct rf as [|r0 rf]; [ by right | ].
  cbn [nx.search].
  destruct (length (f0 :: ff) <=? length (r0 :: rf))%nat.
  - pose proof (expand_level_ok G source succ (f0 :: ff) [] pred Hp Hff
                  ltac:(intros y Hy; by apply elem_of_nil in Hy) Hdisj) as Hlev.
    destruct (nx.expand_level G succ (f0 :: ff) [] pred) as [pred1 w1|fringe1 pred1] eqn:E;
      [ left; eauto | ].
    simpl in Hlev. destruct Hlev as (H1 & H2 & H3 & H4).
    apply expand_level_length in E. simpl in E.
    destruct fringe1 as [|x fringe1]; [ right; by destruct fuel | ].
    apply IH; try done.
    pose proof (search_tree_size G source pred1 Hwf Hsrc H1). simpl in E. lia.
  - assert (Hdisj' : keys_disjoint succ pred)
      by (intros y Hy Hy'; by apply (Hdisj y)).
    pose proof (expand_level_ok G target pred (r0 :: rf) [] succ Hs Hrf
                  ltac:(intros y Hy; by apply elem_of_nil in Hy) Hdisj') as Hlev.
    destruct (nx.expand_level G pred (r0 :: rf) [] succ) as [succ1 w1|fringe1 succ1] eqn:E;
      [ left; eauto | ].
    simpl in Hlev. destruct Hlev as (H1 & H2 & H3 & H4).
    apply expand_level_length in E. simpl in E.
    destruct fringe1 as [|x fringe1]; [ right; by destruct fuel | ].
    apply IH; try done.
    + intros y Hy Hy'. by apply (H3 y).
    + pose proof (search_tree_size G target succ1 Hwf Htgt H1). simpl in E. lia.
Qed.

(** [shortest_path] on a graph that keeps the invariant returns a path or
    raises one of the two exceptions networkx documents for it. *)
Theorem shortest_path_total (G : Graph) (source target : string) :
  graph_wf G ->
  (exists p, nx.shortest_path G source target = Ok p)
  \/ nx.shortest_path G source target = Raise NodeNotFound
  \/ nx.shortest_path G source target = Raise NetworkXNoPath.
Proof.
  intros Hwf.
  destruct (nx.has_node G source) eqn:Hs.
  2: { right; left. unfold nx.shortest_path, nx.bidirectional_shortest_path.
       by rewrite Hs. }
  destruct (nx.has_node G target) eqn:Ht.
  2: { right; left. unfold nx.shortest_path, nx.bidirectional_shortest_path.
       rewrite Hs, Ht. done. }
  destruct (decide (source = target)) as [<-|Hne].
  { left. exists [source]. by apply shortest_path_same. }
  assert (Hdisj : keys_disjoint [(source, @None string)] [(target, None)]).
  { intros y Hy Hy'. apply list_elem_of_singleton in Hy, Hy'.
    simpl in Hy, Hy'. congruence. }
  pose proof (search_fuel G source target (2 * length (nx.nodes G) + 1)
                [(source, None)] [(target, None)] [source] [target] Hwf Hs Ht
                (search_tree_root G source) (search_tree_root G target)
                ltac:(intros y Hy; exact Hy) ltac:(intros y Hy; exact Hy)
                Hdisj ltac:(simpl; lia)) as Hsearch.
  unfold nx.shortest_path, nx.bidirectional_shortest_path.
  rewrite Hs, Ht. cbn [negb orb]. unfold nx._bidirectional_pred_succ.
  rewrite decide_False by congruence.
  destruct Hsearch as [[[[pred succ] w] Hsearch] | Hsearch];
    [ | right; right; by rewrite Hsearch ].
  rewrite Hsearch. cbn [bind]. left.
  apply search_ok with (source := source) (target := target) in Hsearch
    as (Hpred & Hsucc & Hwp & Hws & _); try done;
    try apply search_tree_root; try (intros y Hy; exact Hy).
  destruct (search_tree_walk _ _ _ Hpred w Hwp) as (ps & Hwalk_s & _ & Hnd_s & Hin_s & _).
  destruct (search_tree_walk _ _ _ Hsucc w Hws) as (pt & Hwalk_t & _ & Hnd_t & Hin_t & _).
  rewrite Hwalk_s by (by apply chain_length). cbn [bind].
  specialize (Hwalk_t (S (length succ))
                ltac:(pose proof (chain_length succ (w :: pt) Hnd_t Hin_t); lia)).
  cbn [nx.walk] in Hwalk_t.
  destruct (Dict.index w succ) as [next|]; [ | done ]. cbn [bind] in Hwalk_t |- *.
  destruct (nx.walk (length succ) succ next) as [rest|]; [ | done ].
  cbn [bind]. eauto.
Qed.

(** ** The port mapping is rebuilt without raising *)

Lemma Dict_index_Ok {V} (k : string) (d : dict V) :
  k ∈ Dict.keys d -> exists v, Dict.index k d = Ok v.
Proof.
  intros Hk. unfold Dict.index. destruct (Dict.get k d) eqn:E; [ eauto | ].
  apply Dict_get_None in E. done.
Qed.

Lemma Dict_keys_set_mono {V} (k k' : string) (v : V) (d : dict V) :
  k' ∈ Dict.keys d -> k' ∈ Dict.keys (Dict.set k v d).
Proof.
  intros Hk. rewrite Dict_keys_set. destruct (decide _); [ done | ].
  apply elem_of_app. by left.
Qed.

Lemma port_mapping_neighbors_Ok (G : Graph) (node : string) (nbrs : list string)
    (pm : dict (dict pyval)) :
  node ∈ Dict.keys pm ->
  (forall nb, nb ∈ nbrs -> nb ∈ nx.neighbors G node) ->
  exists pm',
    for_each (λ pm neighbor,
        edge_data <- nx.edge_data G node neighbor;;
        inner <- Dict.index node pm;;
        Ok (Dict.set node (Dict.set neighbor (mapped_port node edge_data) inner) pm))
      nbrs pm = Ok pm'.
Proof.
  revert pm. induction nbrs as [|nb nbrs IH]; intros pm Hnode Hnbrs; [ by exists pm | ].
  cbn [for_each].
  rewrite (edge_data_edge_attrs G node nb) by (apply Hnbrs; left). cbn [bind].
  destruct (Dict_index_Ok node pm Hnode) as [inner ->]. cbn [bind].
  apply IH.
  - apply Dict_keys_set_mono, Hnode.
  - intros nb' Hnb'. apply Hnbrs. by right.
Qed.

Lemma port_mapping_body_Ok (G : Graph) : exists pm, port_mapping_body G = Ok pm.
Proof.
  unfold port_mapping_body. generalize (@nil (string * dict pyval)).
  induction (nx.nodes G) as [|node nodes IH]; intros pm; [ by exists pm | ].
  cbn [for_each].
  destruct (port_mapping_neighbors_Ok G node (nx.neighbors G node) (Dict.set node [] pm))
    as [pm1 ->]; [ | done | ].
  - rewrite Dict_keys_set. destruct (decide _); [ done | ].
    apply elem_of_app. right. by apply list_elem_of_singleton.
  - cbn [bind]. apply IH.
Qed.

(** ** Completeness of the search *)

Lemma expand_node_grows (other : dict (option string)) (v : string)
    (nbrs fringe : list string) (mine : dict (option string))
    (fringe' : list string) (mine' : dict (option string)) :
  nx.expand_node other v nbrs fringe mine = nx.Next fringe' mine' ->
  (forall w, w ∈ nbrs -> w ∈ Dict.keys mine')
  /\ (forall y, y ∈ Dict.keys mine -> y ∈ Dict.keys mine')
  /\ (forall y, y ∈ Dict.keys mine' -> y ∈ Dict.keys mine \/ y ∈ fringe')
  /\ (forall y, y ∈ fringe -> y ∈ fringe').
Proof.
  revert fringe mine. induction nbrs as [|w nbrs IH]; intros fringe mine.
  - intros [= <- <-]. split_conj; try done; [ | by left ].
    intros w Hw. by apply elem_of_nil in Hw.
  - cbn [nx.expand_node]. destruct (Dict.mem w mine) eqn:Emine.
    + destruct (Dict.mem w other); [ done | ].
      intros H. apply IH in H as (H1 & H2 & H3 & H4). split_conj; try done.
      intros w' Hw'. apply elem_of_cons in Hw' as [->|Hw']; [ | by apply H1 ].
      by apply H2, Dict_mem_true.
    + destruct (Dict.mem w other); [ done | ].
      intros H. apply IH in H as (H1 & H2 & H3 & H4).
      assert (Hnew : w ∈ Dict.keys (Dict.set w (Some v) mine)).
      { rewrite Dict_keys_set. destruct (decide _); [ done | ].
        apply elem_of_app. right. by apply list_elem_of_singleton. }
      split_conj.
      * intros w' Hw'. apply elem_of_cons in Hw' as [->|Hw']; [ by apply H2 | by apply H1 ].
      * intros y Hy. by apply H2, Dict_keys_set_mono.
      * intros y Hy. apply H3 in Hy as [Hy|Hy]; [ | by right ].
        rewrite Dict_keys_set in Hy. destruct (decide _); [ by left | ].
        apply elem_of_app in Hy as [Hy|Hy]; [ by left | ].
        apply list_elem_of_singleton in Hy. subst. right. apply H4.
        apply elem_of_app. right. by apply list_elem_of_singleton.
      * intros y Hy. apply H4. apply elem_of_app. by left.
Qed.

Lemma expand_level_grows (G : Graph) (other : dict (option string))
    (this_level fringe : list string) (mine : dict (option string))
    (fringe' : list string) (mine' : dict (option string)) :
  nx.expand_level G other this_level fringe mine = nx.Next fringe' mine' ->
  (forall v w, v ∈ this_level -> nx.has_edge G v w = true -> w ∈ Dict.keys mine')
  /\ (forall y, y ∈ Dict.keys mine -> y ∈ Dict.keys mine')
  /\ (forall y, y ∈ Dict.keys mine' -> y ∈ Dict.keys mine \/ y ∈ fringe')
  /\ (forall y, y ∈ fringe -> y ∈ fringe').
Proof.
  revert fringe mine. induction this_level as [|v rest IH]; intros fringe mine.
  - intros [= <- <-]. split_conj; try done; [ | by left ].
    intros v w Hv. by apply elem_of_nil in Hv.
  - cbn [nx.expand_level].
    destruct (nx.expand_node other v (nx.neighbors G v) fringe mine)
      as [|fringe1 mine1] eqn:E; [ done | ].
    intros H. apply IH in H as (H1 & H2 & H3 & H4).
    apply expand_node_grows in E as (E1 & E2 & E3 & E4).
    split_conj.
    + intros v' w Hv' Hw. apply elem_of_cons in Hv' as [->|Hv']; [ | by apply (H1 v') ].
      by apply H2, E1, neighbors_has_edge.
    + intros y Hy. by apply H2, E2.
    + intros y Hy. apply H3 in Hy as [Hy|Hy]; [ | by right ].
      apply E3 in Hy as [Hy|Hy]; [ by left | right; by apply H4 ].
    + intros y Hy. by apply H4, E4.
Qed.

Lemma expand_level_closed (G : Graph) (other : dict (option string))
    (this_level : list string) (mine : dict (option string))
    (fringe' : list string) (mine' : dict (option string)) :
  closed_except G mine this_level ->
  nx.expand_level G other this_level [] mine = nx.Next fringe' mine' ->
  closed_except G mine' fringe'.
Proof.
  intros Hclosed H. apply expand_level_grows in H as (H1 & H2 & H3 & _).
  intros v w Hv Hnf Hvw. apply H3 in Hv as [Hv|Hv]; [ | done ].
  destruct (decide (v ∈ this_level)) as [Hin|Hnin].
  - by apply (H1 v).
  - by apply H2, (Hclosed v).
Qed.

Lemma search_tree_has_root (G : Graph) (root : string) (m : dict (option string)) :
  search_tree G root m -> root ∈ Dict.keys m.
Proof.
  induction 1 as [|m w v _ IH _ _ _]; [ left | ].
  rewrite Dict_keys_app. apply elem_of_app. by left.
Qed.

(** A walk that starts inside a set of nodes closed under neighbours stays
    inside it. *)
Lemma closed_walk (G : Graph) (m : dict (option string)) (p : list string) (a b : string) :
  closed_except G m [] -> linked G p -> head p = Some a -> last p = Some b ->
  a ∈ Dict.keys m -> b ∈ Dict.keys m.
Proof.
  intros Hclosed. revert a. induction p as [|x p IH]; intros a Hlink Hhd Hlast Ha;
    [ done | ].
  injection Hhd as ->. destruct p as [|y p]; [ by injection Hlast as <- | ].
  destruct Hlink as [Hxy Hlink]. rewrite last_cons_cons in Hlast.
  apply (IH y); try done.
  apply (Hclosed a y); [ done | apply not_elem_of_nil | done ].
Qed.

Lemma connected_sym (G : Graph) (a b : string) :
  graph_wf G -> connected G a b -> connected G b a.
Proof.
  intros Hwf (p & Hhd & Hlast & Hlink). exists (reverse p). split_conj.
  - by rewrite head_reverse.
  - by rewrite last_reverse.
  - clear Hhd Hlast. induction p as [|x p IH]; [ done | ].
    rewrite reverse_cons. destruct p as [|y p]; [ done | ].
    destruct Hlink as [Hxy Hlink]. apply linked_app; [ by apply IH | done | ].
    intros u v Hu Hv. injection Hv as <-.
    rewrite last_reverse in Hu. injection Hu as <-.
    by apply Hwf in Hxy as (_ & _ & ?).
Qed.

(** When the loop gives up, the two ends are not connected. *)
Lemma search_complete (G : Graph) (source target : string) (fuel : nat)
    (pred succ : dict (option string)) (forward_fringe reverse_fringe : list string) :
  graph_wf G ->
  search_tree G source pred -> search_tree G target succ ->
  (forall y, y ∈ forward_fringe -> y ∈ Dict.keys pred) ->
  (forall y, y ∈ reverse_fringe -> y ∈ Dict.keys succ) ->
  keys_disjoint pred succ ->
  closed_except G pred forward_fringe -> closed_except G succ reverse_fringe ->
  nx.search fuel G pred succ forward_fringe reverse_fringe = Raise NetworkXNoPath ->
  ~ connected G source target.
Proof.
  intros Hwf. revert pred succ forward_fringe reverse_fringe.
  assert (Hend : forall pred succ ff rf,
            search_tree G source pred -> search_tree G target succ ->
            keys_disjoint pred succ ->
            closed_except G pred ff -> closed_except G succ rf ->
            ff = [] \/ rf = [] -> ~ connected G source target).
  { intros pred succ ff rf Hp Hs Hdisj Hcp Hcs [-> | ->] Hconn.
    - destruct Hconn as (p & Hhd & Hlast & Hlink).
      apply (Hdisj target); [ | by apply (search_tree_has_root G target) ].
      apply (closed_walk G pred p source target); try done.
      by apply (search_tree_has_root G source).
    - apply connected_sym in Hconn as (p & Hhd & Hlast & Hlink); [ | done ].
      apply (Hdisj source); [ by apply (search_tree_has_root G source) | ].
      apply (closed_walk G succ p target source); try done.
      by apply (search_tree_has_root G target). }
  induction fuel as [|fuel IH];
    intros pred succ ff rf Hp Hs Hff Hrf Hdisj Hcp Hcs Hsearch.
  - destruct ff as [|f0 ff]; [ apply (Hend pred succ [] rf); auto | ].
    destruct rf as [|r0 rf]; [ apply (Hend pred succ (f0 :: ff) []); auto | ].
    discriminate Hsearch.
  - destruct ff as [|f0 ff]; [ apply (Hend pred succ [] rf); auto | ].
    destruct rf as [|r0 rf]; [ apply (Hend pred succ (f0 :: ff) []); auto | ].
    cbn [nx.search] in Hsearch.
    destruct (length (f0 :: ff) <=? length (r0 :: rf))%nat.
    + pose proof (expand_level_ok G source succ (f0 :: ff) [] pred Hp Hff
                    ltac:(intros y Hy; by apply elem_of_nil in Hy) Hdisj) as Hlev.
      destruct (nx.expand_level G succ (f0 :: ff) [] pred) as [pred1 w1|fringe1 pred1] eqn:E;
        [ done | ].
      simpl in Hlev. destruct Hlev as (H1 & H2 & H3 & H4).
      apply (IH pred1 succ fringe1 (r0 :: rf)); try done.
      by apply (expand_level_closed G succ (f0 :: ff) pred).
    + assert (Hdisj' : keys_disjoint succ pred)
        by (intros y Hy Hy'; by apply (Hdisj y)).
      pose proof (expand_level_ok G target pred (r0 :: rf) [] succ Hs Hrf
                    ltac:(intros y Hy; by apply elem_of_nil in Hy) Hdisj') as Hlev.
      destruct (nx.expand_level G pred (r0 :: rf) [] succ) as [succ1 w1|fringe1 succ1] eqn:E;
        [ done | ].
      simpl in Hlev. destruct Hlev as (H1 & H2 & H3 & H4).
      apply (IH pred succ1 (f0 :: ff) fringe1); try done.
      * intros y Hy Hy'. by apply (H3 y).
      * by apply (expand_level_closed G pred (r0 :: rf) succ).
Qed.

(** With both endpoints in the graph, [shortest_path] can only fail because
    the loop gave up. *)
Lemma shortest_path_raises (G : Graph) (source target : string) (e : exn) :
  graph_wf G -> nx.has_node G source = true -> nx.has_node G target = true ->
  nx.shortest_path G source target = Raise e ->
  source <> target
  /\ nx.search (2 * length (nx.nodes G) + 1) G [(source, None)] [(target, None)]
       [source] [target] = Raise NetworkXNoPath.
Proof.
  intros Hwf Hs Ht Hp.
  destruct (decide (source = target)) as [<-|Hne];
    [ by rewrite (shortest_path_same _ _ Hs) in Hp | ].
  split; [ done | ].
  assert (Hdisj : keys_disjoint [(source, @None string)] [(target, None)]).
  { intros y Hy Hy'. apply list_elem_of_singleton in Hy, Hy'.
    simpl in Hy, Hy'. congruence. }
  pose proof (search_fuel G source target (2 * length (nx.nodes G) + 1)
                [(source, None)] [(target, None)] [source] [target] Hwf Hs Ht
                (search_tree_root G source) (search_tree_root G target)
                ltac:(intros y Hy; exact Hy) ltac:(intros y Hy; exact Hy)
                Hdisj ltac:(simpl; lia)) as Hsearch.
  destruct Hsearch as [[[[pred succ] w] Hsearch] | Hsearch]; [ | done ].
  exfalso.
  unfold nx.shortest_path, nx.bidirectional_shortest_path in Hp.
  rewrite Hs, Ht in Hp. cbn [negb orb] in Hp.
  unfold nx._bidirectional_pred_succ in Hp.
  rewrite decide_False in Hp by congruence.
  rewrite Hsearch in Hp. cbn [bind] in Hp.
  apply search_ok with (source := source) (target := target) in Hsearch
    as (Hpred & Hsucc & Hwp & Hws & _); try done;
    try apply search_tree_root; try (intros y Hy; exact Hy).
  destruct (search_tree_walk _ _ _ Hpred w Hwp) as (ps & Hwalk_s & _ & Hnd_s & Hin_s & _).
  destruct (search_tree_walk _ _ _ Hsucc w Hws) as (pt & Hwalk_t & _ & Hnd_t & Hin_t & _).
  rewrite Hwalk_s in Hp by (by apply chain_length). cbn [bind] in Hp.
  specialize (Hwalk_t (S (length succ))
                ltac:(pose proof (chain_length succ (w :: pt) Hnd_t Hin_t); lia)).
  cbn [nx.walk] in Hwalk_t.
  destruct (Dict.index w succ) as [next|]; [ | done ]. cbn [bind] in Hwalk_t, Hp.
  destruct (nx.walk (length succ) succ next) as [rest|]; done.
Qed.

(** On a graph that keeps the invariant, [find_path] with the default
    algorithm returns the empty list exactly when an endpoint is absent or
    the endpoints are not connected. *)
Theorem find_path_empty_iff (tg : TopologyGraph) (src dst : string) :
  graph_wf (graph tg) ->
  find_path tg src dst "dijkstra" = []
  <-> nx.has_node (graph tg) src = false \/ nx.has_node (graph tg) dst = false
      \/ ~ connected (graph tg) src dst.
Proof.
  intros Hwf. split.
  - intros Hnil.
    destruct (nx.has_node (graph tg) src) eqn:Hs; [ | by left ].
    destruct (nx.has_node (graph tg) dst) eqn:Hd; [ | right; by left ].
    right; right.
    unfold find_path, try_except in Hnil. rewrite Hs, Hd in Hnil.
    cbn [negb orb] in Hnil. rewrite decide_True in Hnil by done.
    destruct (nx.shortest_path (graph tg) src dst) as [p|e] eqn:Hp.
    + subst p. destruct (decide (src = dst)) as [<-|Hne].
      * by rewrite (shortest_path_same _ _ Hs) in Hp.
      * by apply shortest_path_sound in Hp as (? & _).
    + apply shortest_path_raises in Hp as (Hne & Hsearch); try done.
      apply (search_complete _ src dst) in Hsearch; try done;
        try apply search_tree_root; try (intros y Hy; exact Hy).
      * intros y Hy Hy'. apply list_elem_of_singleton in Hy, Hy'.
        simpl in Hy, Hy'. congruence.
      * intros v w Hv Hnf. apply list_elem_of_singleton in Hv. simpl in Hv.
        subst v. exfalso. apply Hnf. left.
      * intros v w Hv Hnf. apply list_elem_of_singleton in Hv. simpl in Hv.
        subst v. exfalso. apply Hnf. left.
  - intros [H | [H | H]].
    + unfold find_path. by rewrite H.
    + unfold find_path. rewrite H. by rewrite orb_true_r.
    + destruct (find_path_cases tg src dst "dijkstra") as [Hnil | (Hs & Hd & Hsp)];
        [ done | ].
      exfalso. apply H. destruct (decide (src = dst)) as [<-|Hne].
      * exists [src]. done.
      * apply shortest_path_sound in Hsp as (Hhd & Hlast & _ & Hlink & _); try done.
        exists (find_path tg src dst "dijkstra"). done.
Qed.

(** ** The command runner: [OVSController] *)

Section Runner_facts.

Context {World : Type}.
Variable subprocess_run : string -> World -> run_outcome * World.

Lemma execute_command_fields (self : OVSController) (c : string) (w : World) :
  command (execute_command subprocess_run self c w).1.1 = c
  /\ executed_commands (execute_command subprocess_run self c w).1.2
     = executed_commands self ++ [(execute_command subprocess_run self c w).1.1]
  /\ (execute_command subprocess_run self c w).2 = (subprocess_run c w).2.
Proof.
  unfold execute_command. destruct (subprocess_run c w) as [[rc out err|msg] w1]; done.
Qed.

Lemma execute_commands_acc (acc : list ExecutionResult) (self : OVSController)
    (commands : list string) (w : World) :
  foldl (λ '(results, self, w) command,
           let '(result, self, w) := execute_command subprocess_run self command w in
           (results ++ [result], self, w))
        (acc, self, w) commands
  = (acc ++ (execute_commands subprocess_run self commands w).1.1,
     (execute_commands subprocess_run self commands w).1.2,
     (execute_commands subprocess_run self commands w).2).
Proof.
  unfold execute_commands.
  revert acc self w. induction commands as [|c cs IH]; intros acc self w.
  - simpl. by rewrite app_nil_r.
  - cbn [foldl].
    destruct (execute_command subprocess_run self c w) as [[r self1] w1].
    rewrite (IH (acc ++ [r])), (IH ([] ++ [r])). cbn [fst snd].
    by rewrite <- app_assoc.
Qed.

Lemma execute_commands_nil (self : OVSController) (w : World) :
  execute_commands subprocess_run self [] w = ([], self, w).
Proof. done. Qed.

Lemma execute_commands_cons (self : OVSController) (c : string) (cs : list string)
    (w : World) :
  execute_commands subprocess_run self (c :: cs) w
  = let first := execute_command subprocess_run self c w in
    let rest := execute_commands subprocess_run first.1.2 cs first.2 in
    (first.1.1 :: rest.1.1, rest.1.2, rest.2).
Proof.
  unfold execute_commands at 1. cbn [foldl].
  destruct (execute_command subprocess_run self c w) as [[r self1] w1].
  by rewrite execute_commands_acc.
Qed.

Lemma execute_commands_names (self : OVSController) (commands : list string)
    (w : World) :
  command <$> (execute_commands subprocess_run self commands w).1.1 = commands.
Proof.
  revert self w. induction commands as [|c cs IH]; intros self w; [ done | ].
  rewrite execute_commands_cons. cbv zeta. cbn [fst snd]. rewrite fmap_cons, IH.
  by destruct (execute_command_fields self c w) as (-> & _).
Qed.

Lemma execute_commands_history (self : OVSController) (commands : list string)
    (w : World) :
  executed_commands (execute_commands subprocess_run self commands w).1.2
  = executed_commands self ++ (execute_commands subprocess_run self commands w).1.1.
Proof.
  revert self w. induction commands as [|c cs IH]; intros self w.
  - cbn. by rewrite app_nil_r.
  - rewrite execute_commands_cons. cbv zeta. cbn [fst snd]. rewrite IH.
    destruct (execute_command_fields self c w) as (_ & -> & _).
    by rewrite <- app_assoc.
Qed.

Lemma execute_command_success (self : OVSController) (c : string) (w : World) :
  success (execute_command subprocess_run self c w).1.1
  = match (subprocess_run c w).1 with
    | Completed returncode _ _ => bool_decide (returncode = 0%Z)
    | RunRaised _ => false
    end.
Proof.
  unfold execute_command. destruct (subprocess_run c w) as [[rc out err|msg] w1];
    [ | done ].
  cbn. case_bool_decide as H; [ by apply Z.eqb_eq | by apply Z.eqb_neq ].
Qed.

(** X1: [execute_commands] runs every command, in order, also after one
    has failed: it returns one result per command, each naming its
    command, and the execution history grows by exactly these results. A
    result reports success only for a run that completed with return
    code 0. *)
Theorem execute_commands_results (self : OVSController) (commands : list string)
    (w : World) :
  let out := execute_commands subprocess_run self commands w in
  command <$> out.1.1 = commands
  /\ executed_commands out.1.2 = executed_commands self ++ out.1.1
  /\ (forall r, r ∈ out.1.1 -> success r = bool_decide (return_code r = 0%Z)).
Proof.
  cbv zeta. split_and!.
  - apply execute_commands_names.
  - apply execute_commands_history.
  - revert self w. induction commands as [|c cs IH]; intros self w r.
    + by intros ?%elem_of_nil.
    + rewrite execute_commands_cons. cbv zeta. cbn [fst snd].
      intros [->|Hr]%elem_of_cons; [ | by eapply IH ].
      unfold execute_command.
      destruct (subprocess_run c w) as [[rc out err|msg] w1]; cbn; [ | done ].
      case_bool_decide as H; [ by apply Z.eqb_eq | by apply Z.eqb_neq ].
Qed.

End Runner_facts.

(** ** Flow rules of an arbitrary path *)

Lemma Dict_keys_foldl_set {A V} (key : A -> string) (val : A -> V)
    (l : list A) (m : dict V) (k : string) :
  k ∈ Dict.keys (foldl (λ m a, Dict.set (key a) (val a) m) m l)
  <-> k ∈ Dict.keys m \/ k ∈ key <$> l.
Proof.
  revert m. induction l as [|a l IH]; intros m.
  - cbn. rewrite elem_of_nil. tauto.
  - cbn [foldl]. rewrite IH, fmap_cons, elem_of_cons, Dict_keys_set.
    destruct (decide (key a ∈ Dict.keys m)) as [Hin|Hout].
    + split; [ tauto | ]. intros [H | [-> | H]]; tauto.
    + rewrite elem_of_app, list_elem_of_singleton. tauto.
Qed.

Lemma Dict_keys_foldl_set_NoDup {A V} (key : A -> string) (val : A -> V)
    (l : list A) (m : dict V) :
  NoDup (Dict.keys m) ->
  NoDup (Dict.keys (foldl (λ m a, Dict.set (key a) (val a) m) m l)).
Proof.
  revert m. induction l as [|a l IH]; intros m Hm; [ done | ].
  cbn [foldl]. apply IH. rewrite Dict_keys_set.
  destruct (decide (key a ∈ Dict.keys m)) as [Hin|Hout]; [ done | ].
  apply NoDup_app. split_and!; [ done | | apply NoDup_singleton ].
  intros x Hx Hx'. apply list_elem_of_singleton in Hx'. by subst x.
Qed.

Lemma length_bind_rule_pair (f : string) (prio : Z) (p : list string)
    (m : dict (pyval * pyval)) :
  length (m ≫= rule_pair f prio p) = 2 * length m.
Proof.
  induction m as [|[sw0 [i o]] m IH]; [ done | ].
  rewrite bind_cons, length_app, IH. cbn. lia.
Qed.

Lemma elem_of_bind_rule_pair (f : string) (prio : Z) (p : list string)
    (m : dict (pyval * pyval)) (r : FlowRule) :
  r ∈ m ≫= rule_pair f prio p ->
  switch r ∈ Dict.keys m /\ priority r = prio.
Proof.
  intros Hr. apply list_elem_of_bind in Hr as ([sw0 [i o]] & Hr & Hin).
  assert (switch r = sw0 /\ priority r = prio) as [-> ->].
  { cbn in Hr. rewrite !elem_of_cons, elem_of_nil in Hr.
    destruct Hr as [-> | [-> | []]]; done. }
  split; [ | done ]. apply list_elem_of_fmap. by exists (sw0, (i, o)).
Qed.

(** The switch port map of a path has one entry per distinct interior
    node with the switch prefix. *)
Lemma switch_ports_keys (self : PathToFlow) (p : list string) (k : string) :
  k ∈ Dict.keys (switch_ports self p [])
  <-> k ∈ List.filter (λ n, PyStr.startswith n "s") (interior p).
Proof.
  rewrite switch_ports_foldl, <- switch_hops_interior.
  rewrite (Dict_keys_foldl_set (λ hop : string * string * string, hop.1.2)
             (λ hop, (ingress_port self hop.1.1 hop.1.2, egress_port self hop.1.2 hop.2))).
  cbn. rewrite elem_of_nil. tauto.
Qed.

Lemma switch_ports_NoDup (self : PathToFlow) (p : list string) :
  NoDup (Dict.keys (switch_ports self p [])).
Proof.
  rewrite switch_ports_foldl.
  apply (Dict_keys_foldl_set_NoDup (λ hop : string * string * string, hop.1.2)
           (λ hop, (ingress_port self hop.1.1 hop.1.2, egress_port self hop.1.2 hop.2))).
  apply NoDup_nil_2.
Qed.

Lemma elem_of_filter_list {A} (f : A -> bool) (l : list A) (x : A) :
  x ∈ List.filter f l <-> x ∈ l /\ f x = true.
Proof. rewrite !list_elem_of_In. apply filter_In. Qed.

Lemma create_flow_rules_rules (self : PathToFlow) (p : list string)
    (flow_id : option string) (prio : Z) :
  (create_flow_rules self p flow_id prio).1
  = if (length p <? 2)%nat then []
    else switch_ports self p [] ≫= rule_pair (flow_id_or_default flow_id p) prio p.
Proof. destruct p as [|a [|b p]]; done. Qed.

Lemma create_flow_rules_registry_eq (self : PathToFlow) (p : list string)
    (flow_id : option string) (prio : Z) :
  2 <= length p ->
  (create_flow_rules self p flow_id prio).2
  = mkPathToFlow (topology_graph self)
      (<[flow_id_or_default flow_id p := (create_flow_rules self p flow_id prio).1]>
         (active_flows self)).
Proof. destruct p as [|a [|b p]]; cbn; intros; try lia; done. Qed.

Lemma create_flow_rules_switch (self : PathToFlow) (p : list string)
    (flow_id : option string) (prio : Z) (r : FlowRule) :
  r ∈ (create_flow_rules self p flow_id prio).1 ->
  PyStr.startswith (switch r) "s" = true /\ switch r ∈ interior p.
Proof.
  rewrite create_flow_rules_rules. destruct (length p <? 2)%nat.
  - by intros ?%elem_of_nil.
  - intros (Hk & _)%elem_of_bind_rule_pair.
    apply switch_ports_keys, elem_of_filter_list in Hk. tauto.
Qed.

Lemma generate_ovs_commands_all (rules : list FlowRule) :
  (forall r, r ∈ rules -> PyStr.startswith (switch r) "s" = true) ->
  List.filter (λ rule, PyStr.startswith (switch rule) "s") rules = rules.
Proof.
  induction rules as [|r rules IH]; intros H; [ done | ].
  cbn [List.filter]. rewrite (H r) by left. f_equal. apply IH.
  intros r' Hr'. apply H. by right.
Qed.

(** X2: every rule [create_flow_rules] returns is for an interior node of
    the path that carries the switch prefix, so [generate_ovs_commands]
    skips none of them: it yields one add-flow command per rule. *)
Theorem generate_ovs_commands_of_created (self : PathToFlow) (p : list string)
    (flow_id : option string) (prio : Z) :
  let rules := (create_flow_rules self p flow_id prio).1 in
  (forall r, r ∈ rules ->
     PyStr.startswith (switch r) "s" = true /\ switch r ∈ interior p)
  /\ length (generate_ovs_commands rules) = length rules
  /\ generate_ovs_commands rules
     = (λ rule, "sudo ovs-ofctl add-flow " +:+ switch rule +:+ " 'in_port="
                +:+ py_str (in_port rule) +:+ ",priority=" +:+ PyStr.of_Z (priority rule)
                +:+ ",actions=output:" +:+ py_str (out_port rule) +:+ "'") <$> rules.
Proof.
  cbv zeta. split; [ apply create_flow_rules_switch | ].
  unfold generate_ovs_commands. rewrite generate_ovs_commands_all.
  - by rewrite length_fmap.
  - intros r Hr. by apply create_flow_rules_switch in Hr as [? _].
Qed.

Lemma length_create_flow_rules (self : PathToFlow) (p : list string)
    (flow_id : option string) (prio : Z) :
  length (create_flow_rules self p flow_id prio).1
  = 2 * size (list_to_set (List.filter (λ n, PyStr.startswith n "s") (interior p))
              : gset string).
Proof.
  rewrite create_flow_rules_rules. destruct (length p <? 2)%nat eqn:Hlen.
  - destruct p as [|a [|b p]]; done.
  - rewrite length_bind_rule_pair. f_equal.
    rewrite <- (length_fmap fst). change ((switch_ports self p []).*1)
      with (Dict.keys (switch_ports self p [])).
    rewrite <- (size_list_to_set (C := gset string)) by apply switch_ports_NoDup.
    f_equal. apply set_eq. intros k. rewrite !elem_of_list_to_set.
    apply switch_ports_keys.
Qed.

Lemma filter_switch_bind_rule_pair (f : string) (prio : Z) (p : list string)
    (m : dict (pyval * pyval)) (sw : string) :
  NoDup (Dict.keys m) ->
  length (List.filter (λ r, bool_decide (switch r = sw)) (m ≫= rule_pair f prio p))
  = if decide (sw ∈ Dict.keys m) then 2 else 0.
Proof.
  induction m as [|[k [i o]] m IH]; intros Hnd.
  - cbn. by rewrite decide_False by apply not_elem_of_nil.
  - change (Dict.keys ((k, (i, o)) :: m)) with (k :: Dict.keys m) in *.
    apply NoDup_cons in Hnd as [Hk Hnd].
    rewrite bind_cons, List.filter_app, length_app, (IH Hnd).
    cbn [rule_pair List.filter switch].
    destruct (decide (k = sw)) as [->|Hne].
    + rewrite !bool_decide_eq_true_2 by done.
      rewrite (decide_True (P := sw ∈ sw :: Dict.keys m)) by left.
      by rewrite decide_False.
    + rewrite !bool_decide_eq_false_2 by done. cbn [length].
      destruct (decide (sw ∈ Dict.keys m)) as [Hin|Hout].
      * rewrite decide_True; [ done | by right ].
      * rewrite decide_False; [ done | ].
        intros [->|?]%elem_of_cons; done.
Qed.

(** X3: whatever the path, also one that visits a node twice, the rules
    come in pairs, one pair for each distinct interior node with the
    switch prefix: a switch met again overwrites its entry instead of
    adding rules. *)
Theorem create_flow_rules_count (self : PathToFlow) (p : list string)
    (flow_id : option string) (prio : Z) :
  let rules := (create_flow_rules self p flow_id prio).1 in
  length rules
  = 2 * size (list_to_set (List.filter (λ n, PyStr.startswith n "s") (interior p))
              : gset string)
  /\ (forall r, r ∈ rules ->
        length (List.filter (λ r', bool_decide (switch r' = switch r)) rules) = 2).
Proof.
  cbv zeta. split; [ apply length_create_flow_rules | ].
  rewrite create_flow_rules_rules. destruct (length p <? 2)%nat.
  - by intros r ?%elem_of_nil.
  - intros r (Hk & _)%elem_of_bind_rule_pair.
    rewrite filter_switch_bind_rule_pair by apply switch_ports_NoDup.
    by rewrite decide_True.
Qed.

(** ** Validation, path search and the registry *)

Lemma zip_linked (G : Graph) (p : list string) :
  (forall e, e ∈ zip p (List.tl p) -> nx.has_edge G e.1 e.2 = true) -> linked G p.
Proof.
  induction p as [|a [|b p] IH]; intros H; [ done | done | ].
  split.
  - apply (H (a, b)). left.
  - apply IH. intros e He. apply H. cbn. by right.
Qed.

(** X12: [validate_path] accepts a path exactly when it has at least two
    nodes, all of them nodes of the graph, consecutive ones joined by an
    edge, and none repeated; its message is then 'Valid path'. *)
Theorem validate_path_accepts_iff (self : PathToFlow) (p : list string) :
  let G := graph (topology_graph self) in
  ((validate_path self p).1 = true
   <-> 2 <= length p
       /\ (forall n, n ∈ p -> nx.has_node G n = true)
       /\ linked G p
       /\ NoDup p)
  /\ ((validate_path self p).1 = true -> validate_path self p = (true, "Valid path")).
Proof.
  cbv zeta. split; [ split | ].
  - intros (Hlen & Hnodes & Hedges & Hnd)%validate_path_true.
    split_and!; try done. by apply zip_linked.
  - intros (Hlen & Hnodes & Hlinked & Hnd).
    by rewrite validate_path_intro.
  - intros (Hlen & Hnodes & Hedges & Hnd)%validate_path_true.
    apply validate_path_intro; try done. by apply zip_linked.
Qed.

Lemma find_path_nonempty (tg : TopologyGraph) (src dst alg : string) :
  graph_wf (graph tg) ->
  find_path tg src dst alg <> [] ->
  nx.has_node (graph tg) src = true /\ nx.has_node (graph tg) dst = true
  /\ head (find_path tg src dst alg) = Some src
  /\ last (find_path tg src dst alg) = Some dst
  /\ linked (graph tg) (find_path tg src dst alg)
  /\ NoDup (find_path tg src dst alg)
  /\ forall n, n ∈ find_path tg src dst alg -> nx.has_node (graph tg) n = true.
Proof.
  intros Hwf Hne.
  destruct (find_path_cases tg src dst alg) as [Hnil | (Hs & Hd & Hsp)]; [ done | ].
  split; [ done | ]. split; [ done | ].
  destruct (decide (src = dst)) as [<-|Hsd].
  - rewrite (shortest_path_same _ _ Hs) in Hsp. injection Hsp as <-.
    split_and!; try done.
    + apply NoDup_singleton.
    + by intros n ->%list_elem_of_singleton.
  - apply shortest_path_sound in Hsp as (? & ? & ? & ? & ?); done.
Qed.

(** X13: on a graph that keeps networkx's invariant, [find_path] with
    the default algorithm returns the empty list exactly when an endpoint
    is absent or the endpoints are not connected; any other result is a
    walk along edges from [src] to [dst] that repeats no node. *)
Theorem find_path_correct (tg : TopologyGraph) (src dst : string) :
  graph_wf (graph tg) ->
  let p := find_path tg src dst "dijkstra" in
  (p = [] <-> nx.has_node (graph tg) src = false \/ nx.has_node (graph tg) dst = false
              \/ ~ connected (graph tg) src dst)
  /\ (p <> [] ->
      head p = Some src /\ last p = Some dst /\ linked (graph tg) p /\ NoDup p
      /\ forall n, n ∈ p -> nx.has_node (graph tg) n = true).
Proof.
  intros Hwf. cbv zeta. split; [ by apply find_path_empty_iff | ].
  intros Hne. by apply find_path_nonempty in Hne as (_ & _ & ?).
Qed.

Lemma hd_head (p : list string) (a : string) : head p = Some a -> List.hd "" p = a.
Proof. destruct p; cbn; congruence. Qed.

Lemma last_last (p : list string) (a : string) : last p = Some a -> List.last p "" = a.
Proof.
  induction p as [|x [|y p] IH]; [ done | cbn; congruence | ].
  intros H. apply IH. exact H.
Qed.

(** X14: flows are independent: creating or deleting the rules of one
    flow id leaves the registry entry of every other flow id, and the
    topology, as they were. *)
Theorem registry_frame (self : PathToFlow) (p : list string) (f g : string) (prio : Z) :
  f <> g ->
  active_flows (create_flow_rules self p (Some f) prio).2 !! g = active_flows self !! g
  /\ active_flows (delete_flow_rules self f).2 !! g = active_flows self !! g
  /\ topology_graph (create_flow_rules self p (Some f) prio).2 = topology_graph self
  /\ topology_graph (delete_flow_rules self f).2 = topology_graph self.
Proof.
  intros Hfg. split_and!.
  - destruct p as [|a [|b p]]; try done. cbn. by apply lookup_insert_ne.
  - destruct (active_flows self !! f) as [rules|] eqn:Hf.
    + rewrite (delete_flow_rules_hit _ _ _ Hf). cbn. by apply lookup_delete_ne.
    + by rewrite (delete_flow_rules_miss _ _ Hf).
  - destruct p as [|a [|b p]]; done.
  - destruct (active_flows self !! f) as [rules|] eqn:Hf.
    + by rewrite (delete_flow_rules_hit _ _ _ Hf).
    + by rewrite (delete_flow_rules_miss _ _ Hf).
Qed.

Lemma switch_ports_topology (s1 s2 : PathToFlow) (p : list string)
    (m : dict (pyval * pyval)) :
  topology_graph s1 = topology_graph s2 -> switch_ports s1 p m = switch_ports s2 p m.
Proof.
  intros Htg. rewrite !switch_ports_foldl.
  assert (forall a b, _get_port_pair s1 a b = _get_port_pair s2 a b) as Hpair.
  { intros a b. unfold _get_port_pair. by rewrite Htg. }
  revert m. induction (switch_hops p) as [|hop hops IH]; intros m; [ done | ].
  cbn [foldl]. rewrite IH. do 2 f_equal.
  unfold ingress_port, egress_port. by rewrite !Hpair.
Qed.

(** X15: without a flow id, the registry key is made of the two
    endpoints of the path only. Two paths with the same endpoints share
    it: creating the second replaces the rules registered for the first,
    which can then no longer be deleted by id. *)
Theorem default_flow_id_shared (self : PathToFlow) (p q : list string) (prio : Z) :
  2 <= length p -> 2 <= length q ->
  head p = head q -> last p = last q ->
  let first := create_flow_rules self p None prio in
  let second := create_flow_rules first.2 q None prio in
  default_flow_id p = default_flow_id q
  /\ second.1 = (create_flow_rules self q None prio).1
  /\ active_flows second.2 = <[default_flow_id q := second.1]> (active_flows self)
  /\ delete_flow_rules second.2 (default_flow_id p)
     = (delete_command <$> second.1,
        mkPathToFlow (topology_graph self)
          (delete (default_flow_id p) (active_flows self))).
Proof.
  intros Hp Hq Hhd Hlast. cbv zeta.
  assert (default_flow_id p = default_flow_id q) as Hid.
  { unfold default_flow_id.
    destruct (head p) as [a|] eqn:Ha; [ | destruct p; cbn in *; [ lia | done ] ].
    destruct (last p) as [b|] eqn:Hb.
    2:{ apply last_None in Hb. subst p. cbn in Hp. lia. }
    rewrite (hd_head p a), (hd_head q a), (last_last p b), (last_last q b); done. }
  assert ((create_flow_rules (create_flow_rules self p None prio).2 q None prio).1
          = (create_flow_rules self q None prio).1) as Hrules.
  { rewrite !create_flow_rules_rules. destruct (length q <? 2)%nat; [ done | ].
    f_equal. apply switch_ports_topology.
    destruct p as [|a [|b p]]; done. }
  split_and!; [ done | done | | ].
  - rewrite (create_flow_rules_registry_eq _ q None prio Hq).
    rewrite (create_flow_rules_registry_eq self p None prio Hp).
    cbn [active_flows flow_id_or_default]. rewrite Hid. apply insert_insert_eq.
  - rewrite (create_flow_rules_registry_eq _ q None prio Hq).
    rewrite (create_flow_rules_registry_eq self p None prio Hp).
    cbn [active_flows flow_id_or_default topology_graph]. rewrite Hid.
    erewrite delete_flow_rules_hit by apply lookup_insert_eq.
    cbn [topology_graph active_flows]. f_equal. f_equal.
    by rewrite delete_insert_eq, delete_insert_eq.
Qed.

Lemma find_path_correct_witness :
  let tg := discovered node_lines_dump in
  graph_wf (graph tg)
  /\ find_path tg "h1" "h2" "dijkstra" = ["h1"; "s1"; "h2"]
  /\ linked (graph tg) (find_path tg "h1" "h2" "dijkstra")
  /\ NoDup (find_path tg "h1" "h2" "dijkstra").
Proof.
  cbv zeta.
  assert (Hwf : graph_wf (graph (discovered node_lines_dump)))
    by apply graph_wf_discovered.
  assert (Hp : find_path (discovered node_lines_dump) "h1" "h2" "dijkstra"
               = ["h1"; "s1"; "h2"]) by (vm_compute; reflexivity).
  split; [ exact Hwf | ]. split; [ exact Hp | ].
  destruct (find_path_correct (discovered node_lines_dump) "h1" "h2" Hwf)
    as [_ Hpath].
  destruct Hpath as (_ & _ & Hlinked & Hnd & _); [ by rewrite Hp | ].
  by split.
Defined.

Lemma registry_frame_witness :
  let self := (create_flow_rules (PathToFlow_init (discovered node_lines_dump))
                 ["h1"; "s1"; "h2"] (Some "f2") 1000).2 in
  "f1" <> "f2"
  /\ active_flows (create_flow_rules self ["h2"; "s1"; "h1"] (Some "f1") 1000).2 !! "f2"
     = active_flows self !! "f2"
  /\ active_flows (delete_flow_rules self "f1").2 !! "f2" = active_flows self !! "f2".
Proof.
  cbv zeta. assert (Hne : "f1" <> "f2") by discriminate.
  split; [ exact Hne | ].
  destruct (registry_frame
              (create_flow_rules (PathToFlow_init (discovered node_lines_dump))
                 ["h1"; "s1"; "h2"] (Some "f2") 1000).2
              ["h2"; "s1"; "h1"] "f1" "f2" 1000 Hne) as (H1 & H2 & _).
  by split.
Defined.

Lemma default_flow_id_shared_witness :
  let self := PathToFlow_init (discovered node_lines_dump) in
  let first := create_flow_rules self ["h1"; "s1"; "h2"] None 1000 in
  let second := create_flow_rules first.2 ["h1"; "s2"; "s1"; "h2"] None 1000 in
  head ["h1"; "s1"; "h2"] = head ["h1"; "s2"; "s1"; "h2"]
  /\ last ["h1"; "s1"; "h2"] = last ["h1"; "s2"; "s1"; "h2"]
  /\ default_flow_id ["h1"; "s1"; "h2"] = default_flow_id ["h1"; "s2"; "s1"; "h2"]
  /\ active_flows second.2 = <[default_flow_id ["h1"; "s2"; "s1"; "h2"] := second.1]>
                               (active_flows self).
Proof.
  cbv zeta. split; [ reflexivity | ]. split; [ reflexivity | ].
  pose proof (default_flow_id_shared (PathToFlow_init (discovered node_lines_dump))
                ["h1"; "s1"; "h2"] ["h1"; "s2"; "s1"; "h2"] 1000) as H.
  cbv zeta in H. destruct H as (H1 & _ & H3 & _); try reflexivity; try (cbn; lia).
  by split.
Defined.

(** ** The interface: [BackendAPI] *)

Section Interface_facts.

Context {World : Type}.
Variable subprocess_run : string -> World -> run_outcome * World.

Lemma generate_ovs_commands_created (self : PathToFlow) (p : list string)
    (flow_id : option string) (prio : Z) :
  generate_ovs_commands (create_flow_rules self p flow_id prio).1 = []
  -> (create_flow_rules self p flow_id prio).1 = [].
Proof.
  unfold generate_ovs_commands. rewrite generate_ovs_commands_all.
  - apply fmap_nil_inv.
  - intros r Hr. by apply create_flow_rules_switch in Hr as [? _].
Qed.

(** [create_path] on a running experiment and a path [validate_path]
    accepts. *)
Lemma create_path_valid (self : BackendAPI) (p : list string) (alg : string) (w : World) :
  is_experiment_running self = true ->
  (validate_path (path_to_flow self) p).1 = true ->
  let id := new_path_id self p in
  let created := create_flow_rules (path_to_flow self) p (Some id) 1000 in
  let ran := execute_commands subprocess_run (ovs_controller self)
               (generate_ovs_commands created.1) w in
  create_path subprocess_run self p alg w
  = match created.1 with
    | [] => (Failed "Failed to create flow rules",
             mkBackendAPI created.2 (ovs_controller self) true (current_topology self)
               (active_paths self), w)
    | _ :: _ =>
        match failures ran.1.1 with
        | [] => (Created id p (length created.1),
                 mkBackendAPI created.2 ran.1.2 true (current_topology self)
                   (<[id := mkPathInfo p created.1 alg]> (active_paths self)), ran.2)
        | (_ :: _) as failed_commands =>
            (FailedCommands ("Failed to install " +:+ str_len failed_commands
                             +:+ " flow rules") failed_commands,
             mkBackendAPI created.2 ran.1.2 true (current_topology self)
               (active_paths self), ran.2)
        end
    end.
Proof.
  intros Hrun Hvalid. cbv zeta. unfold create_path. rewrite Hrun. cbn [negb].
  destruct (validate_path (path_to_flow self) p) as [v msg]. cbn in Hvalid. subst v.
  cbn [negb].
  pose proof (generate_ovs_commands_created (path_to_flow self) p
                (Some (new_path_id self p)) 1000) as Hgen.
  destruct (create_flow_rules (path_to_flow self) p (Some (new_path_id self p)) 1000)
    as [rules conv]. cbn [fst snd] in *.
  destruct rules as [|r rules]; [ done | ].
  destruct (generate_ovs_commands (r :: rules)) as [|c cs] eqn:Hc.
  { by specialize (Hgen eq_refl). }
  cbn [ovs_controller path_to_flow is_experiment_running current_topology active_paths].
  destruct (execute_commands subprocess_run (ovs_controller self) (c :: cs) w)
    as [[results controller] w1]. cbn [fst snd]. unfold failures.
  destruct (List.filter (λ r0, negb (success r0)) results); done.
Qed.


(** What [create_path] does, by cases on the guards it passes. *)
Lemma create_path_cases (self : BackendAPI) (p : list string) (alg : string) (w : World) :
  (is_experiment_running self = false
   /\ create_path subprocess_run self p alg w = (Failed "No experiment running", self, w))
  \/ (is_experiment_running self = true
      /\ (validate_path (path_to_flow self) p).1 = false
      /\ create_path subprocess_run self p alg w
         = (Failed (validate_path (path_to_flow self) p).2, self, w))
  \/ (is_experiment_running self = true
      /\ (validate_path (path_to_flow self) p).1 = true).
Proof.
  destruct (is_experiment_running self) eqn:Hrun.
  - destruct (validate_path (path_to_flow self) p) as [[] msg] eqn:Hv.
    + right; right. done.
    + right; left. split_and!; try done.
      unfold create_path. by rewrite Hrun, Hv.
  - left. split; [ done | ]. unfold create_path. by rewrite Hrun.
Qed.

Lemma failures_nil_success (results : list ExecutionResult) :
  failures results = [] <-> forall r, r ∈ results -> success r = true.
Proof.
  unfold failures. induction results as [|r results IH].
  - split; [ by intros _ r ?%elem_of_nil | done ].
  - cbn [List.filter]. destruct (success r) eqn:Hr; cbn [negb].
    + rewrite IH. split.
      * intros H r' [->|?]%elem_of_cons; [ done | by apply H ].
      * intros H r' Hr'. apply H. by right.
    + split; [ done | ]. intros H. specialize (H r). rewrite Hr in H.
      discriminate H. left.
Qed.

Lemma elem_of_failures (results : list ExecutionResult) (r : ExecutionResult) :
  r ∈ failures results <-> r ∈ results /\ success r = false.
Proof.
  unfold failures. rewrite elem_of_filter_list. destruct (success r); cbn; split; intros []; done.
Qed.

Lemma always_succeeds_failures (self : OVSController) (commands : list string)
    (w : World) :
  always_succeeds subprocess_run ->
  failures (execute_commands subprocess_run self commands w).1.1 = [].
Proof.
  intros Hok. revert self w. induction commands as [|c cs IH]; intros self w.
  - done.
  - rewrite execute_commands_cons. cbv zeta. cbn [fst snd].
    unfold failures. cbn [List.filter].
    replace (success (execute_command subprocess_run self c w).1.1) with true.
    + apply IH.
    + unfold execute_command. destruct (Hok c w) as (out & err & w1 & ->). done.
Qed.

(** X4: [create_path] refuses every path without an interior switch, in
    particular every path of two nodes, also when [validate_path] accepts
    it: the answer is 'Failed to create flow rules', no command is run,
    and an empty rule list stays registered under the new path id. *)
Theorem create_path_without_switch (self : BackendAPI) (p : list string)
    (alg : string) (w : World) :
  is_experiment_running self = true ->
  (validate_path (path_to_flow self) p).1 = true ->
  List.filter (λ n, PyStr.startswith n "s") (interior p) = [] ->
  let out := create_path subprocess_run self p alg w in
  out.1.1 = Failed "Failed to create flow rules"
  /\ out.2 = w
  /\ ovs_controller out.1.2 = ovs_controller self
  /\ active_paths out.1.2 = active_paths self
  /\ active_flows (path_to_flow out.1.2)
     = <[new_path_id self p := []]> (active_flows (path_to_flow self)).
Proof.
  intros Hrun Hvalid Hsw. cbv zeta.
  rewrite (create_path_valid self p alg w Hrun Hvalid). cbv zeta.
  pose proof (length_create_flow_rules (path_to_flow self) p
                (Some (new_path_id self p)) 1000) as Hlen.
  rewrite Hsw in Hlen. cbn in Hlen.
  apply validate_path_true in Hvalid as (Hlen2 & _).
  rewrite (create_flow_rules_registry_eq _ _ _ _ Hlen2).
  destruct (create_flow_rules (path_to_flow self) p (Some (new_path_id self p)) 1000).1
    as [|r rules]; [ done | discriminate Hlen ].
Qed.

(** X5: the answer 'Failed to generate commands' is never given: the
    rules [create_flow_rules] returns are all for switches, so a rule list
    that is not empty always yields commands. *)
Theorem create_path_never_without_commands (self : BackendAPI) (p : list string)
    (alg : string) (w : World) :
  (create_path subprocess_run self p alg w).1.1 <> Failed "Failed to generate commands".
Proof.
  destruct (create_path_cases self p alg w) as [[_ ->] | [(_ & _ & ->) | [Hrun Hvalid]]].
  - done.
  - cbn [fst]. destruct (validate_path_verdicts (path_to_flow self) p)
      as [[-> _] | [[-> _] | [(n & -> & _) | [(a & b & -> & _) | [-> _]]]]]; done.
  - rewrite (create_path_valid self p alg w Hrun Hvalid). cbv zeta.
    destruct (create_flow_rules (path_to_flow self) p (Some (new_path_id self p)) 1000).1;
      [ done | ].
    destruct (failures _); done.
Qed.

(** X6: when a command of [create_path] fails, the path is not recorded
    in [active_paths], but its rules stay registered in [active_flows]
    under the new id, and the failed results are in the execution
    history. [delete_path] does not know that id, so the interface cannot
    remove what was installed. *)
Theorem create_path_failed_install (self self' : BackendAPI) (p : list string)
    (alg error : string) (failed : list ExecutionResult) (w w' : World) :
  create_path subprocess_run self p alg w = (FailedCommands error failed, self', w') ->
  let id := new_path_id self p in
  active_paths self' = active_paths self
  /\ (exists rules, rules <> [] /\ active_flows (path_to_flow self') !! id = Some rules)
  /\ failed <> []
  /\ (forall r, r ∈ failed ->
        success r = false /\ r ∈ executed_commands (ovs_controller self'))
  /\ (active_paths self !! id = None ->
      forall w2, delete_path subprocess_run self' id w2
                 = (Failed "Path not found", self', w2)).
Proof.
  intros Hcreate. cbv zeta.
  destruct (create_path_cases self p alg w) as [[_ H] | [(_ & _ & H) | [Hrun Hvalid]]];
    [ by rewrite H in Hcreate | by rewrite H in Hcreate | ].
  rewrite (create_path_valid self p alg w Hrun Hvalid) in Hcreate. cbv zeta in Hcreate.
  pose proof (validate_path_true _ _ Hvalid) as (Hlen2 & _).
  rewrite (create_flow_rules_registry_eq _ _ _ _ Hlen2) in Hcreate.
  destruct (create_flow_rules (path_to_flow self) p (Some (new_path_id self p)) 1000).1
    as [|r rules] eqn:Hrules; [ done | ].
  destruct (failures (execute_commands subprocess_run (ovs_controller self)
                        (generate_ovs_commands (r :: rules)) w).1.1)
    as [|f fs] eqn:Hfail; [ done | ].
  injection Hcreate as <- <- <- <-.
  cbn [active_paths path_to_flow active_flows ovs_controller].
  split_and!.
  - done.
  - exists (r :: rules). split; [ done | ]. cbn. apply lookup_insert_eq.
  - done.
  - intros r0 Hr0. rewrite <- Hfail in Hr0. apply elem_of_failures in Hr0 as [Hin Hs].
    split; [ done | ].
    rewrite execute_commands_history. apply elem_of_app. by right.
  - intros Hnone w2. unfold delete_path. cbn [active_paths]. by rewrite Hnone.
Qed.

(** X7: what a successful [create_path] leaves behind: the returned id
    is the new path id, both registries hold the created rules under it,
    and the commands run are those of [generate_ovs_commands], in order,
    all reported successful. *)
Theorem create_path_created (self self' : BackendAPI) (p p' : list string)
    (alg id : string) (n : nat) (w w' : World) :
  create_path subprocess_run self p alg w = (Created id p' n, self', w') ->
  let rules := (create_flow_rules (path_to_flow self) p (Some id) 1000).1 in
  id = new_path_id self p /\ p' = p /\ n = length rules /\ 0 < n
  /\ active_paths self' = <[id := mkPathInfo p rules alg]> (active_paths self)
  /\ active_flows (path_to_flow self') = <[id := rules]> (active_flows (path_to_flow self))
  /\ exists results,
       executed_commands (ovs_controller self')
       = executed_commands (ovs_controller self) ++ results
       /\ command <$> results = generate_ovs_commands rules
       /\ forall r, r ∈ results -> success r = true.
Proof.
  intros Hcreate.
  destruct (create_path_cases self p alg w) as [[_ H] | [(_ & _ & H) | [Hrun Hvalid]]];
    [ by rewrite H in Hcreate | by rewrite H in Hcreate | ].
  rewrite (create_path_valid self p alg w Hrun Hvalid) in Hcreate. cbv zeta in Hcreate.
  pose proof (validate_path_true _ _ Hvalid) as (Hlen2 & _).
  rewrite (create_flow_rules_registry_eq _ _ _ _ Hlen2) in Hcreate.
  destruct (create_flow_rules (path_to_flow self) p (Some (new_path_id self p)) 1000).1
    as [|r rules] eqn:Hrules; [ done | ].
  destruct (failures (execute_commands subprocess_run (ovs_controller self)
                        (generate_ovs_commands (r :: rules)) w).1.1)
    as [|f fs] eqn:Hfail; [ | done ].
  injection Hcreate as <- <- <- <- <-. cbv zeta. rewrite Hrules.
  cbn [active_paths path_to_flow active_flows ovs_controller flow_id_or_default].
  split_and!; try done.
  - cbn. lia.
  - eexists. split_and!.
    + apply execute_commands_history.
    + apply execute_commands_names.
    + by apply failures_nil_success.
Qed.

Lemma validate_path_topology (s1 s2 : PathToFlow) (p : list string) :
  topology_graph s1 = topology_graph s2 -> validate_path s1 p = validate_path s2 p.
Proof. unfold validate_path. by intros ->. Qed.

Lemma topology_graph_create_flow_rules (self : PathToFlow) (p : list string)
    (flow_id : option string) (prio : Z) :
  topology_graph (create_flow_rules self p flow_id prio).2 = topology_graph self.
Proof. destruct p as [|a [|b p]]; done. Qed.

Lemma topology_graph_delete_flow_rules (self : PathToFlow) (f : string) :
  topology_graph (delete_flow_rules self f).2 = topology_graph self.
Proof.
  destruct (active_flows self !! f) as [rules|] eqn:Hf.
  - by rewrite (delete_flow_rules_hit _ _ _ Hf).
  - by rewrite (delete_flow_rules_miss _ _ Hf).
Qed.

(** [create_path] when every command succeeds and the path has an
    interior switch. *)
Lemma create_path_succeeds (self : BackendAPI) (p : list string) (alg : string)
    (w : World) :
  always_succeeds subprocess_run ->
  is_experiment_running self = true ->
  (validate_path (path_to_flow self) p).1 = true ->
  List.filter (λ n, PyStr.startswith n "s") (interior p) <> [] ->
  exists self' w' info,
    create_path subprocess_run self p alg w
    = (Created (new_path_id self p) p
         (2 * size (list_to_set (List.filter (λ n, PyStr.startswith n "s") (interior p))
                    : gset string)), self', w')
    /\ is_experiment_running self' = true
    /\ topology_graph (path_to_flow self') = topology_graph (path_to_flow self)
    /\ pi_path info = p
    /\ active_paths self' = <[new_path_id self p := info]> (active_paths self).
Proof.
  intros Hok Hrun Hvalid Hsw.
  rewrite (create_path_valid self p alg w Hrun Hvalid). cbv zeta.
  rewrite always_succeeds_failures by done.
  pose proof (length_create_flow_rules (path_to_flow self) p
                (Some (new_path_id self p)) 1000) as Hlen.
  pose proof (topology_graph_create_flow_rules (path_to_flow self) p
                (Some (new_path_id self p)) 1000) as Htg.
  destruct (create_flow_rules (path_to_flow self) p (Some (new_path_id self p)) 1000)
    as [rules conv]. cbn [fst snd] in *.
  destruct rules as [|r rules].
  - exfalso. apply Hsw. cbn in Hlen.
    destruct (List.filter _ (interior p)) as [|x l]; [ done | ].
    rewrite list_to_set_cons in Hlen.
    assert (size ({[x]} ∪ list_to_set l : gset string) <> 0); [ | lia ].
    apply size_non_empty_iff. set_solver.
  - rewrite <- Hlen. do 3 eexists. split_and!; [ done | done | done | | done ]. done.
Qed.

(** [delete_path] when every command succeeds. *)
Lemma delete_path_succeeds (self : BackendAPI) (id : string) (info : PathInfo)
    (w : World) :
  always_succeeds subprocess_run ->
  active_paths self !! id = Some info ->
  exists self' w',
    delete_path subprocess_run self id w = (Deleted id (pi_path info), self', w')
    /\ is_experiment_running self' = is_experiment_running self
    /\ topology_graph (path_to_flow self') = topology_graph (path_to_flow self)
    /\ path_to_flow self' = (delete_flow_rules (path_to_flow self) id).2
    /\ executed_commands (ovs_controller self')
       = executed_commands (ovs_controller self)
         ++ (execute_commands subprocess_run (ovs_controller self)
               (delete_flow_rules (path_to_flow self) id).1 w).1.1
    /\ active_paths self' = delete id (active_paths self).
Proof.
  intros Hok Hinfo. unfold delete_path. rewrite Hinfo.
  pose proof (topology_graph_delete_flow_rules (path_to_flow self) id) as Htg.
  destruct (delete_flow_rules (path_to_flow self) id) as [commands conv].
  cbn [fst snd] in *.
  pose proof (always_succeeds_failures (ovs_controller self) commands w Hok) as Hfail.
  pose proof (execute_commands_history subprocess_run (ovs_controller self) commands w)
    as Hhist.
  destruct (execute_commands subprocess_run (ovs_controller self) commands w)
    as [[results controller] w1]. cbn [fst snd] in *. unfold failures in Hfail.
  rewrite Hfail. do 2 eexists. split_and!; done.
Qed.

(** X8: deleting a path that was created, with every command
    succeeding, undoes both registrations and runs one delete command for
    each rule of the path. *)
Theorem delete_path_after_create (self self1 : BackendAPI) (p : list string)
    (alg id : string) (n : nat) (w w1 w2 : World) :
  always_succeeds subprocess_run ->
  create_path subprocess_run self p alg w = (Created id p n, self1, w1) ->
  let rules := (create_flow_rules (path_to_flow self) p (Some id) 1000).1 in
  let out := delete_path subprocess_run self1 id w2 in
  out.1.1 = Deleted id p
  /\ active_paths out.1.2 = delete id (active_paths self)
  /\ active_flows (path_to_flow out.1.2) = delete id (active_flows (path_to_flow self))
  /\ exists results,
       executed_commands (ovs_controller out.1.2)
       = executed_commands (ovs_controller self1) ++ results
       /\ command <$> results = delete_command <$> rules
       /\ length results = n.
Proof.
  intros Hok Hcreate.
  destruct (create_path_cases self p alg w) as [[_ H] | [(_ & _ & H) | [Hrun Hvalid]]];
    [ by rewrite H in Hcreate | by rewrite H in Hcreate | ].
  pose proof Hcreate as Hc.
  rewrite (create_path_valid self p alg w Hrun Hvalid) in Hc. cbv zeta in Hc.
  pose proof (validate_path_true _ _ Hvalid) as (Hlen2 & _).
  rewrite (create_flow_rules_registry_eq _ _ _ _ Hlen2) in Hc.
  destruct (create_flow_rules (path_to_flow self) p (Some (new_path_id self p)) 1000).1
    as [|r rules] eqn:Hrules; [ done | ].
  destruct (failures (execute_commands subprocess_run (ovs_controller self)
                        (generate_ovs_commands (r :: rules)) w).1.1)
    as [|f fs] eqn:Hfail; [ | done ].
  injection Hc as <- <- <- <-. cbv zeta. rewrite Hrules.
  set (self1 := mkBackendAPI _ _ _ _ _).
  assert (active_paths self1 !! new_path_id self p
          = Some (mkPathInfo p (r :: rules) alg)) as Hinfo
    by apply lookup_insert_eq.
  assert (active_flows (path_to_flow self1) !! new_path_id self p = Some (r :: rules))
    as Hflows by apply lookup_insert_eq.
  destruct (delete_path_succeeds self1 _ _ w2 Hok Hinfo)
    as (self2 & w3 & -> & _ & _ & Hconv & Hhist & Hpaths).
  cbn [fst snd]. rewrite (delete_flow_rules_hit _ _ _ Hflows) in Hconv, Hhist.
  cbn [fst snd] in Hconv, Hhist. split_and!.
  - done.
  - rewrite Hpaths. apply delete_insert_eq.
  - rewrite Hconv. cbn. apply delete_insert_eq.
  - eexists. split_and!; [ exact Hhist | apply execute_commands_names | ].
    rewrite <- (length_fmap command), execute_commands_names. by rewrite length_fmap.
Qed.

(** X9: when a command of [delete_path] fails, the rules are already
    gone from [active_flows] while the path stays in [active_paths]; a
    second [delete_path] for the same id then runs no command at all and
    answers that the path was deleted. *)
Theorem delete_path_retry (self self' : BackendAPI) (id error : string)
    (failed : list ExecutionResult) (w w' : World) :
  delete_path subprocess_run self id w = (FailedCommands error failed, self', w') ->
  exists info,
    active_paths self !! id = Some info
    /\ active_paths self' = active_paths self
    /\ active_flows (path_to_flow self') !! id = None
    /\ forall w2,
         delete_path subprocess_run self' id w2
         = (Deleted id (pi_path info),
            mkBackendAPI (path_to_flow self') (ovs_controller self')
              (is_experiment_running self') (current_topology self')
              (delete id (active_paths self')),
            w2).
Proof.
  unfold delete_path at 1. destruct (active_paths self !! id) as [info|] eqn:Hinfo;
    [ | done ].
  destruct (active_flows (path_to_flow self) !! id) as [rules|] eqn:Hflows.
  - rewrite (delete_flow_rules_hit _ _ _ Hflows).
    destruct (execute_commands subprocess_run (ovs_controller self)
                (delete_command <$> rules) w) as [[results controller] w1].
    destruct (List.filter (λ r, negb (success r)) results) as [|f fs]; [ done | ].
    intros [= <- <- <- <-]. exists info.
    cbn [active_paths path_to_flow active_flows ovs_controller
           is_experiment_running current_topology].
    split_and!; [ done | done | apply lookup_delete_eq | ].
    intros w2. unfold delete_path. cbn [active_paths]. rewrite Hinfo.
    rewrite delete_flow_rules_miss by apply lookup_delete_eq. done.
  - rewrite (delete_flow_rules_miss _ _ Hflows). done.
Qed.

Lemma append_inj_r (s x y : string) : s +:+ x = s +:+ y -> x = y.
Proof. induction s as [|c s IH]; cbn; [ done | ]. intros [= H]. by apply IH. Qed.

Lemma new_path_id_size (self1 self2 : BackendAPI) (p : list string) :
  size (active_paths self1) = size (active_paths self2) ->
  new_path_id self1 p = new_path_id self2 p.
Proof. unfold new_path_id. by intros ->. Qed.

Lemma new_path_id_first_second (self1 self2 : BackendAPI) (p : list string) :
  size (active_paths self1) = 0 -> size (active_paths self2) = 1 ->
  new_path_id self1 p <> new_path_id self2 p.
Proof.
  unfold new_path_id. intros -> -> H. do 5 apply append_inj_r in H.
  vm_compute in H. discriminate H.
Qed.

(** X10: path ids are reused. With every command succeeding, create a
    path twice, delete the first and create it again: the third path gets
    the id of the second, which is still active, and replaces its record,
    so that one active path is left for two that are installed. *)
Theorem path_id_reused (self : BackendAPI) (p : list string) (alg : string) (w : World) :
  always_succeeds subprocess_run ->
  is_experiment_running self = true ->
  active_paths self = ∅ ->
  (validate_path (path_to_flow self) p).1 = true ->
  List.filter (λ n, PyStr.startswith n "s") (interior p) <> [] ->
  let first := create_path subprocess_run self p alg w in
  let second := create_path subprocess_run first.1.2 p alg first.2 in
  let removed := delete_path subprocess_run second.1.2 (new_path_id self p) second.2 in
  let third := create_path subprocess_run removed.1.2 p alg removed.2 in
  exists id0 id1 n,
    id0 <> id1
    /\ first.1.1 = Created id0 p n
    /\ second.1.1 = Created id1 p n
    /\ removed.1.1 = Deleted id0 p
    /\ third.1.1 = Created id1 p n
    /\ dom (active_paths third.1.2) = {[id1]}.
Proof.
  intros Hok Hrun Hempty Hvalid Hsw. cbv zeta.
  destruct (create_path_succeeds self p alg w Hok Hrun Hvalid Hsw)
    as (s1 & w1 & i1 & -> & Hrun1 & Htg1 & Hp1 & Hpaths1).
  cbn [fst snd].
  assert ((validate_path (path_to_flow s1) p).1 = true) as Hvalid1.
  { by rewrite (validate_path_topology _ (path_to_flow self)). }
  destruct (create_path_succeeds s1 p alg w1 Hok Hrun1 Hvalid1 Hsw)
    as (s2 & w2 & i2 & -> & Hrun2 & Htg2 & Hp2 & Hpaths2).
  cbn [fst snd].
  assert (size (active_paths self) = 0) as Hsize0 by (by rewrite Hempty).
  assert (size (active_paths s1) = 1) as Hsize1.
  { rewrite Hpaths1, Hempty, map_size_insert_None by apply lookup_empty.
    by rewrite map_size_empty. }
  pose proof (new_path_id_first_second self s1 p Hsize0 Hsize1) as Hne.
  assert (active_paths s2 !! new_path_id self p = Some i1) as Hlook.
  { rewrite Hpaths2, lookup_insert_ne by done. rewrite Hpaths1. apply lookup_insert_eq. }
  destruct (delete_path_succeeds s2 _ _ w2 Hok Hlook)
    as (s3 & w3 & -> & Hrun3 & Htg3 & _ & _ & Hpaths3).
  cbn [fst snd].
  assert (active_paths s3 = {[new_path_id s1 p := i2]}) as Hs3.
  { rewrite Hpaths3, Hpaths2, delete_insert_ne by done.
    rewrite Hpaths1, Hempty. by rewrite delete_insert_id. }
  assert ((validate_path (path_to_flow s3) p).1 = true) as Hvalid3.
  { rewrite (validate_path_topology _ (path_to_flow self)); [ done | congruence ]. }
  assert (is_experiment_running s3 = true) as Hrun3' by congruence.
  destruct (create_path_succeeds s3 p alg w3 Hok Hrun3' Hvalid3 Hsw)
    as (s4 & w4 & i4 & -> & _ & _ & _ & Hpaths4).
  cbn [fst snd].
  assert (new_path_id s3 p = new_path_id s1 p) as Hid.
  { apply new_path_id_size. rewrite Hs3, Hsize1. by rewrite map_size_singleton. }
  exists (new_path_id self p), (new_path_id s1 p). eexists.
  split_and!; try done.
  - by rewrite Hp1.
  - by rewrite Hid.
  - rewrite Hpaths4, Hid, Hs3. rewrite dom_insert_L, dom_singleton_L. set_solver.
Qed.

(** X16: [BackendAPI.calculate_path] answers with a path exactly when an
    experiment is running, the algorithm is 'dijkstra', both endpoints
    are nodes of the graph and they are connected; every other algorithm
    name is answered 'Failed to calculate path'. *)
Theorem calculate_path_answers (self : BackendAPI) (src dst alg : string) :
  let G := graph (topology_graph (path_to_flow self)) in
  graph_wf G ->
  ((exists p, BackendAPI_calculate_path self src dst alg = Calculated p alg)
   <-> is_experiment_running self = true /\ alg = "dijkstra"
       /\ nx.has_node G src = true /\ nx.has_node G dst = true /\ connected G src dst)
  /\ (is_experiment_running self = true -> alg <> "dijkstra" ->
      BackendAPI_calculate_path self src dst alg = Failed "Failed to calculate path").
Proof.
  cbv zeta. intros Hwf.
  assert (alg <> "dijkstra" ->
          find_path (topology_graph (path_to_flow self)) src dst alg = []) as Hother.
  { intros Halg. unfold find_path.
    destruct (negb _ || negb _); [ done | ]. by rewrite decide_False. }
  unfold BackendAPI_calculate_path, calculate_path. split.
  - destruct (is_experiment_running self); cbn [negb].
    2:{ split; [ by intros [p ?] | by intros [? _] ]. }
    destruct (decide (alg = "dijkstra")) as [->|Halg].
    + pose proof (find_path_empty_iff (topology_graph (path_to_flow self)) src dst Hwf)
        as Hiff.
      destruct (find_path (topology_graph (path_to_flow self)) src dst "dijkstra")
        as [|a p] eqn:Hp.
      * split; [ by intros [p ?] | ]. intros (_ & _ & Hs & Hd & Hc).
        destruct Hiff as [Hiff _]. destruct (Hiff eq_refl) as [H | [H | H]];
          [ congruence | congruence | done ].
      * split; [ | by eexists ]. intros _.
        assert (find_path (topology_graph (path_to_flow self)) src dst "dijkstra" <> [])
          as Hne by (by rewrite Hp).
        apply find_path_nonempty in Hne as (Hs & Hd & Hhd & Hlast & Hlinked & _);
          [ | done ].
        split_and!; try done. by eexists.
    + rewrite (Hother Halg). split; [ by intros [p ?] | by intros (_ & ? & _) ].
  - intros -> Halg. cbn [negb]. by rewrite (Hother Halg).
Qed.

End Interface_facts.

Section Teardown_facts.

Context {World : Type}.
Variable subprocess_run : string -> World -> run_outcome * World.
Variable stop_mininet : World -> (bool * string) * World.

(** X11: [stop_experiment] on a running experiment always answers that
    the experiment stopped, whatever [stop_mininet] reports: it tests the
    pair [stop_mininet] returns, not the flag inside. It runs one
    del-flows command per node with the switch prefix, empties
    [active_paths] and keeps the rules registered in [active_flows]. *)
Theorem stop_experiment_always_stops (self : BackendAPI) (w : World) :
  is_experiment_running self = true ->
  let out := stop_experiment subprocess_run stop_mininet self w in
  out.1.1 = Stopped "Experiment stopped"
  /\ is_experiment_running out.1.2 = false
  /\ current_topology out.1.2 = None
  /\ active_paths out.1.2 = ∅
  /\ path_to_flow out.1.2 = path_to_flow self
  /\ exists results,
       executed_commands (ovs_controller out.1.2)
       = executed_commands (ovs_controller self) ++ results
       /\ command <$> results
          = (λ sw, "sudo ovs-ofctl del-flows " +:+ sw)
            <$> List.filter (λ node, PyStr.startswith node "s")
                  (nx.nodes (graph (topology_graph (path_to_flow self)))).
Proof.
  intros Hrun. cbv zeta. unfold stop_experiment. rewrite Hrun. cbn [negb].
  destruct (List.filter (λ node, PyStr.startswith node "s")
              (nx.nodes (graph (topology_graph (path_to_flow self))))) as [|sw sws].
  - destruct (stop_mininet w) as [flag w1]. cbn.
    split_and!; try done. exists []. by rewrite app_nil_r.
  - unfold clear_all_flows.
    pose proof (execute_commands_history subprocess_run (ovs_controller self)
                  ((λ sw, "sudo ovs-ofctl del-flows " +:+ sw) <$> sw :: sws) w) as Hhist.
    pose proof (execute_commands_names subprocess_run (ovs_controller self)
                  ((λ sw, "sudo ovs-ofctl del-flows " +:+ sw) <$> sw :: sws) w) as Hnames.
    destruct (execute_commands subprocess_run (ovs_controller self)
                ((λ sw, "sudo ovs-ofctl del-flows " +:+ sw) <$> sw :: sws) w)
      as [[results controller] w1].
    destruct (stop_mininet w1) as [flag w2]. cbn [fst snd] in *. cbn.
    split_and!; try done. by exists results.
Qed.

End Teardown_facts.

Lemma create_path_without_switch_witness :
  is_experiment_running (running_on node_lines_dump) = true
  /\ validate_path (path_to_flow (running_on node_lines_dump)) ["h1"; "s1"]
     = (true, "Valid path")
  /\ List.filter (λ n, PyStr.startswith n "s") (interior ["h1"; "s1"]) = []
  /\ (create_path shell_ok (running_on node_lines_dump) ["h1"; "s1"] "manual" tt).1.1
     = Failed "Failed to create flow rules".
Proof.
  assert (H1 : is_experiment_running (running_on node_lines_dump) = true)
    by reflexivity.
  assert (H2 : validate_path (path_to_flow (running_on node_lines_dump)) ["h1"; "s1"]
               = (true, "Valid path")) by (vm_compute; reflexivity).
  assert (H3 : List.filter (λ n, PyStr.startswith n "s") (interior ["h1"; "s1"]) = [])
    by reflexivity.
  split_conj; try assumption.
  refine (proj1 (create_path_without_switch shell_ok (running_on node_lines_dump)
                   ["h1"; "s1"] "manual" tt H1 _ H3)).
  by rewrite H2.
Defined.

Lemma create_path_failed_install_witness :
  exists error failed self',
    create_path shell_refuses (running_on node_lines_dump) ["h1"; "s1"; "h2"] "manual" tt
    = (FailedCommands error failed, self', tt)
    /\ active_paths self' = ∅
    /\ delete_path shell_refuses self' "path_h1_h2_0" tt
       = (Failed "Path not found", self', tt).
Proof.
  assert (exists error failed self',
            create_path shell_refuses (running_on node_lines_dump)
              ["h1"; "s1"; "h2"] "manual" tt
            = (FailedCommands error failed, self', tt)) as (e & f & s & H).
  { do 3 eexists. vm_compute. reflexivity. }
  exists e, f, s. split; [ exact H | ].
  pose proof (create_path_failed_install shell_refuses _ _ _ _ _ _ _ _ H) as HX.
  cbv zeta in HX. destruct HX as (Hpaths & _ & _ & _ & Hdel).
  split; [ exact Hpaths | ]. apply Hdel. reflexivity.
Defined.

Lemma create_path_created_witness :
  exists self',
    create_path shell_ok (running_on node_lines_dump) ["h1"; "s1"; "h2"] "manual" tt
    = (Created "path_h1_h2_0" ["h1"; "s1"; "h2"] 2, self', tt)
    /\ command <$> executed_commands (ovs_controller self')
       = [ "sudo ovs-ofctl add-flow s1 'in_port=1,priority=1000,actions=output:2'";
           "sudo ovs-ofctl add-flow s1 'in_port=2,priority=1000,actions=output:1'" ]
    /\ dom (active_paths self') = {["path_h1_h2_0"]}.
Proof.
  assert (exists self',
            create_path shell_ok (running_on node_lines_dump)
              ["h1"; "s1"; "h2"] "manual" tt
            = (Created "path_h1_h2_0" ["h1"; "s1"; "h2"] 2, self', tt)) as (s & H).
  { eexists. vm_compute. reflexivity. }
  exists s. split; [ exact H | ].
  pose proof (create_path_created shell_ok _ _ _ _ _ _ _ _ _ H) as HX.
  cbv zeta in HX. destruct HX as (_ & _ & _ & _ & Hpaths & _ & results & Hhist & Hnames & _).
  split.
  - rewrite Hhist. cbn [executed_commands running_on ovs_controller OVSController_init app].
    rewrite Hnames. vm_compute. reflexivity.
  - rewrite Hpaths. cbn [running_on active_paths]. rewrite dom_insert_L, dom_empty_L.
    apply union_empty_r_L.
Defined.

Lemma always_succeeds_shell_ok : always_succeeds shell_ok.
Proof. intros c w. by exists "", "", w. Defined.

Lemma delete_path_after_create_witness :
  exists self1,
    always_succeeds shell_ok
    /\ create_path shell_ok (running_on node_lines_dump) ["h1"; "s1"; "h2"] "manual" tt
       = (Created "path_h1_h2_0" ["h1"; "s1"; "h2"] 2, self1, tt)
    /\ (delete_path shell_ok self1 "path_h1_h2_0" tt).1.1
       = Deleted "path_h1_h2_0" ["h1"; "s1"; "h2"].
Proof.
  assert (exists self',
            create_path shell_ok (running_on node_lines_dump)
              ["h1"; "s1"; "h2"] "manual" tt
            = (Created "path_h1_h2_0" ["h1"; "s1"; "h2"] 2, self', tt)) as (s & H).
  { eexists. vm_compute. reflexivity. }
  exists s. split; [ exact always_succeeds_shell_ok | ]. split; [ exact H | ].
  exact (proj1 (delete_path_after_create shell_ok _ _ _ _ _ _ _ _ tt
                  always_succeeds_shell_ok H)).
Defined.

Lemma delete_path_retry_witness :
  let self1 := (create_path shell_ok (running_on node_lines_dump)
                  ["h1"; "s1"; "h2"] "manual" tt).1.2 in
  exists error failed self2 path,
    delete_path shell_refuses self1 "path_h1_h2_0" tt
    = (FailedCommands error failed, self2, tt)
    /\ active_flows (path_to_flow self2) !! "path_h1_h2_0" = None
    /\ (delete_path shell_refuses self2 "path_h1_h2_0" tt).1.1
       = Deleted "path_h1_h2_0" path.
Proof.
  cbv zeta.
  assert (exists error failed self2,
            delete_path shell_refuses
              (create_path shell_ok (running_on node_lines_dump)
                 ["h1"; "s1"; "h2"] "manual" tt).1.2 "path_h1_h2_0" tt
            = (FailedCommands error failed, self2, tt)) as (e & f & s & H).
  { do 3 eexists. vm_compute. reflexivity. }
  destruct (delete_path_retry shell_refuses _ _ _ _ _ _ _ H)
    as (info & _ & _ & Hflows & Hagain).
  exists e, f, s, (pi_path info). split; [ exact H | ]. split; [ exact Hflows | ].
  by rewrite Hagain.
Defined.

Lemma path_id_reused_witness :
  let self := running_on node_lines_dump in
  let p := ["h1"; "s1"; "h2"] in
  let first := create_path shell_ok self p "manual" tt in
  let second := create_path shell_ok first.1.2 p "manual" first.2 in
  let removed := delete_path shell_ok second.1.2 (new_path_id self p) second.2 in
  let third := create_path shell_ok removed.1.2 p "manual" removed.2 in
  always_succeeds shell_ok
  /\ (validate_path (path_to_flow self) p).1 = true
  /\ exists id0 id1 n,
       id0 <> id1
       /\ first.1.1 = Created id0 p n
       /\ second.1.1 = Created id1 p n
       /\ removed.1.1 = Deleted id0 p
       /\ third.1.1 = Created id1 p n
       /\ dom (active_paths third.1.2) = {[id1]}.
Proof.
  cbv zeta.
  assert (H1 : (validate_path (path_to_flow (running_on node_lines_dump))
                  ["h1"; "s1"; "h2"]).1 = true) by (vm_compute; reflexivity).
  split; [ exact always_succeeds_shell_ok | ]. split; [ exact H1 | ].
  apply (path_id_reused shell_ok (running_on node_lines_dump) ["h1"; "s1"; "h2"]
           "manual" tt always_succeeds_shell_ok); try reflexivity; try assumption.
  discriminate.
Defined.

Lemma stop_experiment_always_stops_witness :
  is_experiment_running (running_on node_lines_dump) = true
  /\ (teardown_fails tt).1.1 = false
  /\ (stop_experiment shell_ok teardown_fails (running_on node_lines_dump) tt).1.1
     = Stopped "Experiment stopped".
Proof.
  split; [ reflexivity | ]. split; [ reflexivity | ].
  exact (proj1 (stop_experiment_always_stops shell_ok teardown_fails
                  (running_on node_lines_dump) tt eq_refl)).
Defined.

Lemma calculate_path_answers_witness :
  let self := running_on node_lines_dump in
  let G := graph (topology_graph (path_to_flow self)) in
  graph_wf G
  /\ BackendAPI_calculate_path self "h1" "h2" "dijkstra"
     = Calculated ["h1"; "s1"; "h2"] "dijkstra"
  /\ connected G "h1" "h2".
Proof.
  cbv zeta.
  assert (Hwf : graph_wf (graph (topology_graph
                   (path_to_flow (running_on node_lines_dump)))))
    by apply graph_wf_discovered.
  assert (Hp : BackendAPI_calculate_path (running_on node_lines_dump) "h1" "h2" "dijkstra"
               = Calculated ["h1"; "s1"; "h2"] "dijkstra") by (vm_compute; reflexivity).
  split; [ exact Hwf | ]. split; [ exact Hp | ].
  destruct (calculate_path_answers (running_on node_lines_dump) "h1" "h2" "dijkstra" Hwf)
    as [[Hto _] _].
  destruct Hto as (_ & _ & _ & _ & Hc); [ by eexists | exact Hc ].
Defined.

(** ** Polling the console *)

Lemma extract_topology_round_false (text : string) (tg : TopologyGraph) :
  (extract_topology_round text tg).1 = false ->
  graph (extract_topology_round text tg).2 = graph tg
  /\ port_mapping (extract_topology_round text tg).2 = port_mapping tg
  /\ raw_links (extract_topology_round text tg).2 = raw_links tg.
Proof.
  unfold extract_topology_round. destruct (decide (text = "")); [ done | ].
  destruct (switches (_parse_net_output text)); done.
Qed.

Lemma extract_topology_round_true (text : string) (tg : TopologyGraph) :
  (extract_topology_round text tg).1 = true ->
  (extract_topology_round text tg).2 = discovered text
  /\ net_output (extract_topology_round text tg).2 = text
  /\ switches (_parse_net_output text) <> [].
Proof.
  unfold discovered, extract_topology_round.
  destruct (decide (text = "")); [ done | ].
  destruct (switches (_parse_net_output text)) as [|sw sws]; [ done | ].
  intros _. cbn [fst snd]. unfold _build_complete_graph, _build_port_mapping.
  cbn [graph port_mapping net_output raw_links].
  split; [ | split; [ | done ] ].
  - by destruct (port_mapping_body _).
  - by destruct (port_mapping_body _).
Qed.

Section Console_facts.

Context {World : Type}.
Variable send_command : string -> Q -> World -> string * World.
Variable time_sleep : Q -> World -> World.

Lemma get_net_attempts_text (attempts : nat) (w : World) :
  (get_net_attempts send_command time_sleep attempts w).1 = ""
  \/ PyStr.contains "eth" (get_net_attempts send_command time_sleep attempts w).1
     || PyStr.contains "lo:" (get_net_attempts send_command time_sleep attempts w).1
     = true.
Proof.
  revert w. induction attempts as [|n IH]; intros w; [ by left | ].
  cbn [get_net_attempts]. destruct (send_command "" (1 # 2)%Q w) as [check w1].
  destruct (str_bool check && PyStr.contains "mininet>" check); [ | apply IH ].
  destruct (send_command "net" 2%Q w1) as [output w2].
  destruct (str_bool output) eqn:Hb; cbn [andb]; [ | apply IH ].
  destruct (PyStr.contains "eth" output || PyStr.contains "lo:" output) eqn:Hc;
    [ | apply IH ].
  by right.
Qed.

(** X17: when [extract_topology_from_mininet] gives up, after at most 30
    rounds, the graph, the port mapping and the raw link list are the ones
    it started with: a failed discovery leaves the previous topology in
    place, whatever the console showed. *)
Theorem extract_topology_failure_keeps_model (tg : TopologyGraph) (w : World) :
  let out := extract_topology_from_mininet send_command time_sleep tg w in
  out.1.1 = false ->
  graph out.1.2 = graph tg
  /\ port_mapping out.1.2 = port_mapping tg
  /\ raw_links out.1.2 = raw_links tg.
Proof.
  cbv zeta. unfold extract_topology_from_mininet. generalize 30.
  intros n. revert tg w. induction n as [|n IH]; intros tg w; [ done | ].
  cbn [extract_topology_loop].
  destruct (_check_session_exists send_command w) as [session w1].
  destruct session; cbn [negb]; [ | apply IH ].
  destruct (_get_net_from_mininet send_command time_sleep w1) as [out w2].
  pose proof (extract_topology_round_false out tg) as Hround.
  destruct (extract_topology_round out tg) as [[] tg1]; [ done | ].
  cbn [fst snd] in Hround. destruct (Hround eq_refl) as (Hg & Hp & Hr).
  intros Hfail. destruct (IH tg1 (time_sleep 1%Q w2) Hfail) as (Hg' & Hp' & Hr').
  split_and!; congruence.
Qed.

(** X18: when [extract_topology_from_mininet] succeeds, the whole model
    is the one built from the console text it stored last, as if on a
    fresh object: nothing of the previous topology is left. That text
    holds 'eth' or 'lo:', and parsing it yields at least one switch. *)
Theorem extract_topology_success_is_fresh (tg : TopologyGraph) (w : World) :
  let out := extract_topology_from_mininet send_command time_sleep tg w in
  out.1.1 = true ->
  out.1.2 = discovered (net_output out.1.2)
  /\ switches (_parse_net_output (net_output out.1.2)) <> []
  /\ raw_links out.1.2 = links (_parse_net_output (net_output out.1.2))
  /\ PyStr.contains "eth" (net_output out.1.2)
     || PyStr.contains "lo:" (net_output out.1.2) = true
  /\ graph_wf (graph out.1.2).
Proof.
  cbv zeta. unfold extract_topology_from_mininet. generalize 30.
  intros n. revert tg w. induction n as [|n IH]; intros tg w; [ done | ].
  cbn [extract_topology_loop].
  destruct (_check_session_exists send_command w) as [session w1].
  destruct session; cbn [negb]; [ | apply IH ].
  pose proof (get_net_attempts_text 3 w1) as Htext.
  unfold _get_net_from_mininet.
  destruct (get_net_attempts send_command time_sleep 3 w1) as [out w2].
  cbn [fst] in Htext.
  pose proof (extract_topology_round_true out tg) as Hround.
  destruct (extract_topology_round out tg) as [[] tg1] eqn:Hr; [ | apply IH ].
  cbn [fst snd] in *. intros _.
  destruct (Hround eq_refl) as (Hd & Hout & Hsw). rewrite Hout.
  split_and!; try done.
  - rewrite Hd. unfold discovered, extract_topology_round.
    destruct (decide (out = "")) as [->|Hne]; [ done | ].
    destruct (switches (_parse_net_output out)) as [|sw sws]; [ done | ].
    cbn [snd]. by rewrite raw_links_build_complete_graph.
  - destruct Htext as [-> | Htext]; [ | done ]. done.
  - rewrite Hd. apply graph_wf_discovered.
Qed.

End Console_facts.

Lemma extract_topology_failure_keeps_model_witness :
  let tg := discovered node_lines_dump in
  let out := extract_topology_from_mininet console_silent clock_idle tg tt in
  out.1.1 = false /\ raw_links out.1.2 = raw_links tg.
Proof.
  cbv zeta.
  assert (H : (extract_topology_from_mininet console_silent clock_idle
                 (discovered node_lines_dump) tt).1.1 = false)
    by (vm_compute; reflexivity).
  split; [ exact H | ].
  destruct (extract_topology_failure_keeps_model console_silent clock_idle
              (discovered node_lines_dump) tt H) as (_ & _ & Hr).
  exact Hr.
Defined.

Lemma extract_topology_success_is_fresh_witness :
  let tg := discovered peer_only_dump in
  let out := extract_topology_from_mininet (console_ready node_lines_dump)
               clock_idle tg tt in
  out.1.1 = true /\ out.1.2 = discovered (net_output out.1.2).
Proof.
  cbv zeta.
  assert (H : (extract_topology_from_mininet (console_ready node_lines_dump)
                 clock_idle (discovered peer_only_dump) tt).1.1 = true)
    by (vm_compute; reflexivity).
  split; [ exact H | ].
  destruct (extract_topology_success_is_fresh (console_ready node_lines_dump)
              clock_idle (discovered peer_only_dump) tt H) as (Hd & _).
  exact Hd.
Defined.

(** ** Installing rules through the controller *)

Section Install_facts.

Context {World : Type}.
Variable subprocess_run : string -> World -> run_outcome * World.

Lemma install_command_Ok (rule : dict pyval) :
  Dict.mem "switch" rule = true -> exists c, install_command rule = Ok c.
Proof.
  unfold install_command, Dict.mem, Dict.index.
  destruct (Dict.get "switch" rule); [ by eexists | done ].
Qed.

Lemma install_command_Raise (rule : dict pyval) :
  Dict.mem "switch" rule = false -> install_command rule = Raise KeyError.
Proof.
  unfold install_command, Dict.mem, Dict.index.
  by destruct (Dict.get "switch" rule).
Qed.

Lemma install_commands_loop (rules : list (dict pyval)) (acc : list string) :
  (Forall (λ rule, Dict.mem "switch" rule = true) rules ->
   exists commands,
     Forall2 (λ rule c, install_command rule = Ok c) rules commands
     /\ for_each (λ commands rule,
                    command <- install_command rule;; Ok (commands ++ [command]))
          rules acc = Ok (acc ++ commands))
  /\ (Exists (λ rule, Dict.mem "switch" rule = false) rules ->
      for_each (λ commands rule,
                  command <- install_command rule;; Ok (commands ++ [command]))
        rules acc = Raise KeyError).
Proof.
  revert acc. induction rules as [|rule rules IH]; intros acc.
  - split.
    + intros _. exists []. split; [ constructor | ]. cbn. by rewrite app_nil_r.
    + by intros ?%Exists_nil.
  - split.
    + intros [Hrule Hrules]%Forall_cons.
      destruct (install_command_Ok rule Hrule) as [c Hc].
      destruct (IH (acc ++ [c])) as [IH1 _].
      destruct (IH1 Hrules) as (cs & Hall & Hloop).
      exists (c :: cs). split; [ by constructor | ].
      cbn [for_each]. rewrite Hc. cbn [bind]. rewrite Hloop.
      by rewrite <- app_assoc.
    + intros [Hrule | Hrules]%Exists_cons.
      * cbn [for_each]. by rewrite (install_command_Raise rule Hrule).
      * cbn [for_each]. destruct (install_command rule) as [c|e] eqn:Hc.
        -- cbn [bind]. by apply IH.
        -- cbn [bind]. unfold install_command, Dict.index in Hc.
           destruct (Dict.get "switch" rule); [ done | ]. cbn in Hc. congruence.
Qed.

(** X19: [install_flow_rules] builds the commands for all the rules
    before it runs the first. If every rule has the key 'switch', it runs
    one command per rule, in order; if any rule lacks it, the call raises
    [KeyError] and no command is run, also not for the rules before that
    one. *)
Theorem install_flow_rules_checks_first (self : OVSController)
    (rules : list (dict pyval)) (w : World) :
  (Forall (λ rule, Dict.mem "switch" rule = true) rules ->
   exists commands,
     Forall2 (λ rule c, install_command rule = Ok c) rules commands
     /\ install_flow_rules subprocess_run self rules w
        = Ok (execute_commands subprocess_run self commands w))
  /\ (Exists (λ rule, Dict.mem "switch" rule = false) rules ->
      install_flow_rules subprocess_run self rules w = Raise KeyError).
Proof.
  unfold install_flow_rules. destruct (install_commands_loop rules []) as [Hok Hfail].
  split.
  - intros Hall. destruct (Hok Hall) as (cs & Hcs & ->). by exists cs.
  - intros Hex. by rewrite (Hfail Hex).
Qed.

End Install_facts.

(** X20: for a rule made by [create_flow_rules], [install_flow_rules]
    and [generate_ovs_commands] build different commands: the one of
    [install_flow_rules] gives the action as [output:N], without the
    [actions=] keyword that [generate_ovs_commands] writes. *)
Theorem install_command_differs (r : FlowRule) :
  install_command (rule_dict r)
  = Ok ("sudo ovs-ofctl add-flow " +:+ switch r +:+ " 'in_port=" +:+ py_str (in_port r)
        +:+ ",priority=" +:+ PyStr.of_Z (priority r)
        +:+ ",output:" +:+ py_str (out_port r) +:+ "'")
  /\ forall c, install_command (rule_dict r) = Ok c -> c ∉ generate_ovs_commands [r].
Proof.
  assert (install_command (rule_dict r)
          = Ok ("sudo ovs-ofctl add-flow " +:+ switch r +:+ " 'in_port="
                +:+ py_str (in_port r) +:+ ",priority=" +:+ PyStr.of_Z (priority r)
                +:+ ",output:" +:+ py_str (out_port r) +:+ "'")) as Hc.
  { unfold install_command, rule_dict. cbn. done. }
  split; [ exact Hc | ].
  intros c Hc'. rewrite Hc in Hc'. injection Hc' as <-.
  unfold generate_ovs_commands. cbn [List.filter].
  destruct (PyStr.startswith (switch r) "s"); [ | apply not_elem_of_nil ].
  rewrite fmap_cons, fmap_nil. intros Heq%list_elem_of_singleton.
  do 6 apply append_inj_r in Heq. discriminate Heq.
Qed.

(** ** The discovered topology *)

Lemma NoDup_fmap_eq {A B} (f : A -> B) (l : list A) (x y : A) :
  NoDup (f <$> l) -> x ∈ l -> y ∈ l -> f x = f y -> x = y.
Proof.
  intros Hnd (i & Hi)%list_elem_of_lookup_1 (j & Hj)%list_elem_of_lookup_1 Hf.
  assert (i = j) as ->.
  { apply (NoDup_lookup (f <$> l) i j (f x)); [ done | | ].
    - by rewrite list_lookup_fmap, Hi.
    - by rewrite list_lookup_fmap, Hj, Hf. }
  congruence.
Qed.

Lemma elem_of_firsts (seen : gset (string * string)) (ls : list Link) (r : Link) :
  r ∈ firsts seen ls -> r ∈ ls.
Proof.
  intros (_ & i & Hi & _)%firsts_first. by eapply list_elem_of_lookup_2.
Qed.

(** The links of a parsed dump: each is stored with the smaller node
    first, and no two are about the same pair of nodes. *)
Lemma parsed_links_ordered (text : string) (l : Link) :
  l ∈ links (_parse_net_output text) -> PyStr.le (source l) (target l) = true.
Proof.
  rewrite links_parse_net_output. destruct (parse_body text); [ | by intros ?%elem_of_nil ].
  intros Hl%elem_of_firsts. by apply described_ordered in Hl as [? _].
Qed.

Lemma parsed_links_unique (text : string) (l l' : Link) :
  l ∈ links (_parse_net_output text) -> l' ∈ links (_parse_net_output text) ->
  joins l' (source l) (target l) -> l' = l.
Proof.
  intros Hl Hl' Hj.
  pose proof (parsed_links_ordered _ _ Hl) as Ho.
  pose proof (parsed_links_ordered _ _ Hl') as Ho'.
  apply (same_pair_key l' l Ho' Ho) in Hj.
  rewrite links_parse_net_output in Hl, Hl'.
  destruct (parse_body text); [ | by apply elem_of_nil in Hl ].
  exact (NoDup_fmap_eq (λ r, (source r, target r))
           (firsts ∅ (omap token_record (token_fields text))) l' l
           (firsts_NoDup ∅ _) Hl' Hl Hj).
Qed.

(** The graph [_build_complete_graph] builds. *)
Lemma graph_build_complete_graph (sws : list SwitchInfo) (hs : list HostInfo)
    (ls : list Link) (tg : TopologyGraph) :
  graph (_build_complete_graph sws hs ls tg)
  = foldl (λ G link,
             nx.add_edge (source link) (target link)
               [("source_port", PyInt (source_port link));
                ("target_port", PyInt (target_port link))] G)
      (foldl (λ G host,
                nx.add_node (host_name host)
                  [("type", PyStr "host"); ("ip", PyStr (host_ip host))] G)
         (foldl (λ G switch,
                   nx.add_node (sw_name switch)
                     [("type", PyStr "switch"); ("dpid", PyStr (sw_dpid switch))] G)
            nx.empty sws) hs) ls.
Proof. unfold _build_complete_graph. by rewrite graph_build_port_mapping. Qed.

Lemma graph_wf_nodes_added (sws : list SwitchInfo) (hs : list HostInfo) :
  graph_wf (foldl (λ G host,
                nx.add_node (host_name host)
                  [("type", PyStr "host"); ("ip", PyStr (host_ip host))] G)
         (foldl (λ G switch,
                   nx.add_node (sw_name switch)
                     [("type", PyStr "switch"); ("dpid", PyStr (sw_dpid switch))] G)
            nx.empty sws) hs).
Proof.
  apply graph_wf_foldl; [ intros; by apply graph_wf_add_node | ].
  apply graph_wf_foldl; [ intros; by apply graph_wf_add_node | apply graph_wf_empty ].
Qed.

(** The model after one round on a fresh object: empty, or built from
    the parsed dump. *)
Lemma discovered_model (text : string) :
  (graph (discovered text) = nx.empty /\ raw_links (discovered text) = []
   /\ port_mapping (discovered text) = [])
  \/ (raw_links (discovered text) = links (_parse_net_output text)
      /\ discovered text
         = _build_complete_graph (switches (_parse_net_output text))
             (hosts (_parse_net_output text)) (links (_parse_net_output text))
             (mkTopology nx.empty [] text (links (_parse_net_output text)))).
Proof.
  unfold discovered, extract_topology_round.
  destruct (decide (text = "")); [ by left | ].
  destruct (switches (_parse_net_output text)) as [|sw sws] eqn:Hsw; [ by left | ].
  right. cbn [snd graph port_mapping net_output raw_links TopologyGraph_init].
  split; [ | done ]. by rewrite raw_links_build_complete_graph.
Qed.

Lemma has_edge_foldl_add_edge_intro (attr : Link -> dict pyval) (ls : list Link)
    (G : Graph) (a b : string) :
  graph_wf G ->
  nx.has_edge G a b = true \/ (exists link, link ∈ ls /\ joins link a b) ->
  nx.has_edge (foldl (λ G link, nx.add_edge (source link) (target link) (attr link) G)
                 G ls) a b = true.
Proof.
  revert G. induction ls as [|l ls IH]; intros G Hwf H.
  - destruct H as [H | (link & Hin & _)]; [ done | by apply elem_of_nil in Hin ].
  - cbn [foldl]. apply IH; [ by apply graph_wf_add_edge | ].
    destruct H as [H | (link & Hin & Hj)].
    + left. rewrite has_edge_add_edge by done. by rewrite H.
    + apply elem_of_cons in Hin as [->|Hin]; [ | right; eauto ].
      left. rewrite has_edge_add_edge by done.
      destruct Hj as [[<- <-] | [<- <-]].
      * rewrite (bool_decide_eq_true_2 (source l = source l /\ target l = target l))
          by done. by rewrite orb_true_r.
      * rewrite (bool_decide_eq_true_2 (target l = target l /\ source l = source l))
          by done. by rewrite orb_true_r.
Qed.

(** X21: in a discovered topology the graph and the raw link list agree:
    two nodes are joined by an edge of the graph exactly when a raw link
    record joins them, in either order. *)
Theorem discovered_edges_are_links (text : string) (a b : string) :
  nx.has_edge (graph (discovered text)) a b = true
  <-> exists link, link ∈ raw_links (discovered text) /\ joins link a b.
Proof.
  destruct (discovered_model text) as [(Hg & Hr & _) | [Hr Hd]].
  - rewrite Hg, Hr. split; [ done | ]. by intros (link & ?%elem_of_nil & _).
  - rewrite Hr. rewrite Hd at 1. rewrite graph_build_complete_graph. split.
    + intros H. apply has_edge_foldl_add_edge in H as [H | H];
        [ | done | apply graph_wf_nodes_added ].
      rewrite !has_edge_foldl_add_node in H;
        [ done | apply graph_wf_empty | ].
      apply graph_wf_foldl; [ intros; by apply graph_wf_add_node | apply graph_wf_empty ].
    + intros H. apply has_edge_foldl_add_edge_intro;
        [ apply graph_wf_nodes_added | by right ].
Qed.

Lemma scan_raw_links_unique (ls : list Link) (l : Link) :
  l ∈ ls ->
  (forall l', l' ∈ ls -> joins l' (source l) (target l) -> l' = l) ->
  scan_raw_links ls (source l) (target l)
  = Some (PyInt (source_port l), PyInt (target_port l)).
Proof.
  induction ls as [|h ls IH]; intros Hin Huniq; [ by apply elem_of_nil in Hin | ].
  cbn [scan_raw_links].
  destruct (decide (source h = source l /\ target h = target l)) as [Hfw|Hfw].
  - rewrite (Huniq h); [ done | left | by left ].
  - destruct (decide (source h = target l /\ target h = source l)) as [Hbw|Hbw].
    + rewrite (Huniq h) in Hfw; [ by destruct Hfw | left | by right ].
    + apply elem_of_cons in Hin as [->|Hin]; [ by destruct Hfw | ].
      apply IH; [ done | ]. intros l' Hl'. apply Huniq. by right.
Qed.

(** The port pair of a raw link record, in both query orders. *)
Lemma port_pair_of_link (text : string) (flows : gmap string (list FlowRule))
    (l : Link) :
  let tg := discovered text in
  let self := mkPathToFlow tg flows in
  l ∈ raw_links tg ->
  get_port_pair_from_raw_links tg (source l) (target l)
  = (PyInt (source_port l), PyInt (target_port l))
  /\ _get_port_pair self (source l) (target l)
     = Some (PyInt (source_port l), PyInt (target_port l))
  /\ (source l <> target l ->
      _get_port_pair self (target l) (source l)
      = Some (PyInt (target_port l), PyInt (source_port l))).
Proof.
  cbv zeta. intros Hl.
  assert (scan_raw_links (raw_links (discovered text)) (source l) (target l)
          = Some (PyInt (source_port l), PyInt (target_port l))) as Hscan.
  { apply scan_raw_links_unique; [ done | ].
    destruct (discovered_model text) as [(_ & Hr & _) | [Hr _]].
    - rewrite Hr in Hl. by apply elem_of_nil in Hl.
    - rewrite Hr in *. intros l' Hl'. by apply (parsed_links_unique text). }
  assert (get_port_pair_from_raw_links (discovered text) (source l) (target l)
          = (PyInt (source_port l), PyInt (target_port l))) as Hraw.
  { unfold get_port_pair_from_raw_links. rewrite Hscan.
    destruct (raw_links (discovered text)); [ by apply elem_of_nil in Hl | done ]. }
  split_and!.
  - done.
  - unfold _get_port_pair. cbn [topology_graph]. rewrite Hraw.
    by rewrite decide_True.
  - intros Hne.
    pose proof (scan_raw_links_swap (raw_links (discovered text)) _ _ Hne) as Hswap.
    rewrite Hscan in Hswap. cbn in Hswap.
    unfold _get_port_pair, get_port_pair_from_raw_links. cbn [topology_graph].
    rewrite Hswap.
    destruct (raw_links (discovered text)); [ by apply elem_of_nil in Hl | ].
    by rewrite decide_True.
Qed.

(** X22: in a discovered topology the port-pair lookup returns, for the
    two ends of a raw link record in stored order, the two ports of that
    record, and for the opposite order of distinct ends the same ports
    exchanged; [_get_port_pair] answers from the records, never from the
    graph. *)
Theorem port_pair_of_record (text : string) (flows : gmap string (list FlowRule))
    (l : Link) :
  let tg := discovered text in
  let self := mkPathToFlow tg flows in
  l ∈ raw_links tg ->
  get_port_pair_from_raw_links tg (source l) (target l)
  = (PyInt (source_port l), PyInt (target_port l))
  /\ _get_port_pair self (source l) (target l)
     = Some (PyInt (source_port l), PyInt (target_port l))
  /\ (source l <> target l ->
      _get_port_pair self (target l) (source l)
      = Some (PyInt (target_port l), PyInt (source_port l))).
Proof.
  cbv zeta. intros Hl.
  destruct (port_pair_of_link text flows l Hl) as (Hraw & Hstored & Hopposite).
  split; [ exact Hraw | ]. split; [ exact Hstored | exact Hopposite ].
Qed.

Lemma port_pair_of_record_witness :
  mkLink "h1" "s1" 0 1 ∈ raw_links (discovered node_lines_dump)
  /\ _get_port_pair (PathToFlow_init (discovered node_lines_dump)) "h1" "s1"
     = Some (PyInt 0, PyInt 1)
  /\ _get_port_pair (PathToFlow_init (discovered node_lines_dump)) "s1" "h1"
     = Some (PyInt 1, PyInt 0).
Proof.
  assert (H : mkLink "h1" "s1" 0 1 ∈ raw_links (discovered node_lines_dump)).
  { vm_compute. left. }
  split; [ exact H | ].
  destruct (port_pair_of_record node_lines_dump ∅ (mkLink "h1" "s1" 0 1) H)
    as (_ & H1 & H2).
  split; [ exact H1 | ]. apply H2. discriminate.
Defined.

(** ** A path and its reverse *)

(** The hop [(prev, switch, next)] met in the other direction. *)
Lemma switch_hops_unfold (a b c : string) (r : list string) :
  switch_hops (a :: b :: c :: r)
  = (if PyStr.startswith b "s" then [(a, b, c)] else []) ++ switch_hops (b :: c :: r).
Proof. done. Qed.

Lemma switch_hops_snoc (q : list string) (z y x : string) :
  switch_hops (q ++ [z; y; x])
  = switch_hops (q ++ [z; y]) ++ (if PyStr.startswith y "s" then [(z, y, x)] else []).
Proof.
  induction q as [|w q IH].
  - cbn [app]. rewrite switch_hops_unfold. cbn [switch_hops]. by rewrite app_nil_r.
  - destruct q as [|u [|v q]].
    + cbn [app] in *. rewrite !switch_hops_unfold. cbn [switch_hops].
      by rewrite !app_nil_r.
    + cbn [app] in *. rewrite (switch_hops_unfold w u z), (switch_hops_unfold w u z [y]).
      rewrite IH. by rewrite app_assoc.
    + cbn [app] in *.
      rewrite (switch_hops_unfold w u v), (switch_hops_unfold w u v (q ++ [z; y])).
      rewrite IH. by rewrite app_assoc.
Qed.

Lemma switch_hops_reverse (p : list string) :
  switch_hops (reverse p)
  = reverse ((λ hop : string * string * string, (hop.2, hop.1.2, hop.1.1))
             <$> switch_hops p).
Proof.
  induction p as [|a p IH]; [ done | ].
  destruct p as [|b [|c r]]; [ done | done | ].
  rewrite switch_hops_unfold, fmap_app, reverse_app, <- IH.
  rewrite !reverse_cons, <- !app_assoc. cbn [app]. rewrite switch_hops_snoc.
  f_equal. by destruct (PyStr.startswith b "s").
Qed.

Lemma adjacent_distinct (p : list string) (a b : string) :
  NoDup p -> (a, b) ∈ zip p (List.tl p) -> a <> b.
Proof.
  induction p as [|x [|y p] IH]; intros Hnd Hin; [ by apply elem_of_nil in Hin.. | ].
  cbn in Hin. apply elem_of_cons in Hin as [[= -> ->] | Hin].
  - apply NoDup_cons in Hnd as [Hx _]. intros ->. apply Hx. left.
  - apply NoDup_cons in Hnd as [_ Hnd]. by apply IH.
Qed.

Lemma switch_hops_adjacent (p : list string) (hop : string * string * string) :
  hop ∈ switch_hops p ->
  (hop.1.1, hop.1.2) ∈ zip p (List.tl p) /\ (hop.1.2, hop.2) ∈ zip p (List.tl p).
Proof.
  induction p as [|a p IH]; [ by intros ?%elem_of_nil | ].
  destruct p as [|b [|c r]]; [ by intros ?%elem_of_nil.. | ].
  rewrite switch_hops_unfold. intros [Hin | Hin]%elem_of_app.
  - destruct (PyStr.startswith b "s"); [ | by apply elem_of_nil in Hin ].
    apply list_elem_of_singleton in Hin as ->. cbn. split; [ left | right; left ].
  - destruct (IH Hin) as [H1 H2]. split; cbn; by right.
Qed.

(** In a discovered topology the port pair of an edge between distinct
    nodes is, in the other query order, the same pair exchanged. *)
Lemma port_pair_exchanged (text : string) (flows : gmap string (list FlowRule))
    (a b : string) :
  a <> b ->
  nx.has_edge (graph (discovered text)) a b = true ->
  exists pa pb,
    _get_port_pair (mkPathToFlow (discovered text) flows) a b = Some (PyInt pa, PyInt pb)
    /\ _get_port_pair (mkPathToFlow (discovered text) flows) b a
       = Some (PyInt pb, PyInt pa).
Proof.
  intros Hne Hedge.
  assert (exists link, link ∈ raw_links (discovered text) /\ joins link a b)
    as (l & Hl & Hj).
  { destruct (discovered_model text) as [(Hg & _) | [Hr Hd]].
    - rewrite Hg in Hedge. done.
    - rewrite Hr. rewrite Hd, graph_build_complete_graph in Hedge.
      apply has_edge_foldl_add_edge in Hedge as [H | H];
        [ | done | apply graph_wf_nodes_added ].
      rewrite !has_edge_foldl_add_node in H; [ done | apply graph_wf_empty | ].
      apply graph_wf_foldl; [ intros; by apply graph_wf_add_node | apply graph_wf_empty ]. }
  destruct (port_pair_of_link text flows l Hl) as (_ & Hfw & Hbw).
  destruct Hj as [[<- <-] | [<- <-]].
  - exists (source_port l), (target_port l). split; [ done | by apply Hbw ].
  - exists (target_port l), (source_port l). split; [ | done ].
    apply Hbw. congruence.
Qed.

(** X23: in a discovered topology, a path that [validate_path] accepts
    and its reverse program the same flows: the commands generated for
    the rules of the reversed path are a rearrangement of those generated
    for the rules of the path. *)
Theorem reversed_path_same_commands (text : string)
    (flows : gmap string (list FlowRule)) (p : list string)
    (f f' : option string) (prio : Z) :
  let self := mkPathToFlow (discovered text) flows in
  (validate_path self p).1 = true ->
  generate_ovs_commands (create_flow_rules self (reverse p) f' prio).1
  ≡ₚ generate_ovs_commands (create_flow_rules self p f prio).1.
Proof.
  cbv zeta. intros Hvalid.
  apply validate_path_true in Hvalid as (Hlen & _ & Hedges & Hnd).
  set (self := mkPathToFlow (discovered text) flows) in *.
  set (cmd := λ rule : FlowRule,
         "sudo ovs-ofctl add-flow " +:+ switch rule +:+ " 'in_port="
         +:+ py_str (in_port rule) +:+ ",priority=" +:+ PyStr.of_Z (priority rule)
         +:+ ",actions=output:" +:+ py_str (out_port rule) +:+ "'").
  assert (forall q g, generate_ovs_commands (create_flow_rules self q g prio).1
                      = cmd <$> (create_flow_rules self q g prio).1) as Hgen.
  { intros q g. unfold generate_ovs_commands. rewrite generate_ovs_commands_all; [ done | ].
    intros r Hr. by apply create_flow_rules_switch in Hr as [? _]. }
  rewrite !Hgen.
  rewrite (create_flow_rules_hops self p f prio Hlen Hnd).
  rewrite (create_flow_rules_hops self (reverse p) f' prio);
    [ | by rewrite length_reverse | by rewrite reverse_Permutation ].
  rewrite switch_hops_reverse.
  assert (forall hop, hop ∈ switch_hops p ->
            cmd <$> hop_rules self (flow_id_or_default f' (reverse p)) prio (reverse p)
                      (hop.2, hop.1.2, hop.1.1)
            ≡ₚ cmd <$> hop_rules self (flow_id_or_default f p) prio p hop) as Hhop.
  { intros [[a s] b] Hin. cbn [fst snd].
    destruct (switch_hops_adjacent p _ Hin) as [Has Hsb]. cbn [fst snd] in Has, Hsb.
    pose proof (adjacent_distinct p a s Hnd Has) as Hne1.
    pose proof (adjacent_distinct p s b Hnd Hsb) as Hne2.
    pose proof (Hedges _ Has) as He1. pose proof (Hedges _ Hsb) as He2.
    cbn [fst snd] in He1, He2.
    destruct (port_pair_exchanged text flows a s Hne1 He1) as (pa & ps & Hq1 & Hq1').
    destruct (port_pair_exchanged text flows s b Hne2 He2) as (ps' & pb & Hq2 & Hq2').
    fold self in Hq1, Hq1', Hq2, Hq2'.
    unfold hop_rules, ingress_port, egress_port.
    rewrite Hq1, Hq1', Hq2, Hq2'. cbn [fst snd fmap list_fmap].
    unfold cmd. cbn [switch in_port out_port priority]. apply perm_swap. }
  revert Hhop. generalize (switch_hops p). intros hops Hhop.
  induction hops as [|hop hops IH]; [ done | ].
  rewrite fmap_cons, reverse_cons, bind_app, fmap_app, !bind_cons.
  change ([] ≫= hop_rules self (flow_id_or_default f' (reverse p)) prio (reverse p))
    with (@nil FlowRule).
  rewrite app_nil_r, fmap_app. rewrite Permutation_app_comm. apply Permutation_app.
  - apply Hhop. left.
  - apply IH. intros h Hh. apply Hhop. by right.
Qed.

Lemma reversed_path_same_commands_witness :
  let self := mkPathToFlow (discovered node_lines_dump) ∅ in
  (validate_path self ["h1"; "s1"; "h2"]).1 = true
  /\ generate_ovs_commands (create_flow_rules self ["h2"; "s1"; "h1"] None 1000).1
     ≡ₚ generate_ovs_commands (create_flow_rules self ["h1"; "s1"; "h2"] None 1000).1.
Proof.
  cbv zeta.
  assert (H : (validate_path (mkPathToFlow (discovered node_lines_dump) ∅)
                 ["h1"; "s1"; "h2"]).1 = true) by (vm_compute; reflexivity).
  split; [ exact H | ].
  exact (reversed_path_same_commands node_lines_dump ∅ ["h1"; "s1"; "h2"]
           None None 1000 H).
Defined.

(** ** The port mapping of a discovered topology *)

Lemma Dict_get_foldl_set {V} (g : string -> V) (l : list string) (m : dict V)
    (k : string) :
  Dict.get k (foldl (λ m x, Dict.set x (g x) m) m l)
  = if decide (k ∈ l) then Some (g k) else Dict.get k m.
Proof.
  revert m. induction l as [|x l IH]; intros m.
  - by rewrite decide_False by apply not_elem_of_nil.
  - cbn [foldl]. rewrite IH, Dict_get_set.
    destruct (decide (k ∈ l)) as [Hin|Hout].
    + rewrite decide_True; [ done | by right ].
    + destruct (decide (x = k)) as [->|Hne].
      * rewrite decide_True; [ done | left ].
      * rewrite decide_False; [ done | ]. intros [->|?]%elem_of_cons; done.
Qed.

(** The inner loop of [_build_port_mapping] fills the row of [node]. *)
Lemma port_mapping_row (G : Graph) (node : string) (nbrs : list string)
    (pm : dict (dict pyval)) (inner : dict pyval) :
  Dict.get node pm = Some inner ->
  (forall nb, nb ∈ nbrs -> nb ∈ nx.neighbors G node) ->
  exists pm',
    for_each (λ pm neighbor,
        edge_data <- nx.edge_data G node neighbor;;
        inner <- Dict.index node pm;;
        Ok (Dict.set node (Dict.set neighbor (mapped_port node edge_data) inner) pm))
      nbrs pm = Ok pm'
    /\ Dict.get node pm'
       = Some (foldl (λ inner nb,
                        Dict.set nb (mapped_port node (edge_attrs G node nb)) inner)
                 inner nbrs)
    /\ forall k, k <> node -> Dict.get k pm' = Dict.get k pm.
Proof.
  revert pm inner. induction nbrs as [|nb nbrs IH]; intros pm inner Hnode Hnbrs.
  - exists pm. done.
  - cbn [for_each].
    rewrite (edge_data_edge_attrs G node nb) by (apply Hnbrs; left). cbn [bind].
    unfold Dict.index at 1. rewrite Hnode. cbn [bind].
    destruct (IH (Dict.set node
                    (Dict.set nb (mapped_port node (edge_attrs G node nb)) inner) pm)
                 (Dict.set nb (mapped_port node (edge_attrs G node nb)) inner))
      as (pm' & -> & Hrow & Hother).
    + rewrite Dict_get_set. by rewrite decide_True.
    + intros nb' Hnb'. apply Hnbrs. by right.
    + exists pm'. split_and!; [ done | done | ].
      intros k Hk. rewrite (Hother k Hk), Dict_get_set. by rewrite decide_False.
Qed.

(** The row [_build_port_mapping] stores for a node. *)
Lemma port_mapping_rows (G : Graph) (nodes : list string) (pm : dict (dict pyval)) :
  exists pm',
    for_each (λ pm node,
        for_each (λ pm neighbor,
            edge_data <- nx.edge_data G node neighbor;;
            inner <- Dict.index node pm;;
            Ok (Dict.set node (Dict.set neighbor (mapped_port node edge_data) inner) pm))
          (nx.neighbors G node) (Dict.set node [] pm))
      nodes pm = Ok pm'
    /\ forall a,
         Dict.get a pm'
         = if decide (a ∈ nodes)
           then Some (foldl (λ inner nb,
                               Dict.set nb (mapped_port a (edge_attrs G a nb)) inner)
                        [] (nx.neighbors G a))
           else Dict.get a pm.
Proof.
  revert pm. induction nodes as [|node nodes IH]; intros pm.
  - exists pm. split; [ done | ]. intros a. by rewrite decide_False by apply not_elem_of_nil.
  - cbn [for_each].
    destruct (port_mapping_row G node (nx.neighbors G node) (Dict.set node [] pm) [])
      as (pm1 & -> & Hrow & Hother).
    + rewrite Dict_get_set. by rewrite decide_True.
    + done.
    + cbn [bind]. destruct (IH pm1) as (pm' & -> & Hget). exists pm'.
      split; [ done | ]. intros a. rewrite Hget.
      destruct (decide (a ∈ nodes)) as [Hin|Hout].
      * rewrite decide_True; [ done | by right ].
      * destruct (decide (a = node)) as [->|Hne].
        -- rewrite decide_True; [ done | left ].
        -- rewrite decide_False by (intros [->|?]%elem_of_cons; done).
           rewrite (Hother a Hne), Dict_get_set. by rewrite decide_False.
Qed.

(** What the port mapping holds for a node and one of its neighbours. *)
Lemma port_mapping_entry (tg : TopologyGraph) (a b : string) :
  nx.has_node (graph tg) a = true ->
  nx.has_edge (graph tg) a b = true ->
  (inner <- Dict.index a (port_mapping (_build_port_mapping tg));; Dict.index b inner)
  = Ok (mapped_port a (edge_attrs (graph tg) a b)).
Proof.
  intros Ha Hab. unfold _build_port_mapping, port_mapping_body.
  destruct (port_mapping_rows (graph tg) (nx.nodes (graph tg)) []) as (pm & -> & Hget).
  cbn [port_mapping]. unfold Dict.index. rewrite Hget.
  rewrite decide_True by (by apply Dict_mem_true).
  cbn [bind]. rewrite Dict_get_foldl_set.
  by rewrite decide_True by (by apply neighbors_has_edge).
Qed.

Lemma edge_attrs_no_edge (G : Graph) (a b : string) :
  nx.has_edge G a b = false -> edge_attrs G a b = [].
Proof.
  unfold nx.has_edge, edge_attrs, nx.adj, Dict.get_default, Dict.mem.
  destruct (Dict.get a (_adj G)) as [row|]; [ | done ].
  by destruct (Dict.get b row).
Qed.

Lemma edge_attrs_fresh_node (n : string) (nodes : dict (dict pyval)) (G : Graph)
    (a b : string) :
  graph_wf G -> nx.has_node G n = false ->
  edge_attrs (mkGraph nodes (Dict.set n [] (_adj G))) a b = edge_attrs G a b.
Proof.
  intros Hwf Hn. unfold edge_attrs at 1, nx.adj, Dict.get_default. cbn [_adj].
  rewrite Dict_get_set. destruct (decide (n = a)) as [->|Hne]; [ | done ].
  cbn. symmetry. apply edge_attrs_no_edge.
  destruct (nx.has_edge G a b) eqn:E; [ | done ].
  apply Hwf in E as (Ha & _). congruence.
Qed.

Lemma edge_attrs_touch_node (n : string) (G : Graph) (a b : string) :
  graph_wf G -> edge_attrs (nx.touch_node n G) a b = edge_attrs G a b.
Proof.
  intros Hwf. unfold nx.touch_node. destruct (nx.has_node G n) eqn:Hn; [ done | ].
  by apply edge_attrs_fresh_node.
Qed.

Lemma edge_attrs_add_node (n : string) (attr : dict pyval) (G : Graph) (a b : string) :
  graph_wf G -> edge_attrs (nx.add_node n attr G) a b = edge_attrs G a b.
Proof.
  intros Hwf. unfold nx.add_node.
  destruct (Dict.get n (_node G)) eqn:Hn; [ done | ].
  apply edge_attrs_fresh_node; [ done | ]. unfold nx.has_node, Dict.mem. by rewrite Hn.
Qed.

Lemma edge_attrs_add_edge (u v : string) (attr : dict pyval) (G : Graph) (a b : string) :
  graph_wf G ->
  edge_attrs (nx.add_edge u v attr G) a b
  = if decide ((a = u /\ b = v) \/ (a = v /\ b = u))
    then Dict.update attr (edge_attrs G u v)
    else edge_attrs G a b.
Proof.
  intros Hwf.
  pose proof (graph_wf_touch_node u G Hwf) as Hwf1.
  rewrite <- (edge_attrs_touch_node u G u v Hwf).
  rewrite <- (edge_attrs_touch_node u G a b Hwf).
  rewrite <- (edge_attrs_touch_node v (nx.touch_node u G) u v Hwf1).
  rewrite <- (edge_attrs_touch_node v (nx.touch_node u G) a b Hwf1).
  unfold nx.add_edge. set (G1 := nx.touch_node v (nx.touch_node u G)).
  unfold edge_attrs, nx.adj, Dict.get_default. cbn [_adj].
  rewrite !Dict_get_set.
  destruct (decide (v = a)) as [->|Hva]; destruct (decide (u = a)) as [->|Hua];
    rewrite ?Dict_get_set;
    repeat (destruct (decide _) as [?|?]); try reflexivity;
    try (exfalso; intuition congruence).
Qed.

Lemma foldl_invariant {A S} (P : S -> Prop) (step : S -> A -> S) (l : list A) (s : S) :
  (forall s a, P s -> P (step s a)) -> P s -> P (foldl step s l).
Proof. intros Hstep. revert s. induction l as [|a l IH]; intros s Hs; cbn; auto. Qed.

(** No edge of a graph built by [_build_complete_graph] has an attribute
    ['source']. *)
Lemma built_edges_without_source (sws : list SwitchInfo) (hs : list HostInfo)
    (ls : list Link) (tg : TopologyGraph) (a b : string) :
  Dict.get "source" (edge_attrs (graph (_build_complete_graph sws hs ls tg)) a b) = None.
Proof.
  rewrite graph_build_complete_graph.
  pose (P := λ G : Graph,
          graph_wf G /\ forall a b, Dict.get "source" (edge_attrs G a b) = None).
  enough (P (foldl (λ G link,
             nx.add_edge (source link) (target link)
               [("source_port", PyInt (source_port link));
                ("target_port", PyInt (target_port link))] G)
      (foldl (λ G host,
                nx.add_node (host_name host)
                  [("type", PyStr "host"); ("ip", PyStr (host_ip host))] G)
         (foldl (λ G switch,
                   nx.add_node (sw_name switch)
                     [("type", PyStr "switch"); ("dpid", PyStr (sw_dpid switch))] G)
            nx.empty sws) hs) ls)) as [_ H] by apply H.
  apply foldl_invariant.
  { intros G l [Hwf Hsrc]. split; [ by apply graph_wf_add_edge | ].
    intros a' b'. rewrite edge_attrs_add_edge by done.
    destruct (decide _); [ | apply Hsrc ].
    unfold Dict.update. cbn [foldl fst snd]. rewrite !Dict_get_set.
    rewrite !decide_False by done. apply Hsrc. }
  apply foldl_invariant.
  { intros G h [Hwf Hsrc]. split; [ by apply graph_wf_add_node | ].
    intros a' b'. by rewrite edge_attrs_add_node. }
  apply foldl_invariant.
  { intros G s [Hwf Hsrc]. split; [ by apply graph_wf_add_node | ].
    intros a' b'. by rewrite edge_attrs_add_node. }
  split; [ apply graph_wf_empty | done ].
Qed.

(** The ports stored on the edge of a link that is the only one between
    its two nodes, read from either end. *)
Lemma built_edge_ports (ls : list Link) (G : Graph) (l : Link) (a b : string) :
  graph_wf G ->
  l ∈ ls ->
  (forall l', l' ∈ ls -> joins l' (source l) (target l) -> l' = l) ->
  joins l a b ->
  Dict.get "source_port"
    (edge_attrs (foldl (λ G link,
                          nx.add_edge (source link) (target link)
                            [("source_port", PyInt (source_port link));
                             ("target_port", PyInt (target_port link))] G) G ls) a b)
  = Some (PyInt (source_port l))
  /\ Dict.get "target_port"
       (edge_attrs (foldl (λ G link,
                             nx.add_edge (source link) (target link)
                               [("source_port", PyInt (source_port link));
                                ("target_port", PyInt (target_port link))] G) G ls) a b)
     = Some (PyInt (target_port l)).
Proof.
  intros Hwf. induction ls as [|x ls IH] using rev_ind; intros Hin Huniq Hj.
  - by apply elem_of_nil in Hin.
  - rewrite foldl_app. cbn [foldl].
    rewrite edge_attrs_add_edge
      by (apply graph_wf_foldl; [ intros; by apply graph_wf_add_edge | done ]).
    destruct (decide ((a = source x /\ b = target x) \/ (a = target x /\ b = source x)))
      as [Hx|Hx].
    + assert (x = l) as ->.
      { apply Huniq; [ apply elem_of_app; right; left | ].
        destruct Hj as [[<- <-] | [<- <-]]; destruct Hx as [[-> ->] | [-> ->]];
          by (left + right). }
      unfold Dict.update. cbn [foldl fst snd]. rewrite !Dict_get_set.
      rewrite (decide_False (P := "target_port" = "source_port")) by done.
      by rewrite !decide_True.
    + apply elem_of_app in Hin as [Hin | ->%list_elem_of_singleton].
      * apply IH; [ done | | done ]. intros l' Hl'. apply Huniq.
        apply elem_of_app. by left.
      * exfalso. apply Hx. destruct Hj as [[<- <-] | [<- <-]]; [ by left | by right ].
Qed.

(** The port the mapping records for a raw link, from either end. *)
Lemma port_mapping_of_link (text : string) (l : Link) (a b : string) :
  l ∈ raw_links (discovered text) ->
  joins l a b ->
  (inner <- Dict.index a (port_mapping (discovered text));; Dict.index b inner)
  = Ok (PyInt (target_port l)).
Proof.
  intros Hl Hj.
  destruct (discovered_model text) as [(_ & Hr & _) | [Hr Hd]].
  { rewrite Hr in Hl. by apply elem_of_nil in Hl. }
  rewrite Hr in Hl.
  assert (nx.has_edge (graph (discovered text)) a b = true) as Hedge.
  { rewrite Hd, graph_build_complete_graph.
    apply has_edge_foldl_add_edge_intro; [ apply graph_wf_nodes_added | ].
    right. by exists l. }
  pose proof (graph_wf_discovered text _ _ Hedge) as (Ha & _).
  pose proof (built_edges_without_source (switches (_parse_net_output text))
                (hosts (_parse_net_output text)) (links (_parse_net_output text))
                (mkTopology nx.empty [] text (links (_parse_net_output text))) a b)
    as Hsrc.
  rewrite <- Hd in Hsrc.
  assert (Dict.get "target_port" (edge_attrs (graph (discovered text)) a b)
          = Some (PyInt (target_port l))) as Htp.
  { rewrite Hd, graph_build_complete_graph.
    apply (built_edge_ports _ _ l); [ apply graph_wf_nodes_added | done | | done ].
    intros l' Hl'. by apply (parsed_links_unique text). }
  rewrite Hd in *. unfold _build_complete_graph in *.
  rewrite graph_build_port_mapping in Ha, Hedge, Hsrc, Htp.
  match goal with
  | |- context [_build_port_mapping (_build_port_mapping ?t)] => idtac
  | |- context [_build_port_mapping ?t] =>
      rewrite (port_mapping_entry t a b Ha Hedge)
  end.
  rewrite mapped_port_without_source by done.
  unfold Dict.get_default. by rewrite Htp.
Qed.

(** X24: in a discovered topology the port mapping records, for each raw
    link and from both of its ends, the target port of the link: the
    entry of the source node for the target node is not the source node's
    own port, since no edge carries the attribute ['source'] that
    [_build_port_mapping] tests. *)
Theorem port_mapping_records_target_port (text : string) (l : Link) :
  l ∈ raw_links (discovered text) ->
  (inner <- Dict.index (source l) (port_mapping (discovered text));;
   Dict.index (target l) inner) = Ok (PyInt (target_port l))
  /\ (inner <- Dict.index (target l) (port_mapping (discovered text));;
      Dict.index (source l) inner) = Ok (PyInt (target_port l)).
Proof.
  intros Hl. split; apply port_mapping_of_link; try done; [ by left | by right ].
Qed.

Lemma port_mapping_records_target_port_witness :
  mkLink "h1" "s1" 0 1 ∈ raw_links (discovered node_lines_dump)
  /\ (inner <- Dict.index "h1" (port_mapping (discovered node_lines_dump));;
      Dict.index "s1" inner) = Ok (PyInt 1)
  /\ (inner <- Dict.index "s1" (port_mapping (discovered node_lines_dump));;
      Dict.index "h1" inner) = Ok (PyInt 1).
Proof.
  assert (H : mkLink "h1" "s1" 0 1 ∈ raw_links (discovered node_lines_dump)).
  { vm_compute. left. }
  split; [ exact H | ].
  exact (port_mapping_records_target_port node_lines_dump (mkLink "h1" "s1" 0 1) H).
Defined.

(** ** The topology data handed to the interface *)

Lemma td_edges_get_topology_data (tg : TopologyGraph) :
  td_edges (get_topology_data tg)
  = (λ e : string * string,
       mkEdgeData e.1 e.2
         (Dict.get_default "source_port" (PyInt 1) (edge_attrs (graph tg) e.1 e.2))
         (Dict.get_default "target_port" (PyInt 1) (edge_attrs (graph tg) e.1 e.2)))
    <$> nx.edges (graph tg).
Proof.
  unfold get_topology_data, try_except.
  rewrite (for_each_collect (λ node, Dict.index node (_node (graph tg)))
             (node_attrs (graph tg))
             (λ node node_data,
                mkNodeData node (Dict.get_default "type" (PyStr "unknown") node_data)
                  (Dict.get_default "ip" (PyStr "") node_data)))
    by (intros; by apply index_node_attrs).
  cbn [bind].
  rewrite (for_each_collect
             (λ edge : string * string, nx.edge_data (graph tg) edge.1 edge.2)
             (λ edge, edge_attrs (graph tg) edge.1 edge.2)
             (λ edge edge_data,
                mkEdgeData edge.1 edge.2
                  (Dict.get_default "source_port" (PyInt 1) edge_data)
                  (Dict.get_default "target_port" (PyInt 1) edge_data)))
    by (intros; by apply edge_data_edge_attrs, edges_neighbors).
  done.
Qed.

Lemma edges_kept (G : Graph) (ns : list string)
    (acc : list string * list (string * string)) (e : string * string) :
  e ∈ acc.2 ->
  e ∈ (foldl (λ (acc : list string * list (string * string)) n,
                (acc.1 ++ [n],
                 acc.2 ++ ((λ nbr, (n, nbr)) <$>
                            List.filter (λ nbr, bool_decide (nbr ∉ acc.1))
                              (nx.neighbors G n)))) acc ns).2.
Proof.
  revert acc. induction ns as [|n ns IH]; intros acc He; [ done | ].
  cbn [foldl]. apply IH. cbn [fst snd]. apply elem_of_app. by left.
Qed.

Lemma edges_cover_from (G : Graph) (a b : string) (ns : list string)
    (acc : list string * list (string * string)) :
  b ∈ nx.neighbors G a -> a ∈ nx.neighbors G b ->
  a ∈ ns -> b ∈ ns -> a ∉ acc.1 -> b ∉ acc.1 ->
  let out := (foldl (λ (acc : list string * list (string * string)) n,
                (acc.1 ++ [n],
                 acc.2 ++ ((λ nbr, (n, nbr)) <$>
                            List.filter (λ nbr, bool_decide (nbr ∉ acc.1))
                              (nx.neighbors G n)))) acc ns).2 in
  (a, b) ∈ out \/ (b, a) ∈ out.
Proof.
  intros Hab Hba. cbv zeta. revert acc.
  induction ns as [|n ns IH]; intros acc Ha Hb Hna Hnb; [ by apply elem_of_nil in Ha | ].
  cbn [foldl].
  destruct (decide (n = a)) as [->|Hnea].
  - left. apply edges_kept. cbn [fst snd]. apply elem_of_app. right.
    apply list_elem_of_fmap. exists b. split; [ done | ].
    apply elem_of_filter_list. split; [ done | by apply bool_decide_eq_true_2 ].
  - destruct (decide (n = b)) as [->|Hneb].
    + right. apply edges_kept. cbn [fst snd]. apply elem_of_app. right.
      apply list_elem_of_fmap. exists a. split; [ done | ].
      apply elem_of_filter_list. split; [ done | by apply bool_decide_eq_true_2 ].
    + apply IH; cbn [fst snd].
      * apply elem_of_cons in Ha as [->|Ha]; done.
      * apply elem_of_cons in Hb as [->|Hb]; done.
      * intros [?|?%list_elem_of_singleton]%elem_of_app; done.
      * intros [?|?%list_elem_of_singleton]%elem_of_app; done.
Qed.

(** Each edge of a graph that keeps the invariant is listed by
    [G.edges], in one orientation or the other. *)
Lemma edges_cover (G : Graph) (a b : string) :
  graph_wf G -> nx.has_edge G a b = true ->
  (a, b) ∈ nx.edges G \/ (b, a) ∈ nx.edges G.
Proof.
  intros Hwf Hab. destruct (Hwf a b Hab) as (Ha & Hb & Hba).
  unfold nx.edges. apply edges_cover_from; cbn [fst].
  - by apply neighbors_has_edge.
  - by apply neighbors_has_edge.
  - by apply Dict_mem_true.
  - by apply Dict_mem_true.
  - apply not_elem_of_nil.
  - apply not_elem_of_nil.
Qed.

(** X25: the edge records [get_topology_data] returns for a discovered
    topology are the raw links: every record joins the two ends of a raw
    link and carries that link's source and target port in the link's
    stored order, also when the record names the ends in the other order;
    and every raw link has a record that joins its ends. *)
Theorem topology_data_edges (text : string) :
  let tg := discovered text in
  (forall e, e ∈ td_edges (get_topology_data tg) ->
     exists l, l ∈ raw_links tg /\ joins l (ed_source e) (ed_target e)
               /\ ed_source_port e = PyInt (source_port l)
               /\ ed_target_port e = PyInt (target_port l))
  /\ (forall l, l ∈ raw_links tg ->
        exists e, e ∈ td_edges (get_topology_data tg)
                  /\ joins l (ed_source e) (ed_target e)).
Proof.
  cbv zeta. rewrite td_edges_get_topology_data. split.
  - intros e (ab & -> & Hab)%list_elem_of_fmap. cbn [ed_source ed_target
      ed_source_port ed_target_port].
    apply edges_neighbors, neighbors_has_edge in Hab.
    destruct (discovered_model text) as [(Hg & _) | [Hr Hd]].
    { by rewrite Hg in Hab. }
    assert (exists l, l ∈ links (_parse_net_output text) /\ joins l ab.1 ab.2)
      as (l & Hl & Hj).
    { rewrite Hd, graph_build_complete_graph in Hab.
      apply has_edge_foldl_add_edge in Hab as [H | H];
        [ | done | apply graph_wf_nodes_added ].
      rewrite !has_edge_foldl_add_node in H; [ done | apply graph_wf_empty | ].
      apply graph_wf_foldl; [ intros; by apply graph_wf_add_node | apply graph_wf_empty ]. }
    exists l. rewrite Hr. split; [ done | ]. split; [ done | ].
    rewrite Hd, graph_build_complete_graph.
    destruct (built_edge_ports (links (_parse_net_output text))
                (foldl (λ G host,
                   nx.add_node (host_name host)
                     [("type", PyStr "host"); ("ip", PyStr (host_ip host))] G)
                  (foldl (λ G switch,
                     nx.add_node (sw_name switch)
                       [("type", PyStr "switch"); ("dpid", PyStr (sw_dpid switch))] G)
                    nx.empty (switches (_parse_net_output text)))
                  (hosts (_parse_net_output text)))
                l ab.1 ab.2) as [Hsp Htp];
      [ apply graph_wf_nodes_added | done | | done | ].
    { intros l' Hl'. by apply (parsed_links_unique text). }
    unfold Dict.get_default. by rewrite Hsp, Htp.
  - intros l Hl.
    assert (nx.has_edge (graph (discovered text)) (source l) (target l) = true) as Hedge.
    { destruct (discovered_model text) as [(_ & Hr & _) | [Hr Hd]].
      - rewrite Hr in Hl. by apply elem_of_nil in Hl.
      - rewrite Hd, graph_build_complete_graph.
        apply has_edge_foldl_add_edge_intro; [ apply graph_wf_nodes_added | ].
        right. exists l. rewrite <- Hr. split; [ done | by left ]. }
    destruct (edges_cover _ _ _ (graph_wf_discovered text) Hedge) as [He | He].
    + eexists. split; [ apply list_elem_of_fmap; by eexists | ]. by left.
    + eexists. split; [ apply list_elem_of_fmap; by eexists | ]. by right.
Qed.

(** ** The ports in the rules of a valid path *)

(** In a discovered topology, the pair for an edge between distinct
    nodes holds each node's own port on the raw link that joins them. *)
Lemma port_pair_own_ports (text : string) (flows : gmap string (list FlowRule))
    (a b : string) :
  a <> b ->
  nx.has_edge (graph (discovered text)) a b = true ->
  exists l, l ∈ raw_links (discovered text) /\ joins l a b
            /\ _get_port_pair (mkPathToFlow (discovered text) flows) a b
               = Some (PyInt (port_of l a), PyInt (port_of l b)).
Proof.
  intros Hne Hedge.
  assert (exists link, link ∈ raw_links (discovered text) /\ joins link a b)
    as (l & Hl & Hj).
  { destruct (discovered_model text) as [(Hg & _) | [Hr Hd]].
    - rewrite Hg in Hedge. done.
    - rewrite Hr. rewrite Hd, graph_build_complete_graph in Hedge.
      apply has_edge_foldl_add_edge in Hedge as [H | H];
        [ | done | apply graph_wf_nodes_added ].
      rewrite !has_edge_foldl_add_node in H; [ done | apply graph_wf_empty | ].
      apply graph_wf_foldl; [ intros; by apply graph_wf_add_node | apply graph_wf_empty ]. }
  exists l. split; [ done | ]. split; [ done | ].
  destruct (port_pair_of_link text flows l Hl) as (_ & Hfw & Hbw).
  unfold port_of. destruct Hj as [[<- <-] | [<- <-]].
  - rewrite decide_True by done. by rewrite decide_False.
  - rewrite decide_False by done. rewrite decide_True by done.
    apply Hbw. congruence.
Qed.

(** X26: in a discovered topology, the rules of a path [validate_path]
    accepts are fully resolved: for every interior switch, met between
    the nodes [prev] and [next], the forward rule matches the switch's
    own port on the raw link to [prev] and outputs on its own port on the
    raw link to [next]; the reverse rule exchanges the two. No port is
    [None]. *)
Theorem rules_use_switch_ports (text : string) (flows : gmap string (list FlowRule))
    (p : list string) (f : option string) (prio : Z) :
  let self := mkPathToFlow (discovered text) flows in
  let id := flow_id_or_default f p in
  (validate_path self p).1 = true ->
  (create_flow_rules self p f prio).1 = switch_hops p ≫= hop_rules self id prio p
  /\ forall hop, hop ∈ switch_hops p ->
       exists l_in l_out,
         l_in ∈ raw_links (discovered text) /\ joins l_in hop.1.1 hop.1.2
         /\ l_out ∈ raw_links (discovered text) /\ joins l_out hop.1.2 hop.2
         /\ hop_rules self id prio p hop
            = [ mkFlowRule hop.1.2 (id +:+ "_forward")
                  (PyInt (port_of l_in hop.1.2)) (PyInt (port_of l_out hop.1.2))
                  prio p "forward";
                mkFlowRule hop.1.2 (id +:+ "_reverse")
                  (PyInt (port_of l_out hop.1.2)) (PyInt (port_of l_in hop.1.2))
                  prio (reverse p) "reverse" ].
Proof.
  cbv zeta. intros Hvalid.
  apply validate_path_true in Hvalid as (Hlen & _ & Hedges & Hnd).
  split; [ by apply create_flow_rules_hops | ].
  intros [[a s] b] Hin. cbn [fst snd].
  destruct (switch_hops_adjacent p _ Hin) as [Has Hsb]. cbn [fst snd] in Has, Hsb.
  pose proof (adjacent_distinct p a s Hnd Has) as Hne1.
  pose proof (adjacent_distinct p s b Hnd Hsb) as Hne2.
  pose proof (Hedges _ Has) as He1. pose proof (Hedges _ Hsb) as He2.
  cbn [fst snd] in He1, He2.
  destruct (port_pair_own_ports text flows a s Hne1 He1) as (l1 & Hl1 & Hj1 & Hq1).
  destruct (port_pair_own_ports text flows s b Hne2 He2) as (l2 & Hl2 & Hj2 & Hq2).
  exists l1, l2. split_and!; try done.
  unfold hop_rules, ingress_port, egress_port. by rewrite Hq1, Hq2.
Qed.

Lemma rules_use_switch_ports_witness :
  let self := mkPathToFlow (discovered node_lines_dump) ∅ in
  (validate_path self ["h1"; "s1"; "h2"]).1 = true
  /\ (create_flow_rules self ["h1"; "s1"; "h2"] (Some "f1") 1000).1
     = switch_hops ["h1"; "s1"; "h2"]
       ≫= hop_rules self "f1" 1000 ["h1"; "s1"; "h2"].
Proof.
  cbv zeta.
  assert (H : (validate_path (mkPathToFlow (discovered node_lines_dump) ∅)
                 ["h1"; "s1"; "h2"]).1 = true) by (vm_compute; reflexivity).
  split; [ exact H | ].
  exact (proj1 (rules_use_switch_ports node_lines_dump ∅ ["h1"; "s1"; "h2"]
                  (Some "f1") 1000 H)).
Defined.
